(** * xpatch demo editor: the editor page (routes/editor/[id]/+page.svelte)

    A shallow embedding of the script block of the editor page: its
    component variables, the browser facilities it relies on (timers,
    in-flight [invoke] calls, the window key listeners) and every function
    of the script, followed by the properties of autosave throttling,
    time-travel navigation, key repeat and the statistics header.  The
    home page (routes/+page.svelte) is embedded after it, in the same
    style.

    Conventions.
    - JavaScript numbers that hold indexes, timestamps and byte counts are
      integers and are modelled by [Z]; [undefined] and [NaN] are [None].
    - The clock counts milliseconds as a [nat]; [tick] advances it by one
      and runs the timers that became due.
    - An [async] function is cut at each [await] of a backend call: the
      part after the [await] is a continuation ([Cont]) stored with the
      request until the backend replies ([EReply]).  Awaiting a local
      [async] function only costs microtasks, which no event can
      interleave with, so such calls are inlined.
    - [trace] is a ghost log (newest entry first) of the calls made to the
      backend, of their replies, of the calls of [stepVersion] and of the
      exits from time travel. *)

From Stdlib Require Import ZArith QArith String DecimalString Lia.
From stdpp Require Import base list strings gmap.

Open Scope string_scope.

(** ** Data model *)

Inductive Mode := write | preview.

(** [DocumentStats] of lib/api.ts. *)
Record DocumentStats := mkStats {
  total_patches : Z;
  total_delta_bytes : Z;
  total_uncompressed_bytes : Z;
  compression_ratio : Q
}.

Definition Handle := nat.
Definition ReqId := nat.

(** The three closures the script hands to [setTimeout]/[setInterval]. *)
Inductive Callback :=
  | SaveCb                          (* lines 85-88 *)
  | HoldTimeoutCb (direction : Z)   (* lines 159-163 *)
  | HoldIntervalCb (direction : Z). (* lines 160-162 *)

Record Timer := mkTimer {
  handle : Handle;
  due : nat;
  period : option nat;   (* [Some p] for setInterval *)
  cb : Callback
}.

(** The backend calls of lib/api.ts used by the page. *)
Inductive Call :=
  | CreatePatch (docUuid : string) (currentContent : string) (timestamp : nat)
  | GetPatchTimestamps (docUuid : string)
  | GetDocumentStats (docUuid : string)
  | LoadDocumentAtTimestamp (docUuid : string) (timestamp : option Z).

Inductive Reply :=
  | RString (s : string)
  | RTimestamps (ts : list Z)
  | RStats (s : DocumentStats)
  | RError.

(** What remains to be run after each [await] of a backend call. *)
Inductive Cont :=
  | KMountTimestamps   (* onMount, after loadTimestamps *)
  | KMountStats        (* onMount, after loadStats *)
  | KMountLatest       (* onMount, after loadDocumentAtTimestamp *)
  | KSaveCreate        (* performSave, after createPatch *)
  | KSaveTimestamps    (* performSave, after loadTimestamps *)
  | KSaveStats         (* performSave, after loadStats *)
  | KLoadVersion.      (* handleTimeTravelChange, after loadDocumentAtTimestamp *)

Inductive Obs :=
  | OStep (t : nat) (delta : Z)
  | OInvoke (t : nat) (id : ReqId) (c : Call)
  | OSettle (t : nat) (id : ReqId) (k : Cont) (r : Reply)
  | OExit (t : nat).

Record State := mkState {
  (* component variables, lines 27-38 *)
  docUuid : string;
  content : option string;
  mode : Mode;
  timestamps : list Z;
  timeTravelIndex : list Z;
  isTimeTravel : bool;
  timeTravelContent : string;
  stats : option DocumentStats;
  saveTimeout : option Handle;
  isPopoverOpen : bool;
  keyHoldInterval : option Handle;
  keyHoldTimeout : option Handle;
  (* browser *)
  now : nat;
  timers : list Timer;
  nextHandle : Handle;
  pending : gmap ReqId Cont;
  nextReq : ReqId;
  listening : bool;
  alive : bool;
  (* ghost *)
  trace : list Obs
}.

Definition set_content v st :=
  mkState (docUuid st) v (mode st) (timestamps st) (timeTravelIndex st)
    (isTimeTravel st) (timeTravelContent st) (stats st) (saveTimeout st)
    (isPopoverOpen st) (keyHoldInterval st) (keyHoldTimeout st) (now st)
    (timers st) (nextHandle st) (pending st) (nextReq st) (listening st)
    (alive st) (trace st).
Definition set_mode v st :=
  mkState (docUuid st) (content st) v (timestamps st) (timeTravelIndex st)
    (isTimeTravel st) (timeTravelContent st) (stats st) (saveTimeout st)
    (isPopoverOpen st) (keyHoldInterval st) (keyHoldTimeout st) (now st)
    (timers st) (nextHandle st) (pending st) (nextReq st) (listening st)
    (alive st) (trace st).
Definition set_timestamps v st :=
  mkState (docUuid st) (content st) (mode st) v (timeTravelIndex st)
    (isTimeTravel st) (timeTravelContent st) (stats st) (saveTimeout st)
    (isPopoverOpen st) (keyHoldInterval st) (keyHoldTimeout st) (now st)
    (timers st) (nextHandle st) (pending st) (nextReq st) (listening st)
    (alive st) (trace st).
Definition set_timeTravelIndex v st :=
  mkState (docUuid st) (content st) (mode st) (timestamps st) v
    (isTimeTravel st) (timeTravelContent st) (stats st) (saveTimeout st)
    (isPopoverOpen st) (keyHoldInterval st) (keyHoldTimeout st) (now st)
    (timers st) (nextHandle st) (pending st) (nextReq st) (listening st)
    (alive st) (trace st).
Definition set_isTimeTravel v st :=
  mkState (docUuid st) (content st) (mode st) (timestamps st) (timeTravelIndex st)
    v (timeTravelContent st) (stats st) (saveTimeout st)
    (isPopoverOpen st) (keyHoldInterval st) (keyHoldTimeout st) (now st)
    (timers st) (nextHandle st) (pending st) (nextReq st) (listening st)
    (alive st) (trace st).
Definition set_timeTravelContent v st :=
  mkState (docUuid st) (content st) (mode st) (timestamps st) (timeTravelIndex st)
    (isTimeTravel st) v (stats st) (saveTimeout st)
    (isPopoverOpen st) (keyHoldInterval st) (keyHoldTimeout st) (now st)
    (timers st) (nextHandle st) (pending st) (nextReq st) (listening st)
    (alive st) (trace st).
Definition set_stats v st :=
  mkState (docUuid st) (content st) (mode st) (timestamps st) (timeTravelIndex st)
    (isTimeTravel st) (timeTravelContent st) v (saveTimeout st)
    (isPopoverOpen st) (keyHoldInterval st) (keyHoldTimeout st) (now st)
    (timers st) (nextHandle st) (pending st) (nextReq st) (listening st)
    (alive st) (trace st).
Definition set_saveTimeout v st :=
  mkState (docUuid st) (content st) (mode st) (timestamps st) (timeTravelIndex st)
    (isTimeTravel st) (timeTravelContent st) (stats st) v
    (isPopoverOpen st) (keyHoldInterval st) (keyHoldTimeout st) (now st)
    (timers st) (nextHandle st) (pending st) (nextReq st) (listening st)
    (alive st) (trace st).
Definition set_isPopoverOpen v st :=
  mkState (docUuid st) (content st) (mode st) (timestamps st) (timeTravelIndex st)
    (isTimeTravel st) (timeTravelContent st) (stats st) (saveTimeout st)
    v (keyHoldInterval st) (keyHoldTimeout st) (now st)
    (timers st) (nextHandle st) (pending st) (nextReq st) (listening st)
    (alive st) (trace st).
Definition set_keyHoldInterval v st :=
  mkState (docUuid st) (content st) (mode st) (timestamps st) (timeTravelIndex st)
    (isTimeTravel st) (timeTravelContent st) (stats st) (saveTimeout st)
    (isPopoverOpen st) v (keyHoldTimeout st) (now st)
    (timers st) (nextHandle st) (pending st) (nextReq st) (listening st)
    (alive st) (trace st).
Definition set_keyHoldTimeout v st :=
  mkState (docUuid st) (content st) (mode st) (timestamps st) (timeTravelIndex st)
    (isTimeTravel st) (timeTravelContent st) (stats st) (saveTimeout st)
    (isPopoverOpen st) (keyHoldInterval st) v (now st)
    (timers st) (nextHandle st) (pending st) (nextReq st) (listening st)
    (alive st) (trace st).
Definition set_now v st :=
  mkState (docUuid st) (content st) (mode st) (timestamps st) (timeTravelIndex st)
    (isTimeTravel st) (timeTravelContent st) (stats st) (saveTimeout st)
    (isPopoverOpen st) (keyHoldInterval st) (keyHoldTimeout st) v
    (timers st) (nextHandle st) (pending st) (nextReq st) (listening st)
    (alive st) (trace st).
Definition set_timers v st :=
  mkState (docUuid st) (content st) (mode st) (timestamps st) (timeTravelIndex st)
    (isTimeTravel st) (timeTravelContent st) (stats st) (saveTimeout st)
    (isPopoverOpen st) (keyHoldInterval st) (keyHoldTimeout st) (now st)
    v (nextHandle st) (pending st) (nextReq st) (listening st)
    (alive st) (trace st).
Definition set_nextHandle v st :=
  mkState (docUuid st) (content st) (mode st) (timestamps st) (timeTravelIndex st)
    (isTimeTravel st) (timeTravelContent st) (stats st) (saveTimeout st)
    (isPopoverOpen st) (keyHoldInterval st) (keyHoldTimeout st) (now st)
    (timers st) v (pending st) (nextReq st) (listening st)
    (alive st) (trace st).
Definition set_pending v st :=
  mkState (docUuid st) (content st) (mode st) (timestamps st) (timeTravelIndex st)
    (isTimeTravel st) (timeTravelContent st) (stats st) (saveTimeout st)
    (isPopoverOpen st) (keyHoldInterval st) (keyHoldTimeout st) (now st)
    (timers st) (nextHandle st) v (nextReq st) (listening st)
    (alive st) (trace st).
Definition set_nextReq v st :=
  mkState (docUuid st) (content st) (mode st) (timestamps st) (timeTravelIndex st)
    (isTimeTravel st) (timeTravelContent st) (stats st) (saveTimeout st)
    (isPopoverOpen st) (keyHoldInterval st) (keyHoldTimeout st) (now st)
    (timers st) (nextHandle st) (pending st) v (listening st)
    (alive st) (trace st).
Definition set_listening v st :=
  mkState (docUuid st) (content st) (mode st) (timestamps st) (timeTravelIndex st)
    (isTimeTravel st) (timeTravelContent st) (stats st) (saveTimeout st)
    (isPopoverOpen st) (keyHoldInterval st) (keyHoldTimeout st) (now st)
    (timers st) (nextHandle st) (pending st) (nextReq st) v
    (alive st) (trace st).
Definition set_alive v st :=
  mkState (docUuid st) (content st) (mode st) (timestamps st) (timeTravelIndex st)
    (isTimeTravel st) (timeTravelContent st) (stats st) (saveTimeout st)
    (isPopoverOpen st) (keyHoldInterval st) (keyHoldTimeout st) (now st)
    (timers st) (nextHandle st) (pending st) (nextReq st) (listening st)
    v (trace st).
Definition set_trace v st :=
  mkState (docUuid st) (content st) (mode st) (timestamps st) (timeTravelIndex st)
    (isTimeTravel st) (timeTravelContent st) (stats st) (saveTimeout st)
    (isPopoverOpen st) (keyHoldInterval st) (keyHoldTimeout st) (now st)
    (timers st) (nextHandle st) (pending st) (nextReq st) (listening st)
    (alive st) v.

Definition log (o : Obs) (st : State) : State := set_trace (o :: trace st) st.

(** ** Browser facilities *)

(** [setTimeout]/[setInterval]: a fresh handle, the timer is appended. *)
Definition addTimer (c : Callback) (delay : nat) (p : option nat) (st : State)
  : Handle * State :=
  let h := nextHandle st in
  (h, set_nextHandle (S h)
        (set_timers (timers st ++ [mkTimer h (now st + delay) p c]) st)).

Definition setTimeout (c : Callback) (delay : nat) := addTimer c delay None.
Definition setInterval (c : Callback) (p : nat) := addTimer c p (Some p).

(** [clearTimeout]/[clearInterval] (one pool of handles; an unknown or
    expired handle is ignored). *)
Definition clearTimer (h : Handle) (st : State) : State :=
  set_timers (filter (λ t, handle t ≠ h) (timers st)) st.

(** JavaScript truthiness of a variable holding [null] or a timer id. *)
Definition truthy (v : option Handle) : bool :=
  match v with
  | Some h => negb (h =? 0)%nat
  | None => false
  end.

(** [invoke] of @tauri-apps/api: the call leaves; [k] waits for the reply. *)
Definition invoke (c : Call) (k : Cont) (st : State) : State :=
  let id := nextReq st in
  log (OInvoke (now st) id c)
    (set_nextReq (S id) (set_pending (<[id := k]> (pending st)) st)).

(** ** The script *)

Definition SAVE_THROTTLE_MS : nat := 500.

(** [timestamps.length - 1] *)
Definition lastIndex (st : State) : Z := Z.of_nat (length (timestamps st)) - 1.

(** [xs[i]] for an array of numbers and a possibly undefined index. *)
Definition at_index (xs : list Z) (i : option Z) : option Z :=
  match i with
  | Some n => if (0 <=? n)%Z then xs !! Z.to_nat n else None
  | None => None
  end.

(** performSave, lines 64-67: up to the [await createPatch]. *)
Definition performSave (st : State) : State :=
  match content st with
  | Some c => invoke (CreatePatch (docUuid st) c (now st)) KSaveCreate st
  | None => set_saveTimeout None st    (* nothing to do; line 87 follows *)
  end.

(** handleContentChange, lines 79-89. *)
Definition handleContentChange (st : State) : State :=
  match saveTimeout st with
  | Some _ => st
  | None =>
      let '(h, st') := setTimeout SaveCb SAVE_THROTTLE_MS st in
      set_saveTimeout (Some h) st'
  end.

(** The effect of lines 180-184. *)
Definition contentEffect (st : State) : State :=
  if negb (isTimeTravel st) && bool_decide (content st ≠ None)
  then handleContentChange st else st.

(** An assignment to the reactive [content]: the effect re-runs when the
    value changed and the component is still mounted. *)
Definition assignContent (c : string) (st : State) : State :=
  if bool_decide (content st = Some c) then st
  else if alive st then contentEffect (set_content (Some c) st)
  else set_content (Some c) st.

(** handleTimeTravelChange, lines 91-95: up to the [await]. *)
Definition handleTimeTravelChange (value : list Z) (st : State) : State :=
  let st1 := set_isTimeTravel true (set_timeTravelIndex value st) in
  let timestamp := at_index (timestamps st1) (head value) in
  invoke (LoadDocumentAtTimestamp (docUuid st1) timestamp) KLoadVersion st1.

(** jumpToVersion, lines 98-101. *)
Definition jumpToVersion (index : Z) (st : State) : State :=
  if (index <? 0)%Z || (index >=? Z.of_nat (length (timestamps st)))%Z then st
  else handleTimeTravelChange [index] st.

(** stepVersion, lines 103-108. *)
Definition stepVersion (delta : Z) (st : State) : State :=
  match head (timeTravelIndex st) with
  | Some i =>
      let newIndex := (i + delta)%Z in
      if (newIndex >=? 0)%Z && (newIndex <? Z.of_nat (length (timestamps st)))%Z
      then jumpToVersion newIndex st
      else st
  | None => st    (* undefined + delta is NaN, both comparisons fail *)
  end.

(** A call site of [stepVersion], recorded in the ghost log. *)
Definition callStep (delta : Z) (st : State) : State :=
  stepVersion delta (log (OStep (now st) delta) st).

(** exitTimeTravel, lines 110-113; turning [isTimeTravel] off re-runs the
    effect of lines 180-184, which reads it. *)
Definition exitTimeTravel (st : State) : State :=
  let st' := log (OExit (now st))
               (set_timeTravelContent "" (set_isTimeTravel false st)) in
  if isTimeTravel st && alive st then contentEffect st' else st'.

(** Lines 144-147 (also 169-172 and 193-196). *)
Definition clearHoldInterval (st : State) : State :=
  match keyHoldInterval st with
  | Some h => if truthy (Some h)
              then set_keyHoldInterval None (clearTimer h st) else st
  | None => st
  end.

(** Lines 148-151 (also 173-176 and 197-200). *)
Definition clearHoldTimeout (st : State) : State :=
  match keyHoldTimeout st with
  | Some h => if truthy (Some h)
              then set_keyHoldTimeout None (clearTimer h st) else st
  | None => st
  end.

Definition clearKeyHold (st : State) : State :=
  clearHoldTimeout (clearHoldInterval st).

Definition isArrow (key : string) : bool :=
  bool_decide (key = "ArrowLeft") || bool_decide (key = "ArrowRight").

(** handleKeyDown, lines 137-165. *)
Definition handleKeyDown (key : string) (st : State) : State :=
  if negb (isPopoverOpen st) then st
  else if isArrow key then
    let st1 := clearKeyHold st in
    let direction := if bool_decide (key = "ArrowLeft") then (-1)%Z else 1%Z in
    let st2 := callStep direction st1 in
    let '(h, st3) := setTimeout (HoldTimeoutCb direction) 300 st2 in
    set_keyHoldTimeout (Some h) st3
  else st.

(** handleKeyUp, lines 167-178. *)
Definition handleKeyUp (key : string) (st : State) : State :=
  if isArrow key then clearKeyHold st else st.

(** The effect of lines 186-207, with its cleanup run before it. *)
Definition popoverEffect (st : State) : State :=
  if isPopoverOpen st then set_listening true st
  else clearKeyHold (set_listening false st).

(** onDestroy, lines 50-54, and the cleanup of the popover effect. *)
Definition onDestroy (st : State) : State :=
  let st1 := if truthy (saveTimeout st)
             then clearTimer (default 0%nat (saveTimeout st)) st else st in
  let st2 := if truthy (keyHoldInterval st1)
             then clearTimer (default 0%nat (keyHoldInterval st1)) st1 else st1 in
  let st3 := if truthy (keyHoldTimeout st2)
             then clearTimer (default 0%nat (keyHoldTimeout st2)) st2 else st2 in
  set_alive false (set_listening false st3).

(** The body of a timer callback. *)
Definition runCallback (c : Callback) (st : State) : State :=
  match c with
  | SaveCb => performSave st
  | HoldTimeoutCb direction =>
      let '(h, st') := setInterval (HoldIntervalCb direction) 50 st in
      set_keyHoldInterval (Some h) st'
  | HoldIntervalCb direction => callStep direction st
  end.

(** The code after an [await], run when the backend replies.  A rejection
    ends the task unless it is caught (only createPatch's is); so does,
    in this model, a reply that is not of the type lib/api.ts declares
    for the call. *)
Definition resume (k : Cont) (r : Reply) (st : State) : State :=
  match k, r with
  | KMountTimestamps, RTimestamps ts =>
      invoke (GetDocumentStats (docUuid st)) KMountStats (set_timestamps ts st)
  | KMountStats, RStats s =>
      let st1 := set_stats (Some s) st in
      if (0 <? length (timestamps st1))%nat
      then invoke (LoadDocumentAtTimestamp (docUuid st1) (Some (Z.of_nat (now st1))))
             KMountLatest st1
      else st1
  | KMountLatest, RString latest =>
      let st1 := assignContent latest st in
      set_timeTravelIndex [lastIndex st1] st1
  | KSaveCreate, _ =>   (* try/catch, lines 66-70; then line 71 *)
      invoke (GetPatchTimestamps (docUuid st)) KSaveTimestamps st
  | KSaveTimestamps, RTimestamps ts =>
      invoke (GetDocumentStats (docUuid st)) KSaveStats (set_timestamps ts st)
  | KSaveStats, RStats s =>
      let st1 := set_stats (Some s) st in
      let st2 := if negb (isTimeTravel st1)
                 then set_timeTravelIndex [lastIndex st1] st1 else st1 in
      set_saveTimeout None st2    (* line 87 *)
  | KLoadVersion, RString s => set_timeTravelContent s st
  | _, _ => st
  end.

(** ** The event loop *)

Definition findTimer (h : Handle) (ts : list Timer) : option Timer :=
  head (filter (λ t, handle t = h) ts).

(** An interval that has fired is due again one period later. *)
Definition rearm (t : Timer) (p : nat) (ts : list Timer) : list Timer :=
  (λ u, if bool_decide (handle u = handle t)
        then mkTimer (handle t) (due t + p) (Some p) (cb t) else u) <$> ts.

(** Run timer [h] if it is still active and due: a timeout is removed,
    an interval is re-armed. *)
Definition fire (h : Handle) (st : State) : State :=
  match findTimer h (timers st) with
  | Some t =>
      if (due t <=? now st)%nat then
        let st1 :=
          match period t with
          | None => clearTimer h st
          | Some p => set_timers (rearm t p (timers st)) st
          end in
        runCallback (cb t) st1
      else st
  | None => st
  end.

Definition dueHandles (st : State) : list Handle :=
  handle <$> filter (λ t, (due t ≤ now st)%nat) (timers st).

(** One millisecond passes. *)
Definition tick (st : State) : State :=
  let st1 := set_now (S (now st)) st in
  foldl (λ s h, fire h s) st1 (dueHandles st1).

Fixpoint advance (n : nat) (st : State) : State :=
  match n with
  | O => st
  | S n' => advance n' (tick st)
  end.

Inductive Event :=
  | EEdit (c : string)            (* typing in the textarea *)
  | ESetMode (m : Mode)           (* Write / Preview buttons *)
  | EPopover (open : bool)        (* the Time Travel popover *)
  | ESlider (value : list Z)      (* onValueChange of the slider *)
  | EFirst | EPrev | ENext | ELast
  | EExit                         (* Return to Current *)
  | EKeyDown (key : string)
  | EKeyUp (key : string)
  | ETick
  | EReply (id : ReqId) (r : Reply)
  | EDestroy.

(** The navigation controls exist only inside the open popover, which is
    rendered only for a non-empty timeline (line 257). *)
Definition navVisible (st : State) : bool :=
  alive st && isPopoverOpen st && (0 <? length (timestamps st))%nat.

Definition step (e : Event) (st : State) : State :=
  match e with
  | EEdit c => if alive st then assignContent c st else st
  | ESetMode m => if alive st then set_mode m st else st
  | EPopover b =>
      if alive st && negb (eqb b (isPopoverOpen st))
         && (negb b || (0 <? length (timestamps st))%nat)
      then popoverEffect (set_isPopoverOpen b st) else st
  | ESlider v => if navVisible st then handleTimeTravelChange v st else st
  | EFirst => if navVisible st then jumpToVersion 0 st else st
  | EPrev => if navVisible st then callStep (-1) st else st
  | ENext => if navVisible st then callStep 1 st else st
  | ELast => if navVisible st then jumpToVersion (lastIndex st) st else st
  | EExit => if navVisible st && isTimeTravel st then exitTimeTravel st else st
  | EKeyDown key => if listening st then handleKeyDown key st else st
  | EKeyUp key => if listening st then handleKeyUp key st else st
  | ETick => tick st
  | EReply id r =>
      match pending st !! id with
      | Some k =>
          resume k r (log (OSettle (now st) id k r)
                        (set_pending (delete id (pending st)) st))
      | None => st
      end
  | EDestroy => if alive st then onDestroy st else st
  end.

Definition run (es : list Event) (st : State) : State :=
  foldl (λ s e, step e s) st es.

(** The variables as initialised by lines 27-38. *)
Definition initial (doc : string) : State :=
  mkState doc (Some "") write [] [0%Z] false "" None None false None None
    0 [] 1 ∅ 0 false true [].

(** Mounting: onMount (lines 40-41, up to the first [await]), then the
    first run of the two effects. *)
Definition mount (doc : string) : State :=
  let st := initial doc in
  let st1 := invoke (GetPatchTimestamps (docUuid st)) KMountTimestamps st in
  popoverEffect (contentEffect st1).

Inductive reachable (doc : string) : State → Prop :=
  | reach_mount : reachable doc (mount doc)
  | reach_step st e : reachable doc st → reachable doc (step e st).

(** ** Views of a state used in the statements *)

Definition isSave (t : Timer) : bool :=
  match cb t with SaveCb => true | _ => false end.
Definition isHoldTimeout (t : Timer) : bool :=
  match cb t with HoldTimeoutCb _ => true | _ => false end.
Definition isHoldInterval (t : Timer) : bool :=
  match cb t with HoldIntervalCb _ => true | _ => false end.

(** The active timers of each kind. *)
Definition saveTimers (st : State) : list Timer := filter (λ t, isSave t = true) (timers st).
Definition holdTimeouts (st : State) : list Timer :=
  filter (λ t, isHoldTimeout t = true) (timers st).
Definition holdIntervals (st : State) : list Timer :=
  filter (λ t, isHoldInterval t = true) (timers st).

(** The calls of [stepVersion] (time, delta), newest first. *)
Definition steps (tr : list Obs) : list (nat * Z) :=
  omap (λ o, match o with OStep t d => Some (t, d) | _ => None end) tr.

(** The calls of [createPatch] (content, time), newest first. *)
Definition patches (tr : list Obs) : list (string * nat) :=
  omap (λ o, match o with
             | OInvoke _ _ (CreatePatch _ c t) => Some (c, t)
             | _ => None end) tr.

(** The reconstruction requests (request id, timestamp), newest first. *)
Definition loads (tr : list Obs) : list (ReqId * option Z) :=
  omap (λ o, match o with
             | OInvoke _ id (LoadDocumentAtTimestamp _ ts) => Some (id, ts)
             | _ => None end) tr.

Definition isSaveCont (k : Cont) : bool :=
  match k with KSaveCreate | KSaveTimestamps | KSaveStats => true | _ => false end.


(** The results of navigation requests (request id, text) in the order
    they arrived, newest first. *)
Definition versionResults (tr : list Obs) : list (ReqId * string) :=
  omap (λ o, match o with
             | OSettle _ id KLoadVersion (RString s) => Some (id, s)
             | _ => None end) tr.

(** What the code shows, read off the log: the text of the navigation
    result that arrived last, or nothing after an exit from time travel. *)
Definition shown (tr : list Obs) : string :=
  default "" (head (omap (λ o, match o with
                               | OSettle _ _ KLoadVersion (RString s) => Some s
                               | OExit _ => Some ""
                               | _ => None end) tr)).

(** The display rule in the words of the specification, for comparison
    with the code: request ids are handed out in issue order, so they
    serve as sequence numbers, and among the results that have arrived the
    one with the highest number is the one to show. *)
Fixpoint highestIssued (rs : list (ReqId * string)) : option (ReqId * string) :=
  match rs with
  | [] => None
  | (id, s) :: rest =>
      match highestIssued rest with
      | Some (id', s') => if (id <? id')%nat then Some (id', s') else Some (id, s)
      | None => Some (id, s)
      end
  end.

Definition specDisplayed (tr : list Obs) : option string :=
  snd <$> highestIssued (versionResults tr).

(** A burst of edits: each one arrives [d] milliseconds after the
    previous event and carries the new text. *)
Definition burst (edits : list (nat * string)) (st : State) : State :=
  foldl (λ s e, step (EEdit e.2) (advance e.1 s)) st edits.

(** Events that neither navigate, leave time travel, change the mode nor
    touch the keyboard. *)
Definition isQuiet (e : Event) : bool :=
  match e with
  | EEdit _ | EPopover _ | ETick | EReply _ _ | EDestroy => true
  | _ => false
  end.

Definition isMountCont (k : Cont) : bool :=
  match k with KMountTimestamps | KMountStats | KMountLatest => true | _ => false end.

(** Events after which the timeline is still empty if it was. *)
Definition keepsEmpty (e : Event) : bool :=
  match e with
  | EReply _ (RTimestamps (_ :: _)) => false
  | _ => true
  end.

(** Mounting is over and no key is being held. *)
Definition settled (st : State) : Prop :=
  holdTimeouts st = [] ∧ holdIntervals st = [] ∧
  ∀ id k, pending st !! id = Some k → isMountCont k = false.

(** The steps of [k] periods of key repeat that started at [t0] (the time
    the repetition interval was armed), newest first. *)
Fixpoint repeatSteps (t0 : nat) (direction : Z) (k : nat) : list (nat * Z) :=
  match k with
  | O => []
  | S k' => (t0 + 50 * k, direction) :: repeatSteps t0 direction k'
  end.

Definition direction (key : string) : Z :=
  if bool_decide (key = "ArrowLeft") then (-1)%Z else 1%Z.

(** What a step is about: the index, the time-travel flag and the
    timestamps requested so far (newest first). *)
Definition navView (st : State) : list Z * bool * list (option Z) :=
  (timeTravelIndex st, isTimeTravel st, (loads (trace st)).*2).

(** A step in the words of the specification, for comparison with
    [stepVersion]: the index moves by [delta], time travel is on and the
    version at the new index is requested, unless that would leave the
    timeline [ts], in which case nothing happens. *)
Definition specStep (ts : list Z) (delta : Z)
    (v : list Z * bool * list (option Z)) : list Z * bool * list (option Z) :=
  match v.1.1 with
  | i :: _ =>
      if bool_decide (0 ≤ i + delta < Z.of_nat (length ts))%Z
      then ([(i + delta)%Z], true, ts !! Z.to_nat (i + delta) :: v.2)
      else v
  | [] => v
  end.

(** The steps of a log (newest first) applied in the order they were
    taken. *)
Definition replay (ts : list Z) (new : list (nat * Z))
    (v : list Z * bool * list (option Z)) : list Z * bool * list (option Z) :=
  foldr (λ e v, specStep ts e.2 v) v new.

(** Events that leave a key hold alone: they neither press nor release
    an arrow key, neither open nor close the popover nor tear the page
    down, and they are not a click on the step buttons (which call
    [stepVersion] themselves). *)
Definition keepsHold (e : Event) : bool :=
  match e with
  | EKeyDown key | EKeyUp key => negb (isArrow key)
  | EPopover _ | EDestroy | EPrev | ENext => false
  | _ => true
  end.

(** The replies that bring a save to its end, from the stage [k] it is
    at: [id] is the request [k] waits for, [n] the number the next
    request gets; [r] answers createPatch (a rejection is caught), [ts]
    and [s] answer the two refresh calls. *)
Definition completion (k : Cont) (id n : ReqId) (r : Reply) (ts : list Z)
    (s : DocumentStats) : list Event :=
  match k with
  | KSaveCreate => [EReply id r; EReply n (RTimestamps ts); EReply (S n) (RStats s)]
  | KSaveTimestamps => [EReply id (RTimestamps ts); EReply n (RStats s)]
  | KSaveStats => [EReply id (RStats s)]
  | _ => []
  end.

(** [saveTimeout] is set although no save timer is armed and no save is
    in flight: what a save leaves behind when one of its refresh calls is
    rejected (line 87 is not reached). *)
Definition saveStuck (st : State) : Prop :=
  saveTimeout st ≠ None ∧
  (∀ t, t ∈ timers st → isSave t = false) ∧
  (∀ id k, pending st !! id = Some k → isSaveCont k = false).

(** [st'] comes from [st] without a save being made, armed or started,
    and without [saveTimeout] being assigned. *)
Definition stuckFrame (st st' : State) : Prop :=
  saveTimeout st' = saveTimeout st ∧
  patches (trace st') = patches (trace st) ∧
  (∀ t, t ∈ timers st' → t ∈ timers st ∨ isSave t = false) ∧
  (∀ id k, pending st' !! id = Some k →
           pending st !! id = Some k ∨ isSaveCont k = false).

(** An armed timer that is due in the future; an interval has a positive
    period. *)
Definition aheadOf (n : nat) (t : Timer) : Prop :=
  n < due t ∧ ∀ p, period t = Some p → 0 < p.

(** Every armed timer is due in the future. *)
Definition timersAhead (st : State) : Prop :=
  ∀ t, t ∈ timers st → aheadOf (now st) t.

(** [st'] comes from [st] without the clock moving; the timers it adds
    are due in the future. *)
Definition aheadFrame (st st' : State) : Prop :=
  now st' = now st ∧
  ∀ t, t ∈ timers st' → t ∈ timers st ∨ aheadOf (now st) t.

(** ** The statistics header (template lines 217-236)

    The numbers of the source are IEEE doubles.  They are modelled by
    exact integers and rationals, and each function below is defined only
    where the double arithmetic of the source gives the exact result; it
    yields [None] elsewhere, where its text would depend on roundings
    that are not modelled. *)

Definition digits (n : Z) : string := NilZero.string_of_uint (N.to_uint (Z.to_N n)).

(** The integer nearest to [a / b] for [b > 0], a half going upwards, in
    exact arithmetic.  It is what [Math.round] gives for a quotient that
    the doubles compute without a rounding that matters; it is used below
    inside such ranges only. *)
Definition roundDiv (a b : Z) : Z := ((2 * a + b) / (2 * b))%Z.

(** The text of the number [h / 100], [h ≥ 0], as JavaScript prints it. *)
Definition showHundredths (h : Z) : string :=
  let r := (h mod 100)%Z in
  digits (h / 100) ++
  (if (r =? 0)%Z then ""
   else "." ++ (if (r mod 10 =? 0)%Z then digits (r / 10)
                else if (r <? 10)%Z then "0" ++ digits r else digits r)).

(** formatBytes, lines 115-121, for a whole number of bytes.

    Below 2^30 every operation of the source is exact: the floor of
    [Math.log(bytes) / Math.log(k)] is the integer logarithm in base 1024
    (the quotient is exactly 1 at 2^10 and exactly 2 at 2^20, and
    elsewhere its distance from a whole number is far above the rounding
    error), [bytes / Math.pow(k, i) * 100] is computed without rounding,
    and the double nearest to [h / 100] is printed as [h / 100].  From
    2^30 on the index depends on how the two logarithms are rounded: no
    text is given.  For a negative argument the logarithm is NaN, and so
    is everything after it. *)
Definition formatBytes (bytes : Z) : option string :=
  if (bytes =? 0)%Z then Some "0 B"
  else if (bytes <? 0)%Z then Some "NaN undefined"
  else if (bytes <? 2 ^ 30)%Z then
    let k := 1024%Z in
    let sizes := ["B"; "KB"; "MB"] in
    let i := (Z.log2 bytes / 10)%Z in
    Some (showHundredths (roundDiv (bytes * 100) (k ^ i))
            ++ " " ++ default "undefined" (sizes !! Z.to_nat i))
  else None.

(** The rationals that are the value of a finite double: in lowest terms
    the denominator is a power of two, at most 2^1074, and the numerator
    without its factors of two has at most 53 bits. *)
Definition isDouble (x : Q) : bool :=
  let r := Qred x in
  let m := Z.abs (Qnum r) in
  let d := Zpos (Qden r) in
  (d =? 2 ^ Z.log2 d)%Z && (Z.log2 d <=? 1074)%Z &&
  ((m =? 0)%Z || (m / Z.land m (- m) <? 2 ^ 53)%Z).

(** [x.toFixed(1)] for the exact value [x] of a double below 10^21 in
    absolute value: the [n] for which [n / 10] is nearest to [x], the
    larger one of two, printed with one decimal.  From 10^21 on the
    source prints an exponent; a rational that is not a double is not a
    value the source can hold. *)
Definition toFixed1 (x : Q) : option string :=
  if isDouble x && (Z.abs (Qnum x) <? 10 ^ 21 * Zpos (Qden x))%Z then
    let n := roundDiv (10 * Z.abs (Qnum x)) (Zpos (Qden x)) in
    Some ((if (Qnum x <? 0)%Z then "-" else "")
            ++ digits (n / 10) ++ "." ++ digits (n mod 10))
  else None.

(** The texts of the header; [None] where the exact model gives none. *)
Record StatsHeader := mkHeader {
  deltaText : option string;     (* line 220 *)
  totalText : option string;     (* line 224 *)
  ratioText : option string;     (* line 227, between the parentheses *)
  countText : string;            (* line 230, after the bullet *)
  averageText : option string    (* line 233, after the bullet *)
}.

(** Line 233: [Math.round(stats.total_delta_bytes / stats.total_patches)].
    The quotient of the doubles is rounded to 53 bits before [Math.round]
    sees it; for fewer than 2^52 bytes that rounding cannot reach a half
    from below, and the result is the nearest integer to the exact
    quotient. *)
Definition averageBytes (s : DocumentStats) : option Z :=
  if (0 <? total_patches s)%Z && (total_patches s <? 2 ^ 53)%Z
     && (0 <=? total_delta_bytes s)%Z && (total_delta_bytes s <? 2 ^ 52)%Z
  then Some (roundDiv (total_delta_bytes s) (total_patches s))
  else None.

Definition statsHeader (s : option DocumentStats) : option StatsHeader :=
  match s with
  | Some s =>
      if (0 <? total_patches s)%Z then
        Some (mkHeader
                (formatBytes (total_delta_bytes s))
                (formatBytes (total_uncompressed_bytes s))
                ((λ t, t ++ "x compression") <$> toFixed1 (compression_ratio s))
                (digits (total_patches s) ++ " "
                   ++ (if (total_patches s =? 1)%Z then "patch" else "patches"))
                ((λ t, "avg " ++ t ++ "/patch")
                   <$> (averageBytes s ≫= formatBytes)))
      else None
  | None => None
  end.

(** What key repeat is about: the armed key timers, the steps taken so
    far and the clock. *)
Definition holdView (st : State) : list Timer * list Timer * list (nat * Z) * nat :=
  (holdTimeouts st, holdIntervals st, steps (trace st), now st).

(** What autosave is about: the armed save timers, the flag, the content,
    the createPatch calls made so far, the clock, and whether the
    component is still mounted. *)
Definition saveView (st : State)
  : list Timer * option Handle * option string * list (string * nat) * nat * bool :=
  (saveTimers st, saveTimeout st, content st, patches (trace st), now st, alive st).

(** Where the scrubber stands: index, time-travel flag and mode. *)
Definition scrubView (st : State) : list Z * bool * Mode :=
  (timeTravelIndex st, isTimeTravel st, mode st).

(** What the timers, the saves and the popover leave alone: the text
    shown, the timeline, the time-travel flag and the reconstruction
    requests made. *)
Definition displayView (st : State)
  : string * string * list Z * bool * list (ReqId * option Z) :=
  (timeTravelContent st, shown (trace st), timestamps st, isTimeTravel st,
   loads (trace st)).

(** What navigation leaves alone: the timers, the timer variables, the
    clock, the content, the timeline and the createPatch calls made. *)
Definition navFrame (st st' : State) : Prop :=
  timers st' = timers st ∧ nextHandle st' = nextHandle st ∧
  saveTimeout st' = saveTimeout st ∧ keyHoldTimeout st' = keyHoldTimeout st ∧
  keyHoldInterval st' = keyHoldInterval st ∧ now st' = now st ∧
  content st' = content st ∧ timestamps st' = timestamps st ∧
  isPopoverOpen st' = isPopoverOpen st ∧ alive st' = alive st ∧
  listening st' = listening st ∧ mode st' = mode st ∧
  patches (trace st') = patches (trace st).

(** ** The timer invariant

    What holds of the timers and of the requests in flight in every state
    the page can reach: handles are fresh and never zero; a timer of each
    kind is the one its variable names; a delay timer and a repetition
    interval are never armed together; only the latter repeats; while a save is in flight no save
    timer is armed and [saveTimeout] is still set. *)

Record InvCore (ts : list Timer) (nh : Handle) (sv kt ki : option Handle)
    (pd : gmap ReqId Cont) : Prop := mkInv {
  inv_nodup : NoDup (handle <$> ts);
  inv_next : (1 ≤ nh)%nat;
  inv_bound : ∀ t, t ∈ ts → (1 ≤ handle t < nh)%nat;
  inv_save : ∀ t, t ∈ ts → isSave t = true → sv = Some (handle t);
  inv_timeout : ∀ t, t ∈ ts → isHoldTimeout t = true →
      kt = Some (handle t) ∧ ∀ u, u ∈ ts → isHoldInterval u = false;
  inv_interval : ∀ t, t ∈ ts → isHoldInterval t = true → ki = Some (handle t);
  inv_oneshot : ∀ t, t ∈ ts → isHoldInterval t = false → period t = None;
  inv_saving : ∀ id k, pd !! id = Some k → isSaveCont k = true →
      sv ≠ None ∧ (∀ t, t ∈ ts → isSave t = false) ∧
      ∀ id' k', pd !! id' = Some k' → isSaveCont k' = true → id' = id
}.

Definition Inv (st : State) : Prop :=
  InvCore (timers st) (nextHandle st) (saveTimeout st) (keyHoldTimeout st)
    (keyHoldInterval st) (pending st).

(** ** The spacing of saves *)

(** The entries of a log of saves (content, time), newest first, are at
    least [gap] milliseconds apart. *)
Definition spaced (gap : nat) (ps : list (string * nat)) : Prop :=
  ∀ i j p q, (i < j)%nat → ps !! i = Some p → ps !! j = Some q →
             (q.2 + gap ≤ p.2)%nat.

(** What the throttle maintains: the saves made so far are spaced, none
    is in the future or earlier than one window after the page was opened,
    and an armed save timer is due no earlier than one window after the
    last save. *)
Definition throttled (st : State) : Prop :=
  spaced SAVE_THROTTLE_MS (patches (trace st)) ∧
  (∀ p, p ∈ patches (trace st) → (SAVE_THROTTLE_MS ≤ p.2 ≤ now st)%nat) ∧
  (∀ u, u ∈ saveTimers st →
        (SAVE_THROTTLE_MS ≤ due u)%nat ∧
        ∀ p, p ∈ patches (trace st) → (p.2 + SAVE_THROTTLE_MS ≤ due u)%nat).

(** [st'] comes from [st] without a save and without the clock moving; a
    save timer that was not armed before is due one window from now. *)
Definition saveQuiet (st st' : State) : Prop :=
  patches (trace st') = patches (trace st) ∧ now st' = now st ∧
  ∀ u, u ∈ saveTimers st' →
       u ∈ saveTimers st ∨ due u = (now st + SAVE_THROTTLE_MS)%nat.

(** After teardown: the component is gone, the key listeners are removed
    and no timer is armed. *)
Definition tornDown (st : State) : Prop :=
  alive st = false ∧ listening st = false ∧ timers st = [].

(** Each timer variable names no timer of another kind, and holds no
    handle that is still to be handed out. *)
Definition varsFresh (st : State) : Prop :=
  (∀ t, t ∈ timers st →
     (saveTimeout st = Some (handle t) → isSave t = true) ∧
     (keyHoldTimeout st = Some (handle t) → isHoldTimeout t = true) ∧
     (keyHoldInterval st = Some (handle t) → isHoldInterval t = true)) ∧
  (∀ h, saveTimeout st = Some h ∨ keyHoldTimeout st = Some h
        ∨ keyHoldInterval st = Some h → (h < nextHandle st)%nat).

(** From [st] to [st'] the timeline is unchanged and every reconstruction
    request that was added asks for a timestamp of the timeline. *)
Definition requestsExisting (st st' : State) : Prop :=
  timestamps st' = timestamps st ∧
  ∀ id o, (id, o) ∈ loads (trace st') →
          (id, o) ∈ loads (trace st) ∨ ∃ ts, o = Some ts ∧ ts ∈ timestamps st.

(** onMount is over: none of its requests is in flight. *)
Definition mountOver (st : State) : Prop :=
  ∀ id k, pending st !! id = Some k → isMountCont k = false.

(** The key listeners, the popover and the component are as they were. *)
Definition uiSame (st st' : State) : Prop :=
  listening st' = listening st ∧ isPopoverOpen st' = isPopoverOpen st ∧
  alive st' = alive st.




(** What holds while the popover is closed: the key listeners are
    removed and no key timer is armed. *)
Definition popoverClosed (st : State) : Prop :=
  isPopoverOpen st = false ∧ listening st = false ∧
  holdTimeouts st = [] ∧ holdIntervals st = [].

(** The number of milliseconds that pass during a list of events. *)
Definition isTick (e : Event) : bool :=
  match e with ETick => true | _ => false end.

Definition ticksIn (es : list Event) : nat :=
  length (filter (λ e, isTick e = true) es).

(** ** The label of the selected version (template line 283)

    formatRelativeTime, lines 123-135, for a timestamp of the timeline.
    [Date.now()] is the argument [dateNow]; [toLocaleDateString] stands
    for the locale-dependent rendering of
    [new Date(timestamp).toLocaleDateString()]. *)
Definition formatRelativeTime (toLocaleDateString : Z → string)
    (dateNow timestamp : Z) : string :=
  let diff := (dateNow - timestamp)%Z in
  let minutes := (diff / 60000)%Z in
  let hours := (diff / 3600000)%Z in
  let days := (diff / 86400000)%Z in
  if (minutes <? 1)%Z then "just now"
  else if (minutes <? 60)%Z then digits minutes ++ "m ago"
  else if (hours <? 24)%Z then digits hours ++ "h ago"
  else if (days <? 7)%Z then digits days ++ "d ago"
  else toLocaleDateString timestamp.

(** * The home page (routes/+page.svelte)

    The text typed into the name field is inspected by [trim], so it is
    modelled as the sequence of its UTF-16 code units; the texts the page
    only passes on stay opaque. *)

Definition JsString := list N.

(** The code units [String.prototype.trim] removes: the WhiteSpace and
    LineTerminator code points of ECMAScript. *)
Definition isWhiteSpace (c : N) : bool :=
  bool_decide (c ∈ [9; 10; 11; 12; 13; 32; 160; 5760; 8192; 8193; 8194; 8195;
                    8196; 8197; 8198; 8199; 8200; 8201; 8202; 8232; 8233;
                    8239; 8287; 12288; 65279]%N).

Fixpoint trimStart (s : JsString) : JsString :=
  match s with
  | c :: s' => if isWhiteSpace c then trimStart s' else s
  | [] => []
  end.

Definition trim (s : JsString) : JsString :=
  reverse (trimStart (reverse (trimStart s))).

(** [Document] of lib/api.ts. *)
Record Document := mkDocument {
  uuid : string;
  name : JsString;
  created_at : Z
}.

Inductive HomeCall :=
  | GetDocuments
  | CreateDocument (name : JsString).

Inductive HomeReply :=
  | HDocuments (docs : list Document)
  | HUuid (uuid : string)
  | HError.

Inductive HomeCont :=
  | KDocuments    (* onMount, after getDocuments *)
  | KCreated.     (* handleCreate, after createDocument *)

Record HomeState := mkHome {
  (* component variables, lines 9-11 *)
  documents : list Document;
  newDocName : JsString;
  loading : bool;
  (* browser *)
  location : option string;          (* the target of the last [goto] *)
  inFlight : gmap ReqId HomeCont;
  (* ghost: the backend calls made, newest first *)
  issued : list HomeCall
}.

Definition homeInvoke (c : HomeCall) (k : HomeCont) (st : HomeState) : HomeState :=
  mkHome (documents st) (newDocName st) (loading st) (location st)
    (<[length (issued st) := k]> (inFlight st)) (c :: issued st).

Definition goto (path : string) (st : HomeState) : HomeState :=
  mkHome (documents st) (newDocName st) (loading st) (Some path)
    (inFlight st) (issued st).

(** handleCreate, lines 18-20: up to the [await]. *)
Definition handleCreate (st : HomeState) : HomeState :=
  if bool_decide (trim (newDocName st) = []) then st
  else homeInvoke (CreateDocument (newDocName st)) KCreated st.

(** The code after each [await] (lines 14-15 and 20-22); a rejection is
    not caught and ends the task. *)
Definition homeResume (k : HomeCont) (r : HomeReply) (st : HomeState) : HomeState :=
  match k, r with
  | KDocuments, HDocuments docs =>
      mkHome docs (newDocName st) false (location st) (inFlight st) (issued st)
  | KCreated, HUuid u =>
      goto ("/editor/" ++ u)
        (mkHome (documents st) [] (loading st) (location st) (inFlight st)
           (issued st))
  | _, _ => st
  end.

(** What lines 45-67 render below the form. *)
Inductive HomeView :=
  | Loading
  | NoDocuments
  | Grid (docs : list Document).

Definition homeView (st : HomeState) : HomeView :=
  if loading st then Loading
  else if (length (documents st) =? 0)%nat then NoDocuments
  else Grid (documents st).

Inductive HomeEvent :=
  | HInput (v : JsString)          (* bind:value of the name field *)
  | HKeyDown (key : string)        (* a key pressed in the name field *)
  | HCreate                        (* the Create button *)
  | HOpen (i : nat)                (* a click on the i-th card *)
  | HReply (id : ReqId) (r : HomeReply).

Definition homeStep (e : HomeEvent) (st : HomeState) : HomeState :=
  match e with
  | HInput v =>
      mkHome (documents st) v (loading st) (location st) (inFlight st) (issued st)
  | HKeyDown key => if bool_decide (key = "Enter") then handleCreate st else st
  | HCreate => handleCreate st
  | HOpen i =>
      match homeView st with
      | Grid docs =>
          match docs !! i with
          | Some doc => goto ("/editor/" ++ uuid doc) st
          | None => st
          end
      | _ => st
      end
  | HReply id r =>
      match inFlight st !! id with
      | Some k =>
          homeResume k r
            (mkHome (documents st) (newDocName st) (loading st) (location st)
               (delete id (inFlight st)) (issued st))
      | None => st
      end
  end.

Definition homeRun (es : list HomeEvent) (st : HomeState) : HomeState :=
  foldl (λ s e, homeStep e s) st es.

(** Lines 9-14: the variables as initialised, and onMount up to its
    [await]. *)
Definition homeMount : HomeState :=
  homeInvoke GetDocuments KDocuments (mkHome [] [] true None ∅ []).

Example formatBytes_examples :
  formatBytes 1536 = Some "1.5 KB" ∧ formatBytes 1023 = Some "1023 B" ∧
  formatBytes 1048576 = Some "1 MB" ∧ formatBytes 1100 = Some "1.07 KB" ∧
  formatBytes 1029 = Some "1 KB" ∧ formatBytes 1073741824 = None ∧
  toFixed1 (25 # 8) = Some "3.1" ∧ toFixed1 (1 # 4) = Some "0.3" ∧
  toFixed1 (-3 # 2) = Some "-1.5" ∧ toFixed1 (5 # 100) = None.
Proof. vm_compute. repeat split. Qed.

(** ** Navigation at the boundaries and on an empty timeline *)

Lemma jumpToVersion_out_of_range index st :
  (index < 0 ∨ Z.of_nat (length (timestamps st)) ≤ index)%Z →
  jumpToVersion index st = st.
Proof.
  intros Hr. unfold jumpToVersion.
  destruct (index <? 0)%Z eqn:E1; [done|].
  destruct (index >=? Z.of_nat (length (timestamps st)))%Z eqn:E2; [done|].
  lia.
Qed.

Lemma stepVersion_out_of_range delta st i rest :
  timeTravelIndex st = i :: rest →
  (i + delta < 0 ∨ Z.of_nat (length (timestamps st)) ≤ i + delta)%Z →
  stepVersion delta st = st.
Proof.
  intros Hi Hr. unfold stepVersion. rewrite Hi. simpl.
  destruct (i + delta >=? 0)%Z eqn:E1; [|done].
  destruct (i + delta <? Z.of_nat (length (timestamps st)))%Z eqn:E2; [|done].
  lia.
Qed.

Lemma stepVersion_in_range delta st i rest :
  timeTravelIndex st = i :: rest →
  (0 ≤ i + delta < Z.of_nat (length (timestamps st)))%Z →
  stepVersion delta st = handleTimeTravelChange [(i + delta)%Z] st.
Proof.
  intros Hi Hr. unfold stepVersion, jumpToVersion. rewrite Hi. simpl.
  destruct (i + delta >=? 0)%Z eqn:E1; [|lia].
  destruct (i + delta <? Z.of_nat (length (timestamps st)))%Z eqn:E2; [|lia].
  simpl.
  destruct (i + delta <? 0)%Z eqn:E3; [lia|].
  destruct (i + delta >=? Z.of_nat (length (timestamps st)))%Z eqn:E4; [lia|].
  done.
Qed.

(** C7: a relative move that would leave [0, length-1] changes nothing:
    [stepVersion (-1)] at index 0 and [stepVersion 1] at index length-1
    return the state as it was (same index, no request issued, no mode
    change); in range the move is the direct jump to the neighbour, so
    nothing wraps around and nothing is re-requested at the boundary. *)
Theorem C7_step_at_boundary_is_noop st rest :
  (timeTravelIndex st = 0%Z :: rest → stepVersion (-1) st = st) ∧
  (timeTravelIndex st = lastIndex st :: rest → stepVersion 1 st = st) ∧
  (∀ i delta, timeTravelIndex st = i :: rest →
     (¬ (0 ≤ i + delta < Z.of_nat (length (timestamps st)))%Z →
        stepVersion delta st = st) ∧
     ((0 ≤ i + delta < Z.of_nat (length (timestamps st)))%Z →
        stepVersion delta st = handleTimeTravelChange [(i + delta)%Z] st)).
Proof.
  split; [|split].
  - intros Hi. eapply stepVersion_out_of_range; [done|lia].
  - intros Hi. eapply stepVersion_out_of_range; [done|]. unfold lastIndex. lia.
  - intros i delta Hi. split; intros Hr.
    + eapply stepVersion_out_of_range; [done|lia].
    + by eapply stepVersion_in_range.
Qed.

(** A state with a three-version timeline, used to run the statements. *)
Lemma C7_witness :
  let st := set_timestamps [10; 20; 30]%Z (initial "doc") in
  let st' := set_timeTravelIndex [2%Z] st in
  stepVersion (-1) st = st ∧ stepVersion 1 st' = st' ∧
  stepVersion 1 st = handleTimeTravelChange [1%Z] st.
Proof.
  intros st st'.
  destruct (C7_step_at_boundary_is_noop st []) as (H1 & _ & H3).
  destruct (C7_step_at_boundary_is_noop st' []) as (_ & H2 & _).
  split; [apply H1; reflexivity|].
  split; [apply H2; reflexivity|].
  apply (H3 0%Z 1%Z); [reflexivity|simpl; lia].
Defined.

(** ** The statistics header *)

(** C8: for the statistics 4 patches, 40 delta bytes, 4000 uncompressed
    bytes and ratio 100.0, the average per patch is 10, shown through
    [formatBytes] as "10 B", and the ratio is shown as
    "100.0x compression". *)
Theorem C8_stats_display :
  let s := mkStats 4 40 4000 (100 # 1) in
  averageBytes s = Some 10%Z ∧
  averageBytes s ≫= formatBytes = Some "10 B" ∧
  statsHeader (Some s) =
    Some (mkHeader (Some "40 B") (Some "3.91 KB") (Some "100.0x compression")
            "4 patches" (Some "avg 10 B/patch")).
Proof. vm_compute. repeat split. Qed.

(** ** Edits while time travel is active *)

(** C6: while [isTimeTravel] is set the effect that watches the content
    does not call [handleContentChange]: an edit only replaces the
    content; no timer is created and [saveTimeout] is not touched. *)
Theorem C6_edit_ignored_in_time_travel st c :
  isTimeTravel st = true →
  contentEffect st = st ∧
  step (EEdit c) st = (if alive st then set_content (Some c) st else st) ∧
  timers (step (EEdit c) st) = timers st ∧
  saveTimeout (step (EEdit c) st) = saveTimeout st.
Proof.
  intros Htt.
  assert (Hce : ∀ s, isTimeTravel s = true → contentEffect s = s).
  { intros s Hs. unfold contentEffect. by rewrite Hs. }
  assert (Hst : step (EEdit c) st = if alive st then set_content (Some c) st else st).
  { simpl. destruct (alive st) eqn:Ha; [|done].
    unfold assignContent. rewrite Ha.
    case_bool_decide as Hc.
    - destruct st; simpl in *. by rewrite Hc.
    - by apply Hce. }
  split; [by apply Hce|]. split; [done|].
  rewrite Hst. by destruct (alive st).
Qed.

Lemma C6_witness :
  let st := set_isTimeTravel true (initial "doc") in
  contentEffect st = st ∧
  step (EEdit "x") st = (if alive st then set_content (Some "x") st else st) ∧
  timers (step (EEdit "x") st) = timers st ∧
  saveTimeout (step (EEdit "x") st) = saveTimeout st.
Proof.
  intros st. apply (C6_edit_ignored_in_time_travel st "x"). reflexivity.
Defined.

(** ** Preservation of the timer invariant *)

Open Scope list_scope.
Open Scope nat_scope.

Section InvCore.
Context {ts : list Timer} {nh : Handle} {sv kt ki : option Handle}
        {pd : gmap ReqId Cont}.
Hypothesis HI : InvCore ts nh sv kt ki pd.

Lemma kind_of_cb (t u : Timer) :
  cb t = cb u →
  isSave t = isSave u ∧ isHoldTimeout t = isHoldTimeout u ∧
  isHoldInterval t = isHoldInterval u.
Proof. unfold isSave, isHoldTimeout, isHoldInterval. by intros ->. Qed.

(** Timers may be dropped, re-armed or reordered as long as each one
    left keeps its handle and callback. *)
Lemma InvCore_sim ts' :
  NoDup (handle <$> ts') →
  (∀ t', t' ∈ ts' →
     ∃ t, t ∈ ts ∧ handle t' = handle t ∧ cb t' = cb t ∧ period t' = period t) →
  InvCore ts' nh sv kt ki pd.
Proof.
  intros Hnd Hsim. destruct HI as [_ Hn Hb Hs Ht Hi Ho Hp].
  constructor; [done|done|..].
  - intros t' Hin. destruct (Hsim _ Hin) as (t & Ht0 & -> & _). auto.
  - intros t' Hin Hk. destruct (Hsim _ Hin) as (t & Ht0 & -> & Hc & _).
    apply Hs; [done|]. by destruct (kind_of_cb _ _ Hc) as (<- & _).
  - intros t' Hin Hk. destruct (Hsim _ Hin) as (t & Ht0 & -> & Hc & _).
    destruct (kind_of_cb _ _ Hc) as (_ & Hk' & _). rewrite Hk' in Hk.
    destruct (Ht _ Ht0 Hk) as [-> Hno]. split; [done|].
    intros u' Hu'. destruct (Hsim _ Hu') as (u & Hu & _ & Hcu & _).
    destruct (kind_of_cb _ _ Hcu) as (_ & _ & ->). auto.
  - intros t' Hin Hk. destruct (Hsim _ Hin) as (t & Ht0 & -> & Hc & _).
    apply Hi; [done|]. by destruct (kind_of_cb _ _ Hc) as (_ & _ & <-).
  - intros t' Hin Hk. destruct (Hsim _ Hin) as (t & Ht0 & _ & Hc & ->).
    apply Ho; [done|]. by destruct (kind_of_cb _ _ Hc) as (_ & _ & <-).
  - intros id k Hid Hk. destruct (Hp _ _ Hid Hk) as (H1 & H2 & H3).
    split; [done|]. split; [|done].
    intros t' Hin. destruct (Hsim _ Hin) as (t & Ht0 & _ & Hc & _).
    destruct (kind_of_cb _ _ Hc) as (-> & _). auto.
Qed.

Lemma InvCore_filter (P : Timer → Prop) `{∀ t, Decision (P t)} :
  InvCore (filter P ts) nh sv kt ki pd.
Proof.
  apply InvCore_sim.
  - apply (sublist_NoDup _ (handle <$> ts)); [apply HI|].
    apply fmap_sublist, sublist_filter.
  - intros t' [_ Hin]%list_elem_of_filter. eauto 6.
Qed.

Lemma InvCore_insert_other id k :
  isSaveCont k = false → InvCore ts nh sv kt ki (<[id := k]> pd).
Proof.
  intros Hk. destruct HI as [Hnd Hn Hb Hs Ht Hi Ho Hp].
  constructor; try done.
  intros id0 k0 Hid0 Hk0.
  destruct (decide (id0 = id)) as [->|Hne].
  { rewrite lookup_insert_eq in Hid0. congruence. }
  rewrite lookup_insert_ne in Hid0 by done.
  destruct (Hp _ _ Hid0 Hk0) as (H1 & H2 & H3). split; [done|]. split; [done|].
  intros id' k' Hid' Hk'.
  destruct (decide (id' = id)) as [->|Hne'].
  { rewrite lookup_insert_eq in Hid'. congruence. }
  rewrite lookup_insert_ne in Hid' by done. eauto.
Qed.

Lemma InvCore_delete id : InvCore ts nh sv kt ki (delete id pd).
Proof.
  destruct HI as [Hnd Hn Hb Hs Ht Hi Ho Hp].
  constructor; try done.
  intros id0 k0 [Hne Hid0]%lookup_delete_Some Hk0.
  destruct (Hp _ _ Hid0 Hk0) as (H1 & H2 & H3). split; [done|]. split; [done|].
  intros id' k' [Hne' Hid']%lookup_delete_Some Hk'. eauto.
Qed.

Lemma no_save_pending_of_timer t :
  t ∈ ts → isSave t = true → ∀ id k, pd !! id = Some k → isSaveCont k = false.
Proof.
  intros Hin Hk id k Hid. destruct (isSaveCont k) eqn:E; [|done].
  destruct (inv_saving _ _ _ _ _ _ HI _ _ Hid E) as (_ & Hno & _).
  specialize (Hno _ Hin). congruence.
Qed.

(** The save timer has fired: a save starts. *)
Lemma InvCore_save_start id k :
  (∀ t, t ∈ ts → isSave t = false) → sv ≠ None →
  (∀ id k, pd !! id = Some k → isSaveCont k = false) →
  InvCore ts nh sv kt ki (<[id := k]> pd).
Proof.
  intros Hno Hsv Hnp. destruct HI as [Hnd Hn Hb Hs Ht Hi Ho Hp].
  constructor; try done.
  intros id0 k0 Hid0 Hk0. split; [done|]. split; [done|].
  assert (Hall : ∀ i j, <[id := k]> pd !! i = Some j → isSaveCont j = true → i = id).
  { intros i j Hi' Hj. destruct (decide (i = id)) as [|Hne]; [done|].
    rewrite lookup_insert_ne in Hi' by done.
    specialize (Hnp _ _ Hi'). congruence. }
  intros id' k' Hid' Hk'. rewrite (Hall _ _ Hid0 Hk0). eauto.
Qed.

(** A save moves on from one backend call to the next. *)
Lemma InvCore_save_next id k id' k' :
  pd !! id = Some k → isSaveCont k = true →
  InvCore ts nh sv kt ki (<[id' := k']> (delete id pd)).
Proof.
  intros Hid Hk. destruct HI as [Hnd Hn Hb Hs Ht Hi Ho Hp].
  destruct (Hp _ _ Hid Hk) as (H1 & H2 & H3).
  constructor; try done.
  assert (Hall : ∀ i j, <[id' := k']> (delete id pd) !! i = Some j →
                        isSaveCont j = true → i = id').
  { intros i j Hi' Hj. destruct (decide (i = id')) as [|Hne]; [done|].
    rewrite lookup_insert_ne in Hi' by done.
    apply lookup_delete_Some in Hi' as [Hne' Hi'].
    destruct Hne'. symmetry. eauto. }
  intros id0 k0 Hid0 Hk0. split; [done|]. split; [done|].
  intros i j Hi' Hj. rewrite (Hall _ _ Hid0 Hk0). eauto.
Qed.

(** A save ends (or dies on a rejection): the flag may be cleared. *)
Lemma InvCore_save_done id k sv' :
  pd !! id = Some k → isSaveCont k = true →
  InvCore ts nh sv' kt ki (delete id pd).
Proof.
  intros Hid Hk. destruct HI as [Hnd Hn Hb Hs Ht Hi Ho Hp].
  destruct (Hp _ _ Hid Hk) as (H1 & H2 & H3).
  constructor; try done.
  - intros t Hin Hsave. specialize (H2 _ Hin). congruence.
  - intros id0 k0 [Hne Hid0]%lookup_delete_Some Hk0.
    destruct Hne. symmetry. eauto.
Qed.

Lemma InvCore_set_save sv' :
  (∀ t, t ∈ ts → isSave t = false) →
  (∀ id k, pd !! id = Some k → isSaveCont k = false) →
  InvCore ts nh sv' kt ki pd.
Proof.
  intros Hno Hnp. destruct HI as [Hnd Hn Hb Hs Ht Hi Ho Hp].
  constructor; try done.
  - intros t Hin Hsave. specialize (Hno _ Hin). congruence.
  - intros id k Hid Hk. specialize (Hnp _ _ Hid). congruence.
Qed.

Lemma InvCore_set_timeout kt' :
  (∀ t, t ∈ ts → isHoldTimeout t = false) → InvCore ts nh sv kt' ki pd.
Proof.
  intros Hno. destruct HI as [Hnd Hn Hb Hs Ht Hi Ho Hp].
  constructor; try done.
  intros t Hin Hk. specialize (Hno _ Hin). congruence.
Qed.

Lemma InvCore_set_interval ki' :
  (∀ t, t ∈ ts → isHoldInterval t = false) → InvCore ts nh sv kt ki' pd.
Proof.
  intros Hno. destruct HI as [Hnd Hn Hb Hs Ht Hi Ho Hp].
  constructor; try done.
  intros t Hin Hk. specialize (Hno _ Hin). congruence.
Qed.

Lemma fresh_handle : nh ∉ handle <$> ts.
Proof.
  intros (t & Heq & Hin)%list_elem_of_fmap.
  pose proof (inv_bound _ _ _ _ _ _ HI _ Hin). lia.
Qed.

Lemma InvCore_add_nodup d p c :
  NoDup (handle <$> ts ++ [mkTimer nh d p c]).
Proof.
  rewrite fmap_app. apply NoDup_app. split; [apply HI|]. split.
  - intros h Hh Hh'. simpl in Hh'. apply list_elem_of_singleton in Hh'.
    subst. by apply fresh_handle.
  - simpl. apply NoDup_singleton.
Qed.

(** [setTimeout] of the save closure when no save is pending. *)
Lemma InvCore_add_save d :
  sv = None →
  InvCore (ts ++ [mkTimer nh d None SaveCb]) (S nh) (Some nh) kt ki pd.
Proof.
  intros Hsv. pose proof (InvCore_add_nodup d None SaveCb) as Hnd'.
  destruct HI as [Hnd Hn Hb Hs Ht Hi Ho Hp].
  assert (Hno : ∀ t, t ∈ ts → isSave t = false).
  { intros t Hin. destruct (isSave t) eqn:E; [|done].
    specialize (Hs _ Hin E). congruence. }
  constructor; [done|lia|..].
  - intros t [Hin| ->%list_elem_of_singleton]%elem_of_app; simpl; [|lia].
    specialize (Hb _ Hin). lia.
  - intros t [Hin| ->%list_elem_of_singleton]%elem_of_app Hk; [|done].
    specialize (Hno _ Hin). congruence.
  - intros t [Hin| ->%list_elem_of_singleton]%elem_of_app Hk; [|done].
    destruct (Ht _ Hin Hk) as [-> Hni]. split; [done|].
    intros u [Hu| ->%list_elem_of_singleton]%elem_of_app; [auto|done].
  - intros t [Hin| ->%list_elem_of_singleton]%elem_of_app Hk; [auto|done].
  - intros t [Hin| ->%list_elem_of_singleton]%elem_of_app Hk; [auto|done].
  - intros id k Hid Hk. destruct (Hp _ _ Hid Hk) as (H1 & _). congruence.
Qed.

(** [setTimeout] of the delay closure once both key timers are gone. *)
Lemma InvCore_add_timeout d dir :
  (∀ t, t ∈ ts → isHoldTimeout t = false) →
  (∀ t, t ∈ ts → isHoldInterval t = false) →
  InvCore (ts ++ [mkTimer nh d None (HoldTimeoutCb dir)]) (S nh) sv (Some nh) ki pd.
Proof.
  intros Hnt Hni. pose proof (InvCore_add_nodup d None (HoldTimeoutCb dir)) as Hnd'.
  destruct HI as [Hnd Hn Hb Hs Ht Hi Ho Hp].
  constructor; [done|lia|..].
  - intros t [Hin| ->%list_elem_of_singleton]%elem_of_app; simpl; [|lia].
    specialize (Hb _ Hin). lia.
  - intros t [Hin| ->%list_elem_of_singleton]%elem_of_app Hk; [auto|done].
  - intros t [Hin| ->%list_elem_of_singleton]%elem_of_app Hk.
    + specialize (Hnt _ Hin). congruence.
    + split; [done|].
      intros u [Hu| ->%list_elem_of_singleton]%elem_of_app; [auto|done].
  - intros t [Hin| ->%list_elem_of_singleton]%elem_of_app Hk; [|done].
    specialize (Hni _ Hin). congruence.
  - intros t [Hin| ->%list_elem_of_singleton]%elem_of_app Hk; [auto|done].
  - intros id k Hid Hk. destruct (Hp _ _ Hid Hk) as (H1 & H2 & H3).
    split; [done|]. split; [|done].
    intros t [Hin| ->%list_elem_of_singleton]%elem_of_app; [auto|done].
Qed.

(** [setInterval] of the repetition closure, from the delay closure. *)
Lemma InvCore_add_interval d p dir :
  (∀ t, t ∈ ts → isHoldTimeout t = false) →
  (∀ t, t ∈ ts → isHoldInterval t = false) →
  InvCore (ts ++ [mkTimer nh d p (HoldIntervalCb dir)]) (S nh) sv kt (Some nh) pd.
Proof.
  intros Hnt Hni. pose proof (InvCore_add_nodup d p (HoldIntervalCb dir)) as Hnd'.
  destruct HI as [Hnd Hn Hb Hs Ht Hi Ho Hp].
  constructor; [done|lia|..].
  - intros t [Hin| ->%list_elem_of_singleton]%elem_of_app; simpl; [|lia].
    specialize (Hb _ Hin). lia.
  - intros t [Hin| ->%list_elem_of_singleton]%elem_of_app Hk; [auto|done].
  - intros t [Hin| ->%list_elem_of_singleton]%elem_of_app Hk; [|done].
    specialize (Hnt _ Hin). congruence.
  - intros t [Hin| ->%list_elem_of_singleton]%elem_of_app Hk; [|done].
    specialize (Hni _ Hin). congruence.
  - intros t [Hin| ->%list_elem_of_singleton]%elem_of_app Hk; [auto|done].
  - intros id k Hid Hk. destruct (Hp _ _ Hid Hk) as (H1 & H2 & H3).
    split; [done|]. split; [|done].
    intros t [Hin| ->%list_elem_of_singleton]%elem_of_app; [auto|done].
Qed.
End InvCore.

Lemma Inv_invoke_other c k st :
  isSaveCont k = false → Inv st → Inv (invoke c k st).
Proof. intros Hk HI. unfold Inv, invoke. simpl. by apply InvCore_insert_other. Qed.

Lemma Inv_handleContentChange st : Inv st → Inv (handleContentChange st).
Proof.
  intros HI. unfold handleContentChange.
  destruct (saveTimeout st) eqn:Hsv; [done|].
  unfold Inv in *. simpl. rewrite Hsv in HI. by eapply InvCore_add_save.
Qed.

Lemma Inv_contentEffect st : Inv st → Inv (contentEffect st).
Proof.
  intros HI. unfold contentEffect.
  destruct (_ && _); [by apply Inv_handleContentChange|done].
Qed.

Lemma Inv_assignContent c st : Inv st → Inv (assignContent c st).
Proof.
  intros HI. unfold assignContent.
  case_bool_decide; [done|].
  destruct (alive st); [by apply Inv_contentEffect|done].
Qed.

Lemma Inv_handleTimeTravelChange v st : Inv st → Inv (handleTimeTravelChange v st).
Proof. intros HI. unfold handleTimeTravelChange. by apply Inv_invoke_other. Qed.

Lemma Inv_jumpToVersion i st : Inv st → Inv (jumpToVersion i st).
Proof.
  intros HI. unfold jumpToVersion.
  destruct (_ || _); [done|by apply Inv_handleTimeTravelChange].
Qed.

Lemma Inv_stepVersion d st : Inv st → Inv (stepVersion d st).
Proof.
  intros HI. unfold stepVersion.
  destruct (head _); [|done].
  destruct (_ && _); [by apply Inv_jumpToVersion|done].
Qed.

Lemma Inv_callStep d st : Inv st → Inv (callStep d st).
Proof. intros HI. unfold callStep. by apply Inv_stepVersion. Qed.

Lemma Inv_exitTimeTravel st : Inv st → Inv (exitTimeTravel st).
Proof.
  intros HI. unfold exitTimeTravel.
  destruct (_ && _); [by apply Inv_contentEffect|done].
Qed.

Lemma Inv_clearTimer h st : Inv st → Inv (clearTimer h st).
Proof. intros HI. unfold Inv, clearTimer. simpl. by apply InvCore_filter. Qed.

(** *** Clearing the key-repeat timers *)

Lemma clearHoldInterval_spec st :
  Inv st →
  Inv (clearHoldInterval st) ∧
  (∀ t, t ∈ timers (clearHoldInterval st) → isHoldInterval t = false) ∧
  (∀ t, t ∈ timers (clearHoldInterval st) → t ∈ timers st).
Proof.
  intros HI. unfold clearHoldInterval.
  assert (Hstale : ∀ h, keyHoldInterval st = Some h → truthy (Some h) = false →
                        ∀ t, t ∈ timers st → isHoldInterval t = false).
  { intros h Hh Htr t Hin. destruct (isHoldInterval t) eqn:E; [|done].
    pose proof (inv_interval _ _ _ _ _ _ HI _ Hin E) as Hki.
    pose proof (inv_bound _ _ _ _ _ _ HI _ Hin) as Hb.
    rewrite Hh in Hki. injection Hki as ->. simpl in Htr.
    destruct (handle t); [lia|done]. }
  destruct (keyHoldInterval st) as [h|] eqn:Hki.
  - destruct (truthy (Some h)) eqn:Htr.
    + assert (Hno : ∀ t, t ∈ timers (clearTimer h st) → isHoldInterval t = false).
      { intros t [Hne Hin]%list_elem_of_filter.
        destruct (isHoldInterval t) eqn:E; [|done].
        pose proof (inv_interval _ _ _ _ _ _ HI _ Hin E) as Hki'.
        rewrite Hki in Hki'. congruence. }
      split; [|split].
      * unfold Inv. simpl.
        eapply InvCore_set_interval; [apply (Inv_clearTimer h st HI)|done].
      * done.
      * intros t [_ Hin]%list_elem_of_filter. done.
    + split; [done|]. split; [|done]. by eapply Hstale.
  - split; [done|]. split; [|done].
    intros t Hin. destruct (isHoldInterval t) eqn:E; [|done].
    pose proof (inv_interval _ _ _ _ _ _ HI _ Hin E) as Hki'. congruence.
Qed.

Lemma clearHoldTimeout_spec st :
  Inv st →
  Inv (clearHoldTimeout st) ∧
  (∀ t, t ∈ timers (clearHoldTimeout st) → isHoldTimeout t = false) ∧
  (∀ t, t ∈ timers (clearHoldTimeout st) → t ∈ timers st).
Proof.
  intros HI. unfold clearHoldTimeout.
  assert (Hstale : ∀ h, keyHoldTimeout st = Some h → truthy (Some h) = false →
                        ∀ t, t ∈ timers st → isHoldTimeout t = false).
  { intros h Hh Htr t Hin. destruct (isHoldTimeout t) eqn:E; [|done].
    destruct (inv_timeout _ _ _ _ _ _ HI _ Hin E) as [Hkt _].
    pose proof (inv_bound _ _ _ _ _ _ HI _ Hin) as Hb.
    rewrite Hh in Hkt. injection Hkt as ->. simpl in Htr.
    destruct (handle t); [lia|done]. }
  destruct (keyHoldTimeout st) as [h|] eqn:Hkt.
  - destruct (truthy (Some h)) eqn:Htr.
    + assert (Hno : ∀ t, t ∈ timers (clearTimer h st) → isHoldTimeout t = false).
      { intros t [Hne Hin]%list_elem_of_filter.
        destruct (isHoldTimeout t) eqn:E; [|done].
        destruct (inv_timeout _ _ _ _ _ _ HI _ Hin E) as [Hkt' _].
        rewrite Hkt in Hkt'. congruence. }
      split; [|split].
      * unfold Inv. simpl.
        eapply InvCore_set_timeout; [apply (Inv_clearTimer h st HI)|done].
      * done.
      * intros t [_ Hin]%list_elem_of_filter. done.
    + split; [done|]. split; [|done]. by eapply Hstale.
  - split; [done|]. split; [|done].
    intros t Hin. destruct (isHoldTimeout t) eqn:E; [|done].
    destruct (inv_timeout _ _ _ _ _ _ HI _ Hin E) as [Hkt' _]. congruence.
Qed.

Lemma clearKeyHold_spec st :
  Inv st →
  Inv (clearKeyHold st) ∧
  (∀ t, t ∈ timers (clearKeyHold st) → isHoldTimeout t = false) ∧
  (∀ t, t ∈ timers (clearKeyHold st) → isHoldInterval t = false).
Proof.
  intros HI. unfold clearKeyHold.
  destruct (clearHoldInterval_spec st HI) as (HI1 & Hni & _).
  destruct (clearHoldTimeout_spec _ HI1) as (HI2 & Hnt & Hsub).
  split; [done|]. split; [done|]. intros t Hin. apply Hni, Hsub, Hin.
Qed.

Lemma filter_nil_iff {A} (P : A → Prop) `{∀ x, Decision (P x)} (l : list A) :
  filter P l = [] ↔ ∀ x, x ∈ l → ¬ P x.
Proof.
  split.
  - intros Hf x Hin HP. by eapply filter_nil_not_elem_of.
  - intros Hno. induction l as [|a l IH]; [done|].
    rewrite filter_cons. destruct (decide (P a)) as [HP|HP].
    + exfalso. eapply Hno; [|done]. left.
    + apply IH. intros x Hx. apply Hno. by right.
Qed.

Lemma holdTimeouts_nil st :
  holdTimeouts st = [] ↔ ∀ t, t ∈ timers st → isHoldTimeout t = false.
Proof.
  unfold holdTimeouts. rewrite filter_nil_iff. split; intros Hno t Hin.
  - destruct (isHoldTimeout t) eqn:E; [|done]. by destruct (Hno t Hin).
  - rewrite (Hno t Hin). done.
Qed.

Lemma holdIntervals_nil st :
  holdIntervals st = [] ↔ ∀ t, t ∈ timers st → isHoldInterval t = false.
Proof.
  unfold holdIntervals. rewrite filter_nil_iff. split; intros Hno t Hin.
  - destruct (isHoldInterval t) eqn:E; [|done]. by destruct (Hno t Hin).
  - rewrite (Hno t Hin). done.
Qed.

(** *** Navigation *)

Lemma navFrame_refl st : navFrame st st.
Proof. by repeat split. Qed.

Lemma navFrame_trans st1 st2 st3 : navFrame st1 st2 → navFrame st2 st3 → navFrame st1 st3.
Proof.
  unfold navFrame. intros H1 H2.
  destruct H1 as (?&?&?&?&?&?&?&?&?&?&?&?&?).
  destruct H2 as (?&?&?&?&?&?&?&?&?&?&?&?&?).
  repeat split; congruence.
Qed.

Lemma handleTimeTravelChange_frame v st : navFrame st (handleTimeTravelChange v st).
Proof. by repeat split. Qed.

Lemma jumpToVersion_frame i st : navFrame st (jumpToVersion i st).
Proof.
  unfold jumpToVersion. destruct (_ || _);
    [apply navFrame_refl|apply handleTimeTravelChange_frame].
Qed.

Lemma stepVersion_frame d st : navFrame st (stepVersion d st).
Proof.
  unfold stepVersion. destruct (head _); [|apply navFrame_refl].
  destruct (_ && _); [apply jumpToVersion_frame|apply navFrame_refl].
Qed.

Lemma callStep_frame d st : navFrame st (callStep d st).
Proof.
  unfold callStep. eapply navFrame_trans; [|apply stepVersion_frame].
  by repeat split.
Qed.

Lemma stepVersion_steps d st : steps (trace (stepVersion d st)) = steps (trace st).
Proof.
  unfold stepVersion, jumpToVersion. destruct (head _); [|done].
  destruct (_ && _); [|done]. by destruct (_ || _).
Qed.

Lemma callStep_steps d st :
  steps (trace (callStep d st)) = (now st, d) :: steps (trace st).
Proof. unfold callStep. by rewrite stepVersion_steps. Qed.

(** *** The key handlers, the popover effect and teardown *)

Lemma Inv_handleKeyDown key st : Inv st → Inv (handleKeyDown key st).
Proof.
  intros HI. unfold handleKeyDown.
  destruct (negb (isPopoverOpen st)); [done|].
  destruct (isArrow key); [|done].
  destruct (clearKeyHold_spec st HI) as (HI1 & Hnt & Hni).
  set (d := if bool_decide (key = "ArrowLeft") then (-1)%Z else 1%Z).
  pose proof (Inv_callStep d _ HI1) as HI2.
  destruct (callStep_frame d (clearKeyHold st)) as (Ht & _).
  unfold Inv. simpl.
  eapply InvCore_add_timeout; [exact HI2|..]; rewrite Ht; done.
Qed.

Lemma Inv_handleKeyUp key st : Inv st → Inv (handleKeyUp key st).
Proof.
  intros HI. unfold handleKeyUp.
  destruct (isArrow key); [|done]. by apply clearKeyHold_spec.
Qed.

Lemma Inv_popoverEffect st : Inv st → Inv (popoverEffect st).
Proof.
  intros HI. unfold popoverEffect.
  destruct (isPopoverOpen st); [done|]. by apply clearKeyHold_spec.
Qed.

Lemma Inv_if_clear (b : bool) h st :
  Inv st → Inv (if b then clearTimer h st else st).
Proof. intros HI. destruct b; [by apply Inv_clearTimer|done]. Qed.

Lemma Inv_onDestroy st : Inv st → Inv (onDestroy st).
Proof.
  intros HI. unfold onDestroy. cbv zeta.
  match goal with
  | |- Inv (set_alive false (set_listening false ?s)) => change (Inv s)
  end.
  by do 3 apply Inv_if_clear.
Qed.

(** *** Timers firing *)

Lemma findTimer_Some h ts t : findTimer h ts = Some t → t ∈ ts ∧ handle t = h.
Proof.
  unfold findTimer. intros Hh%head_Some_elem_of.
  apply list_elem_of_filter in Hh. tauto.
Qed.

Lemma findTimer_None h ts : findTimer h ts = None → ∀ t, t ∈ ts → handle t ≠ h.
Proof.
  unfold findTimer. intros Hh%head_None t Hin Heq.
  by eapply (filter_nil_not_elem_of _ _ t Hh).
Qed.

Lemma handle_inj ts (t u : Timer) :
  NoDup (handle <$> ts) → t ∈ ts → u ∈ ts → handle t = handle u → t = u.
Proof.
  induction ts as [|a ts IH]; intros Hnd Ht Hu Heq.
  { by apply elem_of_nil in Ht. }
  rewrite fmap_cons in Hnd. apply NoDup_cons in Hnd as [Hna Hnd].
  apply elem_of_cons in Ht as [->|Ht]; apply elem_of_cons in Hu as [->|Hu].
  - done.
  - destruct Hna. rewrite Heq. by apply list_elem_of_fmap_2.
  - destruct Hna. rewrite <- Heq. by apply list_elem_of_fmap_2.
  - by apply IH.
Qed.

Lemma findTimer_elem ts t :
  NoDup (handle <$> ts) → t ∈ ts → findTimer (handle t) ts = Some t.
Proof.
  intros Hnd Hin. destruct (findTimer (handle t) ts) as [u|] eqn:E.
  - apply findTimer_Some in E as [Hu Heq]. f_equal. by eapply handle_inj.
  - by destruct (findTimer_None _ _ E t Hin).
Qed.

(** The three ways [fire] can go. *)
Lemma fire_cases (P : State → Prop) h st :
  P st →
  (∀ t, t ∈ timers st → handle t = h → (due t ≤ now st)%nat → period t = None →
        P (runCallback (cb t) (clearTimer h st))) →
  (∀ t p, t ∈ timers st → handle t = h → (due t ≤ now st)%nat → period t = Some p →
        P (runCallback (cb t) (set_timers (rearm t p (timers st)) st))) →
  P (fire h st).
Proof.
  intros H0 H1 H2. unfold fire.
  destruct (findTimer h (timers st)) as [t|] eqn:E; [|done].
  apply findTimer_Some in E as [Hin Hh].
  destruct (due t <=? now st)%nat eqn:Hd; [|done].
  apply Nat.leb_le in Hd.
  destruct (period t) as [p|] eqn:Hp; [by eapply H2|by eapply H1].
Qed.

Lemma rearm_handles t p ts : handle <$> rearm t p ts = handle <$> ts.
Proof.
  unfold rearm. rewrite <- list_fmap_compose. apply list_fmap_ext.
  intros i u _. simpl. by case_bool_decide.
Qed.

Lemma rearm_elem t p ts u' :
  NoDup (handle <$> ts) → t ∈ ts → period t = Some p → u' ∈ rearm t p ts →
  ∃ u, u ∈ ts ∧ handle u' = handle u ∧ cb u' = cb u ∧ period u' = period u.
Proof.
  intros Hnd Ht Hp (u & -> & Hu)%list_elem_of_fmap.
  exists u. split; [done|]. case_bool_decide as Hh; [|done].
  assert (u = t) as -> by by eapply handle_inj. by simpl.
Qed.

Lemma Inv_rearm t p st :
  Inv st → t ∈ timers st → period t = Some p →
  Inv (set_timers (rearm t p (timers st)) st).
Proof.
  intros HI Ht Hp. unfold Inv. simpl. eapply InvCore_sim; [exact HI|..].
  - rewrite rearm_handles. apply HI.
  - intros u' Hu'. eapply rearm_elem; [apply HI|done..].
Qed.

Lemma Inv_fire h st : Inv st → Inv (fire h st).
Proof.
  intros HI. apply fire_cases; [done|..].
  - intros t Hin Hh Hd Hp.
    pose proof (Inv_clearTimer h st HI) as HI1.
    assert (Hrest : ∀ u, u ∈ timers (clearTimer h st) → u ∈ timers st ∧ handle u ≠ h).
    { intros u [? ?]%list_elem_of_filter. done. }
    destruct (cb t) eqn:Hc; simpl.
    + (* the save closure *)
      assert (Hs : isSave t = true) by (unfold isSave; by rewrite Hc).
      pose proof (inv_save _ _ _ _ _ _ HI _ Hin Hs) as Hsv.
      assert (Hno : ∀ u, u ∈ timers (clearTimer h st) → isSave u = false).
      { intros u [Hu Hne]%Hrest. destruct (isSave u) eqn:E; [|done].
        pose proof (inv_save _ _ _ _ _ _ HI _ Hu E). congruence. }
      pose proof (no_save_pending_of_timer HI t Hin Hs) as Hnp.
      unfold performSave. simpl. destruct (content st).
      * unfold Inv, invoke. simpl.
        eapply InvCore_save_start; [exact HI1|done|by rewrite Hsv|done].
      * unfold Inv. simpl. eapply InvCore_set_save; [exact HI1|done..].
    + (* the delay closure *)
      assert (Hk : isHoldTimeout t = true) by (unfold isHoldTimeout; by rewrite Hc).
      destruct (inv_timeout _ _ _ _ _ _ HI _ Hin Hk) as [Hkt Hni].
      unfold Inv. simpl. eapply InvCore_add_interval; [exact HI1|..].
      * intros u [Hu Hne]%Hrest. destruct (isHoldTimeout u) eqn:E; [|done].
        destruct (inv_timeout _ _ _ _ _ _ HI _ Hu E) as [Hkt' _]. congruence.
      * intros u [Hu Hne]%Hrest. auto.
    + by apply Inv_callStep.
  - intros t p Hin Hh Hd Hp.
    pose proof (Inv_rearm t p st HI Hin Hp) as HI1.
    assert (Hk : isHoldInterval t = true).
    { destruct (isHoldInterval t) eqn:E; [done|].
      pose proof (inv_oneshot _ _ _ _ _ _ HI _ Hin E). congruence. }
    unfold isHoldInterval in Hk. destruct (cb t) eqn:Hc; try done.
    by apply Inv_callStep.
Qed.

Lemma foldl_fire_preserves (P : State → Prop) hs st :
  (∀ h s, P s → P (fire h s)) → P st → P (foldl (λ s h, fire h s) st hs).
Proof.
  intros Hf. revert st. induction hs as [|h hs IH]; intros st HP; [done|].
  simpl. apply IH. by apply Hf.
Qed.

Lemma Inv_tick st : Inv st → Inv (tick st).
Proof. intros HI. unfold tick. apply foldl_fire_preserves; [apply Inv_fire|done]. Qed.

Lemma Inv_advance n st : Inv st → Inv (advance n st).
Proof.
  revert st. induction n as [|n IH]; intros st HI; [done|].
  simpl. by apply IH, Inv_tick.
Qed.

(** *** Replies, and every event *)

Lemma Inv_reply id r st : Inv st → Inv (step (EReply id r) st).
Proof.
  intros HI. simpl. destruct (pending st !! id) as [k|] eqn:Hk; [|done].
  assert (HId : Inv (log (OSettle (now st) id k r)
                       (set_pending (delete id (pending st)) st))).
  { unfold Inv. simpl. by apply InvCore_delete. }
  set (st0 := log _ _) in *.
  assert (Hnext : ∀ c k',
    isSaveCont k = true → Inv (invoke c k' st0)).
  { intros c k' Hs. unfold Inv, invoke. simpl. by eapply InvCore_save_next. }
  assert (Hts : ∀ ts, Inv st0 → Inv (set_timestamps ts st0)) by done.
  destruct k, r; cbn [resume]; cbv zeta;
    lazymatch goal with
    | |- Inv st0 => exact HId
    | |- Inv (invoke _ _ st0) => apply Hnext; reflexivity
    | |- Inv (set_timeTravelContent _ st0) => exact HId
    | _ => idtac
    end.
  - by apply Inv_invoke_other.
  - destruct (0 <? _)%nat; [by apply Inv_invoke_other|done].
  - change (Inv (assignContent s st0)). by apply Inv_assignContent.
  - unfold Inv, invoke. simpl. by eapply InvCore_save_next.
  - destruct (negb _);
      (change (Inv (set_saveTimeout None st0));
       unfold Inv; simpl; by eapply InvCore_save_done).
Qed.

Lemma Inv_step e st : Inv st → Inv (step e st).
Proof.
  intros HI. destruct e; try (by apply Inv_reply); simpl.
  - destruct (alive st); [by apply Inv_assignContent|done].
  - by destruct (alive st).
  - destruct (_ && _); [|done]. by apply Inv_popoverEffect.
  - destruct (navVisible st); [by apply Inv_handleTimeTravelChange|done].
  - destruct (navVisible st); [by apply Inv_jumpToVersion|done].
  - destruct (navVisible st); [by apply Inv_callStep|done].
  - destruct (navVisible st); [by apply Inv_callStep|done].
  - destruct (navVisible st); [by apply Inv_jumpToVersion|done].
  - destruct (_ && _); [by apply Inv_exitTimeTravel|done].
  - destruct (listening st); [by apply Inv_handleKeyDown|done].
  - destruct (listening st); [by apply Inv_handleKeyUp|done].
  - by apply Inv_tick.
  - destruct (alive st); [by apply Inv_onDestroy|done].
Qed.

Lemma Inv_mount doc : Inv (mount doc).
Proof.
  unfold mount. apply Inv_popoverEffect, Inv_contentEffect, Inv_invoke_other; [done|].
  constructor; simpl; try done; try (by intros t Hin%elem_of_nil).
  apply NoDup_nil_2.
Qed.

Lemma Inv_reachable doc st : reachable doc st → Inv st.
Proof. induction 1; [apply Inv_mount|by apply Inv_step]. Qed.

Lemma run_app es1 es2 st : run (es1 ++ es2) st = run es2 (run es1 st).
Proof. apply foldl_app. Qed.

Lemma run_reachable doc es : reachable doc (run es (mount doc)).
Proof.
  induction es as [|e es IH] using rev_ind; [constructor|].
  rewrite run_app. simpl. by constructor.
Qed.

Lemma Inv_run doc es : Inv (run es (mount doc)).
Proof. eapply Inv_reachable, run_reachable. Qed.

(** ** Key-repeat timers never stack *)

Lemma at_most_one (P : Timer → Prop) `{∀ t, Decision (P t)} ts h :
  NoDup (handle <$> ts) → (∀ t, t ∈ ts → P t → handle t = h) →
  length (filter P ts) ≤ 1.
Proof.
  intros Hnd Hh.
  assert (Hnd' : NoDup (handle <$> filter P ts)).
  { eapply sublist_NoDup; [exact Hnd|]. apply fmap_sublist, sublist_filter. }
  assert (Hall : ∀ t, t ∈ filter P ts → handle t = h).
  { intros t [HP Hin]%list_elem_of_filter. auto. }
  destruct (filter P ts) as [|a [|b l]]; simpl; [lia|lia|].
  exfalso. rewrite !fmap_cons in Hnd'. apply NoDup_cons in Hnd' as [Hna _].
  apply Hna. rewrite (Hall a), <- (Hall b); [left|right; left|left].
Qed.

Lemma Inv_hold_counts st :
  Inv st →
  length (holdIntervals st) ≤ 1 ∧ length (holdTimeouts st) ≤ 1 ∧
  (holdTimeouts st = [] ∨ holdIntervals st = []).
Proof.
  intros HI. split; [|split].
  - destruct (keyHoldInterval st) as [h|] eqn:Hki.
    + apply (at_most_one _ _ h); [apply HI|]. intros t Hin Hk.
      pose proof (inv_interval _ _ _ _ _ _ HI _ Hin Hk). congruence.
    + replace (holdIntervals st) with (@nil Timer); [simpl; lia|].
      symmetry. apply holdIntervals_nil. intros t Hin.
      destruct (isHoldInterval t) eqn:E; [|done].
      pose proof (inv_interval _ _ _ _ _ _ HI _ Hin E). congruence.
  - destruct (keyHoldTimeout st) as [h|] eqn:Hkt.
    + apply (at_most_one _ _ h); [apply HI|]. intros t Hin Hk.
      destruct (inv_timeout _ _ _ _ _ _ HI _ Hin Hk). congruence.
    + replace (holdTimeouts st) with (@nil Timer); [simpl; lia|].
      symmetry. apply holdTimeouts_nil. intros t Hin.
      destruct (isHoldTimeout t) eqn:E; [|done].
      destruct (inv_timeout _ _ _ _ _ _ HI _ Hin E). congruence.
  - destruct (holdTimeouts st) as [|t l] eqn:E; [by left|right].
    assert (Hin : t ∈ holdTimeouts st) by (rewrite E; left).
    apply list_elem_of_filter in Hin as [Hk Hin].
    apply holdIntervals_nil. by destruct (inv_timeout _ _ _ _ _ _ HI _ Hin Hk).
Qed.

Lemma clearKeyHold_no_hold st :
  Inv st → holdIntervals (clearKeyHold st) = [] ∧ holdTimeouts (clearKeyHold st) = [].
Proof.
  intros HI. destruct (clearKeyHold_spec st HI) as (_ & Hnt & Hni).
  split; [by apply holdIntervals_nil|by apply holdTimeouts_nil].
Qed.

Lemma handleKeyDown_timers key st :
  isPopoverOpen st = true → isArrow key = true →
  timers (handleKeyDown key st) =
    timers (clearKeyHold st)
      ++ [mkTimer (nextHandle (clearKeyHold st)) (now (clearKeyHold st) + 300) None
            (HoldTimeoutCb (direction key))].
Proof.
  intros Ho Ha. unfold handleKeyDown. rewrite Ho, Ha. simpl.
  set (d := if bool_decide (key = "ArrowLeft") then (-1)%Z else 1%Z).
  destruct (callStep_frame d (clearKeyHold st)) as (-> & -> & _ & _ & _ & -> & _).
  done.
Qed.

(** Case analysis on the two guarded clears of [clearKeyHold st]. *)
Ltac clearKeyHold_cases st :=
  unfold clearKeyHold, clearHoldTimeout, clearHoldInterval;
  let h := fresh "h" in
  destruct (keyHoldInterval st) as [h|]; [destruct (truthy (Some h))|];
  match goal with
  | |- context [keyHoldTimeout ?s] =>
      let h' := fresh "h" in
      destruct (keyHoldTimeout s) as [h'|]; [destruct (truthy (Some h'))|]
  end.

Lemma clearKeyHold_now st : now (clearKeyHold st) = now st.
Proof.
  clearKeyHold_cases st; done.
Qed.

Lemma handleKeyDown_hold key st :
  Inv st → isPopoverOpen st = true → isArrow key = true →
  holdIntervals (handleKeyDown key st) = [] ∧
  holdTimeouts (handleKeyDown key st) =
    [mkTimer (nextHandle (clearKeyHold st)) (now st + 300) None
       (HoldTimeoutCb (direction key))].
Proof.
  intros HI Ho Ha. destruct (clearKeyHold_no_hold st HI) as [Hi Ht].
  unfold holdIntervals, holdTimeouts in *.
  rewrite (handleKeyDown_timers key st Ho Ha), !filter_app, Hi, Ht.
  rewrite clearKeyHold_now. done.
Qed.

Lemma elem_if_clear (b : bool) h st t :
  t ∈ timers (if b then clearTimer h st else st) ↔
  (b = true → handle t ≠ h) ∧ t ∈ timers st.
Proof.
  destruct b; simpl; [rewrite list_elem_of_filter|]; intuition congruence.
Qed.

Lemma vars_if_clear (b : bool) h st :
  keyHoldInterval (if b then clearTimer h st else st) = keyHoldInterval st ∧
  keyHoldTimeout (if b then clearTimer h st else st) = keyHoldTimeout st.
Proof. by destruct b. Qed.

Lemma onDestroy_timers st t :
  t ∈ timers (onDestroy st) →
  t ∈ timers st ∧
  (truthy (keyHoldInterval st) = true → keyHoldInterval st ≠ Some (handle t)) ∧
  (truthy (keyHoldTimeout st) = true → keyHoldTimeout st ≠ Some (handle t)).
Proof.
  unfold onDestroy. cbv zeta.
  set (st1 := if truthy (saveTimeout st) then clearTimer _ st else st).
  set (st2 := if truthy (keyHoldInterval st1) then clearTimer _ st1 else st1).
  intros Hin.
  change (t ∈ timers (if truthy (keyHoldTimeout st2)
                      then clearTimer (default 0 (keyHoldTimeout st2)) st2
                      else st2)) in Hin.
  revert Hin.
  destruct (vars_if_clear (truthy (saveTimeout st)) (default 0 (saveTimeout st)) st)
    as [Hi1 Ht1]. fold st1 in Hi1, Ht1.
  destruct (vars_if_clear (truthy (keyHoldInterval st1))
              (default 0 (keyHoldInterval st1)) st1) as [Hi2 Ht2].
  fold st2 in Hi2, Ht2.
  rewrite elem_if_clear, Ht2, Ht1. clear Hi2 Ht2.
  unfold st2. rewrite elem_if_clear, Hi1. clear Hi1 Ht1.
  unfold st1. rewrite elem_if_clear.
  intros (H3 & H2 & _ & Hin).
  split; [done|]. split; intros Htr Heq.
  - apply (H2 Htr). by rewrite Heq.
  - apply (H3 Htr). by rewrite Heq.
Qed.

Lemma truthy_bound (v : option Handle) h : v = Some h → (1 ≤ h)%nat → truthy v = true.
Proof. intros -> Hh. simpl. destruct h; [lia|done]. Qed.

Lemma onDestroy_no_hold st :
  Inv st → holdIntervals (onDestroy st) = [] ∧ holdTimeouts (onDestroy st) = [].
Proof.
  intros HI. split.
  - apply holdIntervals_nil. intros t (Hin & Hi & _)%onDestroy_timers.
    destruct (isHoldInterval t) eqn:E; [|done].
    pose proof (inv_interval _ _ _ _ _ _ HI _ Hin E) as Hki.
    pose proof (inv_bound _ _ _ _ _ _ HI _ Hin) as Hb.
    destruct Hi; [|done]. eapply truthy_bound; [done|lia].
  - apply holdTimeouts_nil. intros t (Hin & _ & Ht)%onDestroy_timers.
    destruct (isHoldTimeout t) eqn:E; [|done].
    destruct (inv_timeout _ _ _ _ _ _ HI _ Hin E) as [Hkt _].
    pose proof (inv_bound _ _ _ _ _ _ HI _ Hin) as Hb.
    destruct Ht; [|done]. eapply truthy_bound; [done|lia].
Qed.

(** C10: in every state the page reaches, at most one repetition interval
    and at most one delay timer are armed (and never both): an arrow
    key-down clears both before it arms a single new delay timer, whatever
    the direction; closing the popover and destroying the component clear
    both. *)
Theorem C10_key_repeat_timers_never_stack doc es :
  let st := run es (mount doc) in
  (length (holdIntervals st) ≤ 1 ∧ length (holdTimeouts st) ≤ 1 ∧
   (holdTimeouts st = [] ∨ holdIntervals st = [])) ∧
  (∀ key, isPopoverOpen st = true → isArrow key = true →
     (holdIntervals (clearKeyHold st) = [] ∧ holdTimeouts (clearKeyHold st) = []) ∧
     holdIntervals (handleKeyDown key st) = [] ∧
     holdTimeouts (handleKeyDown key st) =
       [mkTimer (nextHandle (clearKeyHold st)) (now st + 300) None
          (HoldTimeoutCb (direction key))]) ∧
  (holdIntervals (popoverEffect (set_isPopoverOpen false st)) = [] ∧
   holdTimeouts (popoverEffect (set_isPopoverOpen false st)) = []) ∧
  (holdIntervals (onDestroy st) = [] ∧ holdTimeouts (onDestroy st) = []).
Proof.
  intros st. pose proof (Inv_run doc es : Inv st) as HI.
  split; [by apply Inv_hold_counts|]. split; [|split].
  - intros key Ho Ha. split; [by apply clearKeyHold_no_hold|].
    by apply handleKeyDown_hold.
  - unfold popoverEffect. simpl.
    apply (clearKeyHold_no_hold (set_listening false (set_isPopoverOpen false st))).
    exact HI.
  - by apply onDestroy_no_hold.
Qed.

Lemma C10_witness :
  let st := run [EReply 0 (RTimestamps [10; 20]%Z); EPopover true;
                 EKeyDown "ArrowLeft"] (mount "doc") in
  length (holdTimeouts st) = 1 ∧ isPopoverOpen st = true ∧
  holdIntervals (handleKeyDown "ArrowRight" st) = [] ∧
  length (holdTimeouts (handleKeyDown "ArrowRight" st)) = 1.
Proof.
  intros st.
  destruct (C10_key_repeat_timers_never_stack "doc"
              [EReply 0 (RTimestamps [10; 20]%Z); EPopover true;
               EKeyDown "ArrowLeft"]) as (_ & Hk & _).
  destruct (Hk "ArrowRight") as (_ & Hi & Ht); [reflexivity|reflexivity|].
  fold st in Hi, Ht.
  split; [reflexivity|]. split; [reflexivity|]. split; [exact Hi|].
  rewrite Ht. reflexivity.
Defined.

(** ** Key repeat *)

Lemma filter_filter_drop {A} (P Q : A → Prop)
    `{∀ x, Decision (P x)} `{∀ x, Decision (Q x)} (l : list A) :
  (∀ x, x ∈ l → P x → Q x) → filter P (filter Q l) = filter P l.
Proof.
  intros HPQ. induction l as [|a l IH]; [done|].
  assert (IH' : filter P (filter Q l) = filter P l).
  { apply IH. intros x Hx. apply HPQ. by right. }
  rewrite (filter_cons Q). destruct (decide (Q a)) as [Ha|Ha].
  - by rewrite !filter_cons, IH'.
  - rewrite IH', filter_cons. rewrite decide_False; [done|].
    intros HP. apply Ha, HPQ; [left|done].
Qed.

Lemma clearTimer_keeps (P : Timer → Prop) `{∀ t, Decision (P t)} h st :
  (∀ u, u ∈ timers st → P u → handle u ≠ h) →
  filter P (timers (clearTimer h st)) = filter P (timers st).
Proof. intros Hne. simpl. by apply filter_filter_drop. Qed.

Lemma rearm_keeps (P : Timer → Prop) `{∀ t, Decision (P t)} t p ts :
  (∀ u, u ∈ ts → P u → handle u ≠ handle t) →
  ¬ P (mkTimer (handle t) (due t + p) (Some p) (cb t)) →
  filter P (rearm t p ts) = filter P ts.
Proof.
  intros Hne HnP. unfold rearm.
  induction ts as [|a ts IH]; [done|].
  rewrite fmap_cons, !filter_cons.
  rewrite IH by (intros u Hu; apply Hne; by right).
  case_bool_decide as Hb; [|done].
  rewrite decide_False by done.
  rewrite decide_False; [done|]. intros HPa. apply (Hne a); [left|done|done].
Qed.

(** Firing anything but a due key timer leaves key repeat as it was. *)
Lemma fire_hold_frame h st :
  Inv st →
  (∀ t, t ∈ timers st → handle t = h →
        (isHoldTimeout t = false ∧ isHoldInterval t = false) ∨ now st < due t) →
  holdView (fire h st) = holdView st.
Proof.
  intros HI Hh. apply fire_cases; [done|..].
  - intros t Hin Heq Hd Hp.
    destruct (Hh t Hin Heq) as [[Hnt Hni]|Hlt]; [|lia].
    assert (Hc : cb t = SaveCb).
    { unfold isHoldTimeout, isHoldInterval in *. by destruct (cb t). }
    assert (Hkeep : ∀ (P : Timer → Prop) `{∀ t, Decision (P t)},
              ¬ P t → filter P (timers (clearTimer h st)) = filter P (timers st)).
    { intros P ? HnP. apply clearTimer_keeps. intros u Hu HP Hhu.
      apply HnP. replace t with u; [done|].
      eapply handle_inj; [apply HI|done..|congruence]. }
    rewrite Hc. simpl. unfold performSave, holdView, holdTimeouts, holdIntervals.
    simpl content. destruct (content st); simpl;
      (rewrite !Hkeep by (rewrite ?Hnt, ?Hni; done)); done.
  - intros t p Hin Heq Hd Hp.
    destruct (Hh t Hin Heq) as [[Hnt Hni]|Hlt]; [|lia].
    pose proof (inv_oneshot _ _ _ _ _ _ HI _ Hin Hni). congruence.
Qed.

(** Firing anything but a due save timer leaves autosave as it was. *)
Lemma fire_save_frame h st :
  Inv st →
  (∀ t, t ∈ timers st → handle t = h → isSave t = false ∨ now st < due t) →
  saveView (fire h st) = saveView st.
Proof.
  intros HI Hh. apply fire_cases; [done|..].
  - intros t Hin Heq Hd Hp.
    destruct (Hh t Hin Heq) as [Hns|Hlt]; [|lia].
    assert (Hkeep : filter (λ u, isSave u = true) (timers (clearTimer h st))
                    = filter (λ u, isSave u = true) (timers st)).
    { apply clearTimer_keeps. intros u Hu HP Hhu.
      assert (u = t) as -> by (eapply handle_inj; [apply HI|done..|congruence]).
      congruence. }
    unfold isSave in Hns. destruct (cb t) eqn:Hc; [done|..]; simpl.
    + unfold saveView, saveTimers. simpl. rewrite filter_app.
      change (filter _ (filter _ (timers st)))
        with (filter (λ u, isSave u = true) (timers (clearTimer h st))).
      rewrite Hkeep. simpl. by rewrite app_nil_r.
    + destruct (callStep_frame direction0 (clearTimer h st))
        as (Ht & _ & Hsv & _ & _ & Hnow & Hcon & _ & _ & Hal & _ & _ & Hpa).
      unfold saveView, saveTimers. rewrite Ht, Hsv, Hnow, Hcon, Hpa, Hal, Hkeep. done.
  - intros t p Hin Heq Hd Hp.
    destruct (Hh t Hin Heq) as [Hns|Hlt]; [|lia].
    assert (Hkeep : filter (λ u, isSave u = true) (rearm t p (timers st))
                    = filter (λ u, isSave u = true) (timers st)).
    { apply rearm_keeps.
      - intros u Hu HP Hhu.
        assert (u = t) as -> by (eapply handle_inj; [apply HI|done..]).
        congruence.
      - unfold isSave in *. simpl. congruence. }
    set (st1 := set_timers (rearm t p (timers st)) st).
    destruct (cb t) eqn:Hc; simpl.
    + unfold isSave in Hns. by rewrite Hc in Hns.
    + assert (Hk : isHoldInterval t = false) by (unfold isHoldInterval; by rewrite Hc).
      pose proof (inv_oneshot _ _ _ _ _ _ HI _ Hin Hk). congruence.
    + destruct (callStep_frame direction0 st1)
        as (Ht & _ & Hsv & _ & _ & Hnow & Hcon & _ & _ & Hal & _ & _ & Hpa).
      unfold saveView, saveTimers. rewrite Ht, Hsv, Hnow, Hcon, Hpa, Hal.
      unfold st1. simpl. by rewrite Hkeep.
Qed.

Lemma fire_due t st :
  Inv st → t ∈ timers st → due t ≤ now st →
  fire (handle t) st =
    runCallback (cb t)
      (match period t with
       | None => clearTimer (handle t) st
       | Some p => set_timers (rearm t p (timers st)) st
       end).
Proof.
  intros HI Hin Hd. unfold fire.
  rewrite findTimer_elem; [|apply HI|done].
  apply Nat.leb_le in Hd. by rewrite Hd.
Qed.

Lemma unique_in_filter (P : Timer → Prop) `{∀ t, Decision (P t)} ts t :
  NoDup (handle <$> ts) → (∀ u, u ∈ ts → P u → handle u = handle t) →
  t ∈ ts → P t → filter P ts = [t].
Proof.
  intros Hnd Hall Hin HP.
  pose proof (at_most_one P ts (handle t) Hnd Hall) as Hlen.
  assert (Ht : t ∈ filter P ts) by by apply list_elem_of_filter.
  destruct (filter P ts) as [|a [|b l]]; simpl in Hlen; [|by apply list_elem_of_singleton in Ht as ->|lia].
  by apply elem_of_nil in Ht.
Qed.

Lemma holdIntervals_unique st t :
  Inv st → t ∈ timers st → isHoldInterval t = true →
  holdIntervals st = [t] ∧ holdTimeouts st = [].
Proof.
  intros HI Hin Hk. split.
  - apply unique_in_filter; [apply HI| |done..]. intros u Hu Hku.
    pose proof (inv_interval _ _ _ _ _ _ HI _ Hin Hk).
    pose proof (inv_interval _ _ _ _ _ _ HI _ Hu Hku). congruence.
  - destruct (Inv_hold_counts st HI) as (_ & _ & [Hn|Hn]); [done|].
    exfalso. eapply (filter_nil_not_elem_of _ _ t Hn); done.
Qed.

Lemma holdTimeouts_unique st t :
  Inv st → t ∈ timers st → isHoldTimeout t = true →
  holdTimeouts st = [t] ∧ holdIntervals st = [].
Proof.
  intros HI Hin Hk. split.
  - apply unique_in_filter; [apply HI| |done..]. intros u Hu Hku.
    destruct (inv_timeout _ _ _ _ _ _ HI _ Hin Hk).
    destruct (inv_timeout _ _ _ _ _ _ HI _ Hu Hku). congruence.
  - apply holdIntervals_nil. by destruct (inv_timeout _ _ _ _ _ _ HI _ Hin Hk).
Qed.

(** The delay timer fires: the repetition interval is armed. *)
Lemma fire_timeout t d st :
  Inv st → t ∈ timers st → cb t = HoldTimeoutCb d → due t ≤ now st →
  holdView (fire (handle t) st) =
    ([], [mkTimer (nextHandle st) (now st + 50) (Some 50) (HoldIntervalCb d)],
     steps (trace st), now st).
Proof.
  intros HI Hin Hc Hd.
  pose proof (Inv_fire (handle t) st HI) as HI'.
  assert (Hk : isHoldInterval t = false) by (unfold isHoldInterval; by rewrite Hc).
  pose proof (inv_oneshot _ _ _ _ _ _ HI _ Hin Hk) as Hp.
  rewrite (fire_due t st HI Hin Hd), Hc, Hp in *. simpl in *.
  set (new := mkTimer (nextHandle st) (now st + 50) (Some 50) (HoldIntervalCb d)).
  set (st' := set_keyHoldInterval _ _) in *.
  destruct (holdIntervals_unique st' new HI') as [Hi Ht]; [|done|].
  { simpl. apply elem_of_app. right. left. }
  unfold holdView. by rewrite Hi, Ht.
Qed.

(** The repetition interval fires: one step, and it is due again. *)
Lemma fire_interval t d p st :
  Inv st → t ∈ timers st → cb t = HoldIntervalCb d → period t = Some p →
  due t ≤ now st →
  holdView (fire (handle t) st) =
    ([], [mkTimer (handle t) (due t + p) (Some p) (HoldIntervalCb d)],
     (now st, d) :: steps (trace st), now st).
Proof.
  intros HI Hin Hc Hp Hd.
  pose proof (Inv_rearm t p st HI Hin Hp) as HI1.
  rewrite (fire_due t st HI Hin Hd), Hc, Hp. simpl.
  set (st1 := set_timers (rearm t p (timers st)) st) in *.
  set (new := mkTimer (handle t) (due t + p) (Some p) (HoldIntervalCb d)).
  destruct (holdIntervals_unique st1 new HI1) as [Hi Ht]; [|done|].
  { simpl. unfold rearm. apply list_elem_of_fmap. exists t. split; [|done].
    rewrite bool_decide_true by done. unfold new. by rewrite Hc. }
  destruct (callStep_frame d st1) as (Htm & _ & _ & _ & _ & Hnow & _).
  unfold holdView, holdTimeouts, holdIntervals in *.
  rewrite Htm, Hnow, callStep_steps, Hi, Ht. done.
Qed.

(** One due timer among those of a tick: [B] holds until it fires, [A]
    from then on. *)
Lemma foldl_fire_once (B A : State → Prop) h0 hs st :
  h0 ∈ hs →
  (∀ h s, h ≠ h0 → B s → B (fire h s)) →
  (∀ s, B s → A (fire h0 s)) →
  (∀ h s, A s → A (fire h s)) →
  B st → A (foldl (λ s h, fire h s) st hs).
Proof.
  intros Hin HB HBA HA. revert st.
  induction hs as [|h hs IH]; intros st Hst; [by apply elem_of_nil in Hin|].
  simpl. destruct (decide (h = h0)) as [->|Hne].
  - apply foldl_fire_preserves; [done|]. by apply HBA.
  - apply IH; [|by apply HB].
    apply elem_of_cons in Hin as [?|?]; [congruence|done].
Qed.

Lemma due_handle st t :
  t ∈ timers st → due t ≤ S (now st) → handle t ∈ dueHandles (set_now (S (now st)) st).
Proof.
  intros Hin Hd. unfold dueHandles. apply list_elem_of_fmap_2.
  apply list_elem_of_filter. done.
Qed.

Lemma hold_elem st t :
  t ∈ timers st → isHoldTimeout t = true ∨ isHoldInterval t = true →
  t ∈ holdTimeouts st ++ holdIntervals st.
Proof.
  intros Hin [Hk|Hk]; apply elem_of_app; [left|right];
    by apply list_elem_of_filter.
Qed.

Lemma not_hold_cases t :
  (isHoldTimeout t = false ∧ isHoldInterval t = false) ∨
  (isHoldTimeout t = true ∨ isHoldInterval t = true).
Proof. destruct (isHoldTimeout t), (isHoldInterval t); tauto. Qed.

(** A tick during which no key timer is due. *)
Lemma tick_hold_wait st :
  Inv st →
  (∀ t, t ∈ holdTimeouts st ++ holdIntervals st → S (now st) < due t) →
  holdView (tick st) =
    (holdTimeouts st, holdIntervals st, steps (trace st), S (now st)).
Proof.
  intros HI Hw. unfold tick.
  set (V := (holdTimeouts st, holdIntervals st, steps (trace st), S (now st))).
  apply (foldl_fire_preserves (λ s, Inv s ∧ holdView s = V)); [|done].
  intros h s [HIs Hv]. split; [by apply Inv_fire|].
  rewrite fire_hold_frame; [done..|].
  intros t Hin Hh. destruct (not_hold_cases t) as [?|Hk]; [by left|right].
  apply (hold_elem s t Hin) in Hk.
  unfold holdView, V in Hv. injection Hv as Ht Hi _ Hn.
  rewrite Ht, Hi in Hk. rewrite Hn. by apply Hw.
Qed.

(** The tick at which the delay timer is due. *)
Lemma tick_hold_timeout st t d :
  Inv st → t ∈ timers st → cb t = HoldTimeoutCb d → due t = S (now st) →
  ∃ h, holdView (tick st) =
    ([], [mkTimer h (S (now st) + 50) (Some 50) (HoldIntervalCb d)],
     steps (trace st), S (now st)).
Proof.
  intros HI Hin Hc Hd. unfold tick.
  assert (Hk : isHoldTimeout t = true) by (unfold isHoldTimeout; by rewrite Hc).
  set (N := S (now st)). set (X := steps (trace st)).
  apply (foldl_fire_once
    (λ s, Inv s ∧ t ∈ timers s ∧ now s = N ∧ steps (trace s) = X)
    (λ s, Inv s ∧ ∃ h, holdView s =
       ([], [mkTimer h (N + 50) (Some 50) (HoldIntervalCb d)], X, N))
    (handle t)).
  - apply due_handle; [done|lia].
  - intros h s Hne (HIs & Hts & Hn & Hz).
    destruct (holdTimeouts_unique s t HIs Hts Hk) as [Ht Hi].
    assert (Hv : holdView (fire h s) = holdView s).
    { apply fire_hold_frame; [done|].
      intros u Hu Hh. destruct (not_hold_cases u) as [?|Hku]; [by left|].
      apply (hold_elem s u Hu) in Hku. rewrite Ht, Hi in Hku. simpl in Hku.
      apply list_elem_of_singleton in Hku. congruence. }
    unfold holdView in Hv. injection Hv as Ht' _ Hz' Hn'.
    split; [by apply Inv_fire|]. split; [|split; congruence].
    assert (Hin' : t ∈ holdTimeouts (fire h s)) by (rewrite Ht', Ht; left).
    by apply list_elem_of_filter in Hin' as [_ ?].
  - intros s (HIs & Hts & Hn & Hz). split; [by apply Inv_fire|].
    exists (nextHandle s). rewrite (fire_timeout t d s); [|done..|lia].
    by rewrite Hn, Hz.
  - intros h s (HIs & h' & Hv). split; [by apply Inv_fire|]. exists h'.
    rewrite fire_hold_frame; [done..|].
    intros u Hu Hh. destruct (not_hold_cases u) as [?|Hku]; [by left|right].
    apply (hold_elem s u Hu) in Hku.
    unfold holdView in Hv. injection Hv as Ht Hi _ Hn.
    rewrite Ht, Hi in Hku. simpl in Hku. apply list_elem_of_singleton in Hku.
    subst u. simpl. lia.
  - done.
Qed.

(** The tick at which the repetition interval is due. *)
Lemma tick_hold_interval st t d p :
  Inv st → t ∈ timers st → cb t = HoldIntervalCb d → period t = Some p →
  0 < p → due t = S (now st) →
  holdView (tick st) =
    ([], [mkTimer (handle t) (due t + p) (Some p) (HoldIntervalCb d)],
     (S (now st), d) :: steps (trace st), S (now st)).
Proof.
  intros HI Hin Hc Hp Hpos Hd. unfold tick.
  assert (Hk : isHoldInterval t = true) by (unfold isHoldInterval; by rewrite Hc).
  set (N := S (now st)). set (X := steps (trace st)).
  set (V := ([], [mkTimer (handle t) (due t + p) (Some p) (HoldIntervalCb d)],
             (N, d) :: X, N) : list Timer * list Timer * list (nat * Z) * nat).
  apply (foldl_fire_once
    (λ s, Inv s ∧ t ∈ timers s ∧ now s = N ∧ steps (trace s) = X)
    (λ s, Inv s ∧ holdView s = V) (handle t)).
  - apply due_handle; [done|lia].
  - intros h s Hne (HIs & Hts & Hn & Hz).
    destruct (holdIntervals_unique s t HIs Hts Hk) as [Hi Ht].
    assert (Hv : holdView (fire h s) = holdView s).
    { apply fire_hold_frame; [done|].
      intros u Hu Hh. destruct (not_hold_cases u) as [?|Hku]; [by left|].
      apply (hold_elem s u Hu) in Hku. rewrite Ht, Hi in Hku. simpl in Hku.
      apply list_elem_of_singleton in Hku. congruence. }
    unfold holdView in Hv. injection Hv as _ Hi' Hz' Hn'.
    split; [by apply Inv_fire|]. split; [|split; congruence].
    assert (Hin' : t ∈ holdIntervals (fire h s)) by (rewrite Hi', Hi; left).
    by apply list_elem_of_filter in Hin' as [_ ?].
  - intros s (HIs & Hts & Hn & Hz). split; [by apply Inv_fire|].
    rewrite (fire_interval t d p s); [|done..|lia].
    unfold V. by rewrite Hn, Hz.
  - intros h s (HIs & Hv). split; [by apply Inv_fire|].
    rewrite fire_hold_frame; [done..|].
    intros u Hu Hh. destruct (not_hold_cases u) as [?|Hku]; [by left|right].
    apply (hold_elem s u Hu) in Hku.
    unfold holdView, V in Hv. injection Hv as Ht Hi _ Hn.
    rewrite Ht, Hi in Hku. simpl in Hku. apply list_elem_of_singleton in Hku.
    subst u. simpl. lia.
  - done.
Qed.

Lemma advance_add a b st : advance (a + b) st = advance b (advance a st).
Proof. revert st. induction a as [|a IH]; intros st; [done|]. simpl. apply IH. Qed.

Lemma holdView_inv st a b c d :
  holdView st = (a, b, c, d) →
  holdTimeouts st = a ∧ holdIntervals st = b ∧ steps (trace st) = c ∧ now st = d.
Proof. unfold holdView. intros [= ? ? ? ?]. done. Qed.

Lemma advance_hold_wait n st :
  Inv st →
  (∀ t, t ∈ holdTimeouts st ++ holdIntervals st → now st + n < due t) →
  holdView (advance n st) =
    (holdTimeouts st, holdIntervals st, steps (trace st), now st + n).
Proof.
  revert st. induction n as [|n IH]; intros st HI Hw.
  { simpl. unfold holdView. by rewrite Nat.add_0_r. }
  simpl.
  destruct (holdView_inv _ _ _ _ _ (tick_hold_wait st HI
              (λ t Ht, ltac:(specialize (Hw t Ht); lia)))) as (Ht & Hi & Hs & Hn).
  rewrite IH; [|by apply Inv_tick|].
  - rewrite Ht, Hi, Hs, Hn. f_equal. lia.
  - rewrite Ht, Hi, Hn. intros t Hin. specialize (Hw t Hin). lia.
Qed.

(** With no key timer armed, time alone takes no step. *)
Lemma advance_hold_idle n st :
  Inv st → holdTimeouts st = [] → holdIntervals st = [] →
  steps (trace (advance n st)) = steps (trace st).
Proof.
  intros HI Ht Hi.
  destruct (holdView_inv _ _ _ _ _ (advance_hold_wait n st HI
    ltac:(rewrite Ht, Hi; by intros t ?%elem_of_nil))) as (_ & _ & Hs & _).
  done.
Qed.

(** A running repetition interval: one step per 50 ms. *)
Lemma holdIntervals_elem st t : holdIntervals st = [t] → t ∈ timers st.
Proof.
  intros Hi. assert (Hin : t ∈ holdIntervals st).
  { rewrite Hi. apply list_elem_of_singleton. reflexivity. }
  apply list_elem_of_filter in Hin. tauto.
Qed.

Lemma holdTimeouts_elem st t : holdTimeouts st = [t] → t ∈ timers st.
Proof.
  intros Hi. assert (Hin : t ∈ holdTimeouts st).
  { rewrite Hi. apply list_elem_of_singleton. reflexivity. }
  apply list_elem_of_filter in Hin. tauto.
Qed.

Lemma advance_1 st : advance 1 st = tick st.
Proof. done. Qed.

Lemma advance_interval k st h d :
  Inv st → holdTimeouts st = [] →
  holdIntervals st = [mkTimer h (now st + 50) (Some 50) (HoldIntervalCb d)] →
  Inv (advance (50 * k) st) ∧
  holdView (advance (50 * k) st) =
    ([], [mkTimer h (now st + 50 * k + 50) (Some 50) (HoldIntervalCb d)],
     repeatSteps (now st) d k ++ steps (trace st), now st + 50 * k).
Proof.
  intros HI Ht Hi. induction k as [|k [HIk IH]].
  { rewrite Nat.mul_0_r. cbn [advance repeatSteps app]. split; [done|].
    unfold holdView. rewrite Ht, Hi, !Nat.add_0_r. done. }
  replace (50 * S k) with (50 * k + 49 + 1) by lia.
  rewrite (advance_add (50 * k + 49) 1), (advance_add (50 * k) 49), advance_1.
  remember (advance (50 * k) st) as sk eqn:Esk. clear Esk.
  apply holdView_inv in IH as (Htk & Hik & Hsk & Hnk).
  pose proof (Inv_advance 49 sk HIk) as HI49.
  assert (Hw49 : ∀ u, u ∈ holdTimeouts sk ++ holdIntervals sk → now sk + 49 < due u).
  { rewrite Htk, Hik, Hnk, app_nil_l. intros u ->%list_elem_of_singleton.
    cbn [due]. lia. }
  destruct (holdView_inv _ _ _ _ _ (advance_hold_wait 49 sk HIk Hw49))
    as (Ht49 & Hi49 & Hs49 & Hn49).
  remember (advance 49 sk) as s49 eqn:Es49. clear Es49.
  pose proof (holdIntervals_elem s49 _ (eq_trans Hi49 Hik)) as Hin.
  remember (mkTimer h (now st + 50 * k + 50) (Some 50) (HoldIntervalCb d)) as t eqn:Et.
  split; [by apply Inv_tick|].
  rewrite (tick_hold_interval s49 t d 50 HI49 Hin);
    [|by rewrite Et|by rewrite Et|lia|rewrite Hn49, Hnk, Et; cbn [due]; lia].
  rewrite Hs49, Hsk, Hn49, Hnk, Et. cbn [repeatSteps app handle due].
  replace (now st + (50 * k + 49 + 1) + 50) with (now st + 50 * k + 50 + 50) by lia.
  replace (now st + 50 * S k) with (S (now st + 50 * k + 49)) by lia.
  replace (now st + (50 * k + 49 + 1)) with (S (now st + 50 * k + 49)) by lia.
  done.
Qed.

Lemma clearKeyHold_trace st : trace (clearKeyHold st) = trace st.
Proof.
  clearKeyHold_cases st; done.
Qed.

Lemma handleKeyDown_steps key st :
  isPopoverOpen st = true → isArrow key = true →
  steps (trace (handleKeyDown key st)) = (now st, direction key) :: steps (trace st) ∧
  now (handleKeyDown key st) = now st.
Proof.
  intros Ho Ha. unfold handleKeyDown. rewrite Ho, Ha. simpl.
  set (d := if bool_decide (key = "ArrowLeft") then (-1)%Z else 1%Z).
  destruct (callStep_frame d (clearKeyHold st)) as (_ & _ & _ & _ & _ & Hn & _).
  rewrite callStep_steps, Hn, clearKeyHold_now, clearKeyHold_trace. done.
Qed.

(** *** The index, the flag and the requests *)

Lemma navView_inv st i b l :
  navView st = (i, b, l) →
  timeTravelIndex st = i ∧ isTimeTravel st = b ∧ (loads (trace st)).*2 = l.
Proof. unfold navView. intros [= ? ? ?]. done. Qed.

(** [stepVersion], as called from the key handlers and the buttons, does
    what the specification calls a step. *)
Lemma callStep_nav d st :
  navView (callStep d st) = specStep (timestamps st) d (navView st) ∧
  timestamps (callStep d st) = timestamps st.
Proof.
  unfold callStep, stepVersion, specStep, navView. simpl.
  destruct (timeTravelIndex st) as [|i rest] eqn:E; cbn [hd_error fst snd];
    [simpl; by rewrite E|].
  case_bool_decide as Hr.
  - replace (i + d >=? 0)%Z with true by lia.
    replace (i + d <? Z.of_nat (length (timestamps st)))%Z with true by lia.
    cbn [andb]. unfold jumpToVersion. simpl.
    replace (i + d <? 0)%Z with false by lia.
    replace (i + d >=? Z.of_nat (length (timestamps st)))%Z with false by lia.
    cbn [orb]. unfold handleTimeTravelChange, at_index. simpl.
    by replace (0 <=? i + d)%Z with true by lia.
  - destruct (i + d >=? 0)%Z eqn:E1; [|simpl; by rewrite E].
    destruct (i + d <? Z.of_nat (length (timestamps st)))%Z eqn:E2;
      [|simpl; by rewrite E].
    lia.
Qed.

Lemma performSave_nav st :
  navView (performSave st) = navView st ∧ timestamps (performSave st) = timestamps st ∧
  steps (trace (performSave st)) = steps (trace st) ∧ now (performSave st) = now st.
Proof. unfold performSave. by destruct (content st). Qed.

(** A timer callback either takes no step, or takes one at the current
    time. *)
Lemma runCallback_nav c st :
  timestamps (runCallback c st) = timestamps st ∧ now (runCallback c st) = now st ∧
  ((steps (trace (runCallback c st)) = steps (trace st) ∧
    navView (runCallback c st) = navView st) ∨
   ∃ d, steps (trace (runCallback c st)) = (now st, d) :: steps (trace st) ∧
        navView (runCallback c st) = specStep (timestamps st) d (navView st)).
Proof.
  destruct c as [|d|d]; simpl.
  - destruct (performSave_nav st) as (? & ? & ? & ?). auto.
  - auto.
  - destruct (callStep_nav d st) as [Hv Ht].
    destruct (callStep_frame d st) as (_ & _ & _ & _ & _ & Hn & _).
    split; [done|]. split; [done|]. right. exists d. by rewrite callStep_steps.
Qed.

Lemma fire_nav h st :
  timestamps (fire h st) = timestamps st ∧ now (fire h st) = now st ∧
  ∃ new, steps (trace (fire h st)) = new ++ steps (trace st) ∧
         navView (fire h st) = replay (timestamps st) new (navView st).
Proof.
  assert (Hrun : ∀ c s, timestamps s = timestamps st → now s = now st →
            steps (trace s) = steps (trace st) → navView s = navView st →
            timestamps (runCallback c s) = timestamps st ∧
            now (runCallback c s) = now st ∧
            ∃ new, steps (trace (runCallback c s)) = new ++ steps (trace st) ∧
                   navView (runCallback c s) = replay (timestamps st) new (navView st)).
  { intros c s Ht Hn Hs Hv.
    destruct (runCallback_nav c s) as (Ht' & Hn' & [[Hs' Hv']|(d & Hs' & Hv')]).
    - split; [congruence|]. split; [congruence|]. exists []. split; [by rewrite Hs'|].
      by rewrite Hv'.
    - split; [congruence|]. split; [congruence|]. exists [(now st, d)].
      split; [by rewrite Hs', Hn, Hs|]. by rewrite Hv', Hv, Ht. }
  apply fire_cases.
  - split; [done|]. split; [done|]. by exists [].
  - intros t _ _ _ _. by apply Hrun.
  - intros t p _ _ _ _. by apply Hrun.
Qed.

Lemma replay_app ts new1 new2 v :
  replay ts (new1 ++ new2) v = replay ts new1 (replay ts new2 v).
Proof. unfold replay. by rewrite foldr_app. Qed.

Lemma tick_nav st :
  timestamps (tick st) = timestamps st ∧
  ∃ new, steps (trace (tick st)) = new ++ steps (trace st) ∧
         navView (tick st) = replay (timestamps st) new (navView st).
Proof.
  unfold tick.
  apply (foldl_fire_preserves
    (λ s, timestamps s = timestamps st ∧
          ∃ new, steps (trace s) = new ++ steps (trace st) ∧
                 navView s = replay (timestamps st) new (navView st))).
  - intros h s (Ht & new & Hs & Hv).
    destruct (fire_nav h s) as (Ht' & _ & new' & Hs' & Hv').
    split; [congruence|]. exists (new' ++ new).
    split; [by rewrite Hs', Hs, app_assoc|].
    by rewrite Hv', Hv, Ht, replay_app.
  - split; [done|]. by exists [].
Qed.

(** While only time passes, the index, the flag and the requests change
    exactly by the steps that are taken. *)
Lemma advance_nav n st :
  timestamps (advance n st) = timestamps st ∧
  ∃ new, steps (trace (advance n st)) = new ++ steps (trace st) ∧
         navView (advance n st) = replay (timestamps st) new (navView st).
Proof.
  revert st. induction n as [|n IH]; intros st.
  { split; [done|]. by exists []. }
  cbn [advance].
  destruct (tick_nav st) as (Ht & new & Hs & Hv).
  destruct (IH (tick st)) as (Ht' & new' & Hs' & Hv').
  split; [congruence|]. exists (new' ++ new).
  split; [by rewrite Hs', Hs, app_assoc|].
  by rewrite Hv', Hv, Ht, replay_app.
Qed.

Lemma advance_nav_steps n st new :
  steps (trace (advance n st)) = new ++ steps (trace st) →
  navView (advance n st) = replay (timestamps st) new (navView st).
Proof.
  intros Hs. destruct (advance_nav n st) as (_ & new' & Hs' & Hv).
  rewrite Hs in Hs'. apply app_inv_tail in Hs'. by subst new'.
Qed.

Lemma replay_repeatSteps ts t0 d k v :
  replay ts (repeatSteps t0 d k) v = Nat.iter k (specStep ts d) v.
Proof.
  revert v. induction k as [|k IH]; intros v; [done|].
  cbn [repeatSteps]. unfold replay in *. cbn [foldr snd].
  rewrite IH. symmetry. apply Nat.iter_succ.
Qed.

(** Inside the timeline, [m] steps of the specification move the index by
    [m] times the direction; the last request is for the version there. *)
Lemma iter_specStep ts d m i b l :
  (0 ≤ i < Z.of_nat (length ts))%Z →
  (0 ≤ i + Z.of_nat (S m) * d < Z.of_nat (length ts))%Z →
  ∃ l', Nat.iter (S m) (specStep ts d) ([i], b, l)
        = ([(i + Z.of_nat (S m) * d)%Z], true,
           ts !! Z.to_nat (i + Z.of_nat (S m) * d) :: l').
Proof.
  intros Hi. induction m as [|m IH]; intros Hm.
  { exists l. replace (i + Z.of_nat 1 * d)%Z with (i + d)%Z by lia.
    change (Nat.iter 1 (specStep ts d) ([i], b, l)) with (specStep ts d ([i], b, l)).
    unfold specStep. cbn [fst snd]. by rewrite bool_decide_true by lia. }
  destruct IH as [l' IH]; [nia|].
  rewrite Nat.iter_succ, IH. unfold specStep. cbn [fst snd].
  rewrite bool_decide_true by lia.
  replace (i + Z.of_nat (S m) * d + d)%Z with (i + Z.of_nat (S (S m)) * d)%Z by lia.
  by eexists.
Qed.

(** *** What a step does *)

Lemma clearKeyHold_nav st :
  navView (clearKeyHold st) = navView st ∧
  timestamps (clearKeyHold st) = timestamps st.
Proof. clearKeyHold_cases st; done. Qed.

Lemma handleKeyDown_nav key st :
  isPopoverOpen st = true → isArrow key = true →
  navView (handleKeyDown key st) = specStep (timestamps st) (direction key) (navView st) ∧
  timestamps (handleKeyDown key st) = timestamps st.
Proof.
  intros Ho Ha. unfold handleKeyDown. rewrite Ho, Ha. cbn [negb]. cbv zeta.
  fold (direction key).
  destruct (callStep_nav (direction key) (clearKeyHold st)) as [Hv Ht].
  destruct (clearKeyHold_nav st) as [Hnv Hts].
  rewrite Hts, Hnv in Hv. rewrite Hts in Ht. done.
Qed.

(** *** Events that leave a key hold alone *)

Lemma handleContentChange_hold st : holdView (handleContentChange st) = holdView st.
Proof.
  unfold handleContentChange. destruct (saveTimeout st); [done|].
  unfold holdView, holdTimeouts, holdIntervals. simpl.
  rewrite !filter_app, !filter_cons_False, !filter_nil, !app_nil_r by done. done.
Qed.

Lemma contentEffect_hold st : holdView (contentEffect st) = holdView st.
Proof.
  unfold contentEffect. destruct (_ && _); [apply handleContentChange_hold|done].
Qed.

Lemma assignContent_hold c st : holdView (assignContent c st) = holdView st.
Proof.
  unfold assignContent. case_bool_decide; [done|].
  destruct (alive st); [apply (contentEffect_hold (set_content (Some c) st))|done].
Qed.

Lemma jumpToVersion_hold i st : holdView (jumpToVersion i st) = holdView st.
Proof. unfold jumpToVersion. by destruct (_ || _). Qed.

Lemma exitTimeTravel_hold st : holdView (exitTimeTravel st) = holdView st.
Proof.
  unfold exitTimeTravel. destruct (_ && _); [|done].
  by rewrite contentEffect_hold.
Qed.

Lemma resume_hold k r st : holdView (resume k r st) = holdView st.
Proof.
  destruct k, r; try done; simpl.
  - by destruct (0 <? _).
  - exact (assignContent_hold _ _).
  - by destruct (negb _).
Qed.

Lemma step_hold e st :
  keepsHold e = true → e ≠ ETick → holdView (step e st) = holdView st.
Proof.
  intros Hk Ht. destruct e; try done; simpl.
  all: try (simpl in Hk).
  - destruct (alive st); [apply assignContent_hold|done].
  - by destruct (alive st).
  - by destruct (navVisible st).
  - destruct (navVisible st); [apply jumpToVersion_hold|done].
  - destruct (navVisible st); [apply jumpToVersion_hold|done].
  - destruct (_ && _); [apply exitTimeTravel_hold|done].
  - simpl in Hk. destruct (listening st); [|done].
    unfold handleKeyDown. destruct (isPopoverOpen st); [|done].
    by destruct (isArrow key).
  - simpl in Hk. destruct (listening st); [|done].
    unfold handleKeyUp. by destruct (isArrow key).
  - destruct (pending st !! id); [|done]. by rewrite resume_hold.
Qed.

Lemma ticksIn_snoc es e :
  ticksIn (es ++ [e]) = ticksIn es + (if isTick e then 1 else 0).
Proof.
  unfold ticksIn. rewrite filter_app, length_app. f_equal.
  destruct e; done.
Qed.

Lemma run_snoc es e st : run (es ++ [e]) st = step e (run es st).
Proof. unfold run. by rewrite foldl_app. Qed.

Lemma Inv_run_from es st : Inv st → Inv (run es st).
Proof.
  revert st. induction es as [|e es IH]; intros st HI; [done|].
  simpl. apply IH. by apply Inv_step.
Qed.

Lemma repeatSteps_S t0 d k :
  repeatSteps t0 d (S k) = (t0 + 50 * S k, d) :: repeatSteps t0 d k.
Proof. done. Qed.

(** A key hold over any run that leaves it alone: the delay timer waits
    for 300 ms of ticks, then the interval steps once per 50 ms. *)
Lemma run_hold es st h0 d :
  Inv st →
  holdTimeouts st = [mkTimer h0 (now st + 300) None (HoldTimeoutCb d)] →
  holdIntervals st = [] →
  Forall (λ e, keepsHold e = true) es →
  let n := ticksIn es in
  Inv (run es st) ∧ now (run es st) = now st + n ∧
  ((n < 300 ∧ holdTimeouts (run es st) = holdTimeouts st ∧
    holdIntervals (run es st) = [] ∧
    steps (trace (run es st)) = steps (trace st)) ∨
   (∃ k r h, n = 300 + 50 * k + r ∧ r < 50 ∧
      holdTimeouts (run es st) = [] ∧
      holdIntervals (run es st) =
        [mkTimer h (now st + 300 + 50 * k + 50) (Some 50) (HoldIntervalCb d)] ∧
      steps (trace (run es st)) = repeatSteps (now st + 300) d k ++ steps (trace st))).
Proof.
  intros HI Ht Hi. induction es as [|e es IH] using rev_ind; intros Hall.
  { cbv zeta. change (ticksIn []) with 0. change (run [] st) with st.
    split; [done|]. split; [lia|]. left. split; [lia|]. by rewrite Hi. }
  apply Forall_app in Hall as [Hall He]. apply Forall_inv in He.
  specialize (IH Hall). cbv zeta in IH. destruct IH as (HIs & Hn & Hcase).
  cbv zeta. rewrite run_snoc, ticksIn_snoc.
  remember (run es st) as s eqn:Es. clear Es.
  split; [by apply Inv_step|].
  assert (e = ETick ∨ e ≠ ETick) as [->|Hne]
    by (destruct e; (by left) || (by right)).
  - cbn [isTick step].
    destruct Hcase as [(Hlt & Hts & His & Hss)|(k & r & h & Hnk & Hr & Hts & His & Hss)].
    + destruct (decide (ticksIn es + 1 < 300)) as [Hw|Hw].
      * destruct (holdView_inv _ _ _ _ _ (tick_hold_wait s HIs
          ltac:(rewrite Hts, Ht, His, app_nil_r;
                intros t ->%list_elem_of_singleton; cbn [due]; lia)))
          as (Ht' & Hi' & Hs' & Hn').
        split; [lia|]. left. rewrite Ht', Hi', Hs'. done.
      * pose proof (holdTimeouts_elem s _ (eq_trans Hts Ht)) as Hin.
        destruct (tick_hold_timeout s _ d HIs Hin eq_refl) as [h Hv];
          [cbn [due]; lia|].
        apply holdView_inv in Hv as (Ht' & Hi' & Hs' & Hn').
        split; [lia|]. right. exists 0, 0, h.
        split; [lia|]. split; [lia|]. split; [done|]. split.
        -- rewrite Hi'. do 2 f_equal. lia.
        -- by rewrite Hs', Hss.
    + destruct (decide (r + 1 < 50)) as [Hw|Hw].
      * destruct (holdView_inv _ _ _ _ _ (tick_hold_wait s HIs
          ltac:(rewrite Hts, His, app_nil_l;
                intros t ->%list_elem_of_singleton; cbn [due]; lia)))
          as (Ht' & Hi' & Hs' & Hn').
        split; [lia|]. right. exists k, (r + 1), h.
        split; [lia|]. split; [lia|]. rewrite Ht', Hi', Hs'. done.
      * pose proof (holdIntervals_elem s _ His) as Hin.
        destruct (holdView_inv _ _ _ _ _ (tick_hold_interval s _ d 50 HIs Hin
                    eq_refl eq_refl ltac:(lia) ltac:(cbn [due]; lia)))
          as (Ht' & Hi' & Hs' & Hn').
        split; [lia|]. right. exists (S k), 0, h.
        split; [lia|]. split; [lia|]. split; [done|]. split.
        -- rewrite Hi'. cbn [handle due]. do 2 f_equal. lia.
        -- rewrite Hs', Hss, repeatSteps_S. cbn [app]. do 2 f_equal. lia.
  - destruct (holdView_inv _ _ _ _ _ (step_hold e s He Hne)) as (Ht' & Hi' & Hs' & Hn').
    assert (Hz : (if isTick e then 1 else 0) = 0) by (by destruct e).
    rewrite Hz, Nat.add_0_r. split; [lia|].
    rewrite Ht', Hi', Hs'. done.
Qed.

(** With no key timer armed, a run that leaves the keys alone takes no
    step. *)
Lemma run_hold_idle es st :
  Inv st → holdTimeouts st = [] → holdIntervals st = [] →
  Forall (λ e, keepsHold e = true) es →
  Inv (run es st) ∧ holdTimeouts (run es st) = [] ∧
  holdIntervals (run es st) = [] ∧
  steps (trace (run es st)) = steps (trace st).
Proof.
  intros HI Ht Hi. induction es as [|e es IH] using rev_ind; intros Hall; [done|].
  apply Forall_app in Hall as [Hall He]. apply Forall_inv in He.
  destruct (IH Hall) as (HIs & Hts & His & Hss). rewrite run_snoc.
  remember (run es st) as s eqn:Es. clear Es.
  split; [by apply Inv_step|].
  assert (e = ETick ∨ e ≠ ETick) as [->|Hne]
    by (destruct e; (by left) || (by right)).
  - destruct (holdView_inv _ _ _ _ _ (tick_hold_wait s HIs
      ltac:(rewrite Hts, His; by intros t ?%elem_of_nil)))
      as (Ht' & Hi' & Hs' & _).
    cbn [step]. by rewrite Ht', Hi', Hs'.
  - destruct (holdView_inv _ _ _ _ _ (step_hold e s He Hne)) as (Ht' & Hi' & Hs' & _).
    by rewrite Ht', Hi', Hs'.
Qed.

(** C4, as the code has it: with the popover open, every arrow key-down, the
    first as well as one the keyboard repeats, takes exactly one step at
    once (the index moves by one inside the timeline, time travel is on
    and that version is requested; at a boundary nothing moves) and starts
    the 300 ms delay afresh.  As long as no further arrow key-down, key-up,
    popover change, teardown or click on a step button arrives, whatever
    else happens, no step is taken before the delay timer fires, and from
    then on one step is taken every 50 ms (at 350, 400, ... ms after the
    key-down); every step a timer takes moves the index in the same way,
    so with only time passing the index is [k + 1] places from where it
    was after [300 + 50 k] ms.  An arrow key-up at any moment clears the
    delay timer and the interval, and no step follows. *)
Theorem C4_key_repeat_timing doc es key :
  let st := run es (mount doc) in
  isPopoverOpen st = true → isArrow key = true →
  let st1 := handleKeyDown key st in
  let d := direction key in
  let ts := timestamps st in
  (steps (trace st1) = (now st, d) :: steps (trace st) ∧
   navView st1 = specStep ts d (navView st) ∧
   holdIntervals st1 = [] ∧
   holdTimeouts st1 =
     [mkTimer (nextHandle (clearKeyHold st)) (now st + 300) None (HoldTimeoutCb d)]) ∧
  (∀ evs, Forall (λ e, keepsHold e = true) evs →
     (ticksIn evs < 300 → steps (trace (run evs st1)) = steps (trace st1)) ∧
     (∀ k r, ticksIn evs = 300 + 50 * k + r → r < 50 →
        steps (trace (run evs st1)) =
          repeatSteps (now st + 300) d k ++ steps (trace st1))) ∧
  (∀ s, ∃ new, steps (trace (tick s)) = new ++ steps (trace s) ∧
               navView (tick s) = replay (timestamps s) new (navView s)) ∧
  (∀ n, n < 300 →
     steps (trace (advance n st1)) = steps (trace st1) ∧
     navView (advance n st1) = navView st1) ∧
  (∀ k r, r < 50 →
     steps (trace (advance (300 + 50 * k + r) st1)) =
       repeatSteps (now st + 300) d k ++ steps (trace st1) ∧
     navView (advance (300 + 50 * k + r) st1) = Nat.iter k (specStep ts d) (navView st1)) ∧
  (∀ i k r, timeTravelIndex st = [i] → (0 ≤ i < Z.of_nat (length ts))%Z →
     (0 ≤ i + Z.of_nat (S k) * d < Z.of_nat (length ts))%Z → r < 50 →
     let st' := advance (300 + 50 * k + r) st1 in
     timeTravelIndex st' = [(i + Z.of_nat (S k) * d)%Z] ∧ isTimeTravel st' = true ∧
     head (loads (trace st')).*2 = Some (ts !! Z.to_nat (i + Z.of_nat (S k) * d))) ∧
  (∀ evs key', isArrow key' = true →
     let st2 := handleKeyUp key' (run evs st1) in
     holdTimeouts st2 = [] ∧ holdIntervals st2 = [] ∧
     navView st2 = navView (run evs st1) ∧
     steps (trace st2) = steps (trace (run evs st1)) ∧
     (∀ evs', Forall (λ e, keepsHold e = true) evs' →
        steps (trace (run evs' st2)) = steps (trace st2)) ∧
     ∀ m, navView (advance m st2) = navView st2).
Proof.
  intros st Ho Ha st1 d ts.
  pose proof (Inv_run doc es : Inv st) as HI.
  pose proof (Inv_handleKeyDown key st HI : Inv st1) as HI1.
  destruct (handleKeyDown_steps key st Ho Ha) as [Hs1 Hn1]. fold st1 d in Hs1, Hn1.
  destruct (handleKeyDown_hold key st HI Ho Ha) as [Hi1 Ht1]. fold st1 d in Hi1, Ht1.
  destruct (handleKeyDown_nav key st Ho Ha) as [Hv1 Hts1]. fold st1 d ts in Hv1, Hts1.
  assert (Hwait : ∀ n, n < 300 →
    holdView (advance n st1) =
      (holdTimeouts st1, holdIntervals st1, steps (trace st1), now st1 + n)).
  { intros n Hn. apply advance_hold_wait; [done|].
    rewrite Ht1, Hi1, app_nil_r. intros t ->%list_elem_of_singleton.
    cbn [due]. lia. }
  assert (Hrep : ∀ k r, r < 50 →
     steps (trace (advance (300 + 50 * k + r) st1)) =
       repeatSteps (now st + 300) d k ++ steps (trace st1)).
  { intros k r Hr.
    replace (300 + 50 * k + r) with (299 + 1 + 50 * k + r) by lia.
    rewrite (advance_add (299 + 1 + 50 * k) r), (advance_add (299 + 1) (50 * k)),
      (advance_add 299 1), advance_1.
    destruct (holdView_inv _ _ _ _ _ (Hwait 299 ltac:(lia))) as (Ht & Hi & Hs & Hn).
    pose proof (Inv_advance 299 st1 HI1) as HI299.
    remember (advance 299 st1) as s299 eqn:Es299. clear Es299.
    pose proof (holdTimeouts_elem s299 _ (eq_trans Ht Ht1)) as Hin.
    remember (mkTimer (nextHandle (clearKeyHold st)) (now st + 300) None
                (HoldTimeoutCb d)) as t eqn:Et.
    destruct (tick_hold_timeout s299 t d HI299 Hin) as [h Hv];
      [by rewrite Et|rewrite Et; cbn [due]; lia|].
    pose proof (Inv_tick s299 HI299) as HI300.
    remember (tick s299) as s300 eqn:Es300. clear Es300.
    apply holdView_inv in Hv as (Ht300 & Hi300 & Hs300 & Hn300).
    assert (Hnow : now s300 = now st + 300) by lia.
    destruct (advance_interval k s300 h d HI300 Ht300) as [HIk Hvk].
    { rewrite Hi300. repeat f_equal. lia. }
    apply holdView_inv in Hvk as (Htk & Hik & Hsk & Hnk).
    remember (advance (50 * k) s300) as sk eqn:Esk. clear Esk.
    assert (Hwr : ∀ u, u ∈ holdTimeouts sk ++ holdIntervals sk → now sk + r < due u).
    { rewrite Htk, Hik, Hnk, app_nil_l. intros u ->%list_elem_of_singleton.
      cbn [due]. lia. }
    destruct (holdView_inv _ _ _ _ _ (advance_hold_wait r sk HIk Hwr))
      as (_ & _ & Hsr & _).
    rewrite Hsr, Hsk, Hs300, Hs, Hnow. done. }
  assert (Hnav : ∀ k r, r < 50 →
     navView (advance (300 + 50 * k + r) st1) = Nat.iter k (specStep ts d) (navView st1)).
  { intros k r Hr.
    rewrite (advance_nav_steps _ st1 _ (Hrep k r Hr)), Hts1. apply replay_repeatSteps. }
  assert (Ht1' : holdTimeouts st1 =
            [mkTimer (nextHandle (clearKeyHold st)) (now st1 + 300) None (HoldTimeoutCb d)])
    by (by rewrite Hn1).
  clearbody st1.
  split; [done|]. split; [|split; [|split; [|split; [|split]]]].
  - intros evs Hall.
    destruct (run_hold evs st1 _ d HI1 Ht1' Hi1 Hall)
      as (_ & _ & [(Hlt & _ & _ & Hs)|(k & r & h & Hn & Hr & _ & _ & Hs)]).
    + split; [done|]. intros k r Hn Hr. lia.
    + split; [lia|]. intros k' r' Hn' Hr'.
      assert (k' = k) as -> by lia. by rewrite Hs, Hn1.
  - intros s. by destruct (tick_nav s) as [_ ?].
  - intros n Hn.
    destruct (holdView_inv _ _ _ _ _ (Hwait n Hn)) as (_ & _ & Hs & _).
    split; [done|]. by rewrite (advance_nav_steps n st1 [] Hs).
  - intros k r Hr. split; [by apply Hrep|by apply Hnav].
  - intros i k r Hidx Hi Hk Hr st'.
    pose proof (Hnav k r Hr) as Hv. fold st' in Hv. clearbody st'.
    rewrite Hv1, <- Nat.iter_succ_r in Hv.
    unfold navView at 2 in Hv. rewrite Hidx in Hv.
    destruct (iter_specStep ts d k i (isTimeTravel st) (loads (trace st)).*2 Hi Hk)
      as [l' El].
    rewrite El in Hv. apply navView_inv in Hv as (H1 & H2 & H3).
    split; [done|]. split; [done|]. by rewrite H3.
  - intros evs key' Ha' st2.
    assert (HIn : Inv (run evs st1)) by by apply Inv_run_from.
    unfold st2, handleKeyUp. rewrite Ha'.
    destruct (clearKeyHold_spec _ HIn) as (HI2 & _).
    destruct (clearKeyHold_no_hold _ HIn) as [Hi2 Ht2].
    split; [done|]. split; [done|]. split; [by destruct (clearKeyHold_nav (run evs st1))|].
    split; [by rewrite clearKeyHold_trace|]. split.
    + intros evs' Hall. by destruct (run_hold_idle evs' _ HI2 Ht2 Hi2 Hall) as (_ & _ & _ & ?).
    + intros m.
      pose proof (advance_hold_idle m _ HI2 Ht2 Hi2) as Hs.
      by rewrite (advance_nav_steps m _ [] Hs).
Qed.

Lemma C4_witness :
  let st := run [EReply 0 (RTimestamps [10; 20; 30; 40; 50]%Z); EPopover true]
              (mount "doc") in
  let st1 := handleKeyDown "ArrowRight" st in
  let evs := replicate 100 ETick ++ [EEdit "x"] ++ replicate 307 ETick in
  steps (trace st1) = (now st, 1%Z) :: steps (trace st) ∧
  navView st1 = ([1%Z], true, [Some 20%Z]) ∧
  steps (trace (run (replicate 299 ETick) st1)) = steps (trace st1) ∧
  steps (trace (run evs st1)) = repeatSteps (now st + 300) 1 2 ++ steps (trace st1) ∧
  navView (advance 299 st1) = navView st1 ∧
  timeTravelIndex (advance (300 + 50 * 2 + 7) st1) = [3%Z] ∧
  isTimeTravel (advance (300 + 50 * 2 + 7) st1) = true ∧
  head (loads (trace (advance (300 + 50 * 2 + 7) st1))).*2 = Some (Some 40%Z).
Proof.
  intros st st1 evs.
  destruct (C4_key_repeat_timing "doc"
              [EReply 0 (RTimestamps [10; 20; 30; 40; 50]%Z); EPopover true] "ArrowRight")
    as ((H1 & H1v & _) & H2 & _ & H3 & _ & H4 & _); [reflexivity|reflexivity|].
  destruct (H2 (replicate 299 ETick)) as [H2a _];
    [apply (bool_decide_unpack _); vm_compute; exact I|].
  destruct (H2 evs) as [_ H2b];
    [apply (bool_decide_unpack _); vm_compute; exact I|].
  destruct (H3 299 ltac:(lia)) as [_ H3v].
  destruct (H4 0%Z 2 7) as (H4i & H4t & H4l);
    [reflexivity|vm_compute; split; [discriminate|reflexivity]
    |vm_compute; split; [discriminate|reflexivity]|lia|].
  split; [exact H1|]. split; [|split; [|split; [|split; [exact H3v|]]]].
  - etransitivity; [exact H1v|]. vm_compute. reflexivity.
  - apply H2a. vm_compute. lia.
  - apply (H2b 2 7); [vm_compute; reflexivity|lia].
  - split; [exact H4i|]. split; [exact H4t|exact H4l].
Defined.

(** The key is pressed and held; 250 ms later the keyboard repeats the
    key-down (the handler does not look at [e.repeat]): a second step is
    taken at 250 ms, before any delay timer has fired, and the delay
    starts again. *)
Lemma C4_repeated_keydown_steps_early :
  let st := run ([EReply 0 (RTimestamps [10; 20; 30; 40; 50]%Z); EPopover true;
                  EKeyDown "ArrowRight"]
                 ++ replicate 250 ETick ++ [EKeyDown "ArrowRight"])
              (mount "doc") in
  now st = 250 ∧
  steps (trace st) = [(250, 1%Z); (0, 1%Z)] ∧
  timeTravelIndex st = [2%Z] ∧
  holdIntervals st = [] ∧
  holdTimeouts st = [mkTimer 3 550 None (HoldTimeoutCb 1)].
Proof. vm_compute. repeat split. Qed.

(** ** Autosave throttling *)

(** The save timer fires: [createPatch] is called with the content of
    that moment. *)
Lemma fire_save t c st :
  Inv st → t ∈ timers st → cb t = SaveCb → due t ≤ now st → content st = Some c →
  saveView (fire (handle t) st) =
    ([], saveTimeout st, Some c, (c, now st) :: patches (trace st), now st, alive st).
Proof.
  intros HI Hin Hc Hd Hcon.
  assert (Hs : isSave t = true) by (unfold isSave; by rewrite Hc).
  assert (Hk : isHoldInterval t = false) by (unfold isHoldInterval; by rewrite Hc).
  pose proof (inv_oneshot _ _ _ _ _ _ HI _ Hin Hk) as Hp.
  rewrite (fire_due t st HI Hin Hd), Hc, Hp. simpl.
  unfold performSave. simpl content. rewrite Hcon.
  assert (Hnil : filter (λ u, isSave u = true)
                   (filter (λ u, handle u ≠ handle t) (timers st)) = []).
  { apply (filter_nil_iff (λ u, isSave u = true)).
    intros u [Hne Hu]%list_elem_of_filter Hsu. apply Hne.
    pose proof (inv_save _ _ _ _ _ _ HI _ Hin Hs).
    pose proof (inv_save _ _ _ _ _ _ HI _ Hu Hsu). congruence. }
  unfold saveView, saveTimers. simpl. by rewrite Hnil, Hcon.
Qed.

Lemma save_elem st t :
  t ∈ timers st → isSave t = true → t ∈ saveTimers st.
Proof. intros Hin Hs. by apply list_elem_of_filter. Qed.

Lemma saveTimers_elem st t : saveTimers st = [t] → t ∈ timers st ∧ isSave t = true.
Proof.
  intros Hi. assert (Hin : t ∈ saveTimers st).
  { rewrite Hi. apply list_elem_of_singleton. reflexivity. }
  apply list_elem_of_filter in Hin. tauto.
Qed.

Lemma saveView_inv st a b c d e f :
  saveView st = (a, b, c, d, e, f) →
  saveTimers st = a ∧ saveTimeout st = b ∧ content st = c ∧
  patches (trace st) = d ∧ now st = e ∧ alive st = f.
Proof. unfold saveView. intros [= ? ? ? ? ? ?]. done. Qed.

(** A tick during which no save timer is due. *)
Lemma tick_save_wait st :
  Inv st → (∀ t, t ∈ saveTimers st → S (now st) < due t) →
  saveView (tick st) =
    (saveTimers st, saveTimeout st, content st, patches (trace st), S (now st),
     alive st).
Proof.
  intros HI Hw. unfold tick.
  set (V := (saveTimers st, saveTimeout st, content st, patches (trace st),
             S (now st), alive st)).
  apply (foldl_fire_preserves (λ s, Inv s ∧ saveView s = V)); [|done].
  intros h s [HIs Hv]. split; [by apply Inv_fire|].
  rewrite fire_save_frame; [done..|].
  intros t Hin Hh. destruct (isSave t) eqn:Hs; [right|by left].
  apply (save_elem s t Hin) in Hs.
  apply saveView_inv in Hv as (Ht & _ & _ & _ & Hn & _).
  rewrite Ht in Hs. rewrite Hn. by apply Hw.
Qed.

(** The tick at which the save timer is due. *)
Lemma tick_save_fire st t c :
  Inv st → t ∈ timers st → cb t = SaveCb → due t = S (now st) →
  content st = Some c →
  saveView (tick st) =
    ([], saveTimeout st, Some c, (c, S (now st)) :: patches (trace st), S (now st),
     alive st).
Proof.
  intros HI Hin Hc Hd Hcon. unfold tick.
  assert (Hs : isSave t = true) by (unfold isSave; by rewrite Hc).
  set (N := S (now st)).
  set (V := ([], saveTimeout st, Some c, (c, N) :: patches (trace st), N, alive st)
            : list Timer * option Handle * option string * list (string * nat)
              * nat * bool).
  apply (foldl_fire_once
    (λ s, Inv s ∧ t ∈ timers s ∧
          saveView s = (saveTimers s, saveTimeout st, Some c, patches (trace st),
                        N, alive st))
    (λ s, Inv s ∧ saveView s = V) (handle t)).
  - apply due_handle; [done|lia].
  - intros h s Hne (HIs & Hts & Hv).
    assert (Hf : saveView (fire h s) = saveView s).
    { apply fire_save_frame; [done|].
      intros u Hu Hh. destruct (isSave u) eqn:Hsu; [|by left].
      pose proof (inv_save _ _ _ _ _ _ HIs _ Hts Hs).
      pose proof (inv_save _ _ _ _ _ _ HIs _ Hu Hsu). congruence. }
    split; [by apply Inv_fire|].
    pose proof (save_elem s t Hts Hs) as Hel.
    pose proof Hf as Hf'. rewrite Hv in Hf'.
    apply saveView_inv in Hf' as (Hst & Hsv & Hco & Hpa & Hno & Hal).
    split.
    + rewrite <- Hst in Hel. by apply list_elem_of_filter in Hel as [_ ?].
    + unfold saveView. by rewrite Hsv, Hco, Hpa, Hno, Hal.
  - intros s (HIs & Hts & Hv). split; [by apply Inv_fire|].
    apply saveView_inv in Hv as (_ & Hsv & Hco & Hpa & Hno & Hal).
    rewrite (fire_save t c s); [|done..|lia|done].
    unfold V. by rewrite Hsv, Hpa, Hno, Hal.
  - intros h s (HIs & Hv). split; [by apply Inv_fire|].
    rewrite fire_save_frame; [done..|].
    intros u Hu Hh. left. destruct (isSave u) eqn:Hsu; [|done].
    apply (save_elem s u Hu) in Hsu.
    apply saveView_inv in Hv as (Ht & _). rewrite Ht in Hsu.
    by apply elem_of_nil in Hsu.
  - split; [done|]. split; [done|]. unfold saveView. simpl. by rewrite Hcon.
Qed.

Lemma advance_save_wait n st :
  Inv st → (∀ t, t ∈ saveTimers st → now st + n < due t) →
  saveView (advance n st) =
    (saveTimers st, saveTimeout st, content st, patches (trace st), now st + n,
     alive st).
Proof.
  revert st. induction n as [|n IH]; intros st HI Hw.
  { cbn [advance]. unfold saveView. by rewrite Nat.add_0_r. }
  cbn [advance].
  assert (Hw1 : ∀ t, t ∈ saveTimers st → S (now st) < due t).
  { intros t Ht. specialize (Hw t Ht). lia. }
  destruct (saveView_inv _ _ _ _ _ _ _ (tick_save_wait st HI Hw1))
    as (Ht & Hsv & Hc & Hp & Hn & Ha).
  rewrite IH; [|by apply Inv_tick|].
  - rewrite Ht, Hsv, Hc, Hp, Hn, Ha.
    by replace (S (now st) + n) with (now st + S n) by lia.
  - rewrite Ht, Hn. intros t Hin. specialize (Hw t Hin). lia.
Qed.

Lemma handleContentChange_pending st :
  saveTimeout st ≠ None → handleContentChange st = st.
Proof. unfold handleContentChange. by destruct (saveTimeout st). Qed.

Lemma contentEffect_pending st : saveTimeout st ≠ None → contentEffect st = st.
Proof.
  intros Hsv. unfold contentEffect.
  destruct (_ && _); [by apply handleContentChange_pending|done].
Qed.

(** An edit while a window is pending only replaces the content. *)
Lemma edit_pending c st :
  saveTimeout st ≠ None →
  saveView (step (EEdit c) st) =
    (saveTimers st, saveTimeout st, if alive st then Some c else content st,
     patches (trace st), now st, alive st).
Proof.
  intros Hsv. cbn [step]. destruct (alive st) eqn:Ha; [|unfold saveView; by rewrite Ha].
  unfold assignContent. rewrite Ha. case_bool_decide as Hc.
  - unfold saveView. by rewrite Hc, Ha.
  - rewrite contentEffect_pending by done. unfold saveView. simpl. by rewrite Ha.
Qed.

Lemma burst_cons e edits st :
  burst (e :: edits) st = burst edits (step (EEdit e.2) (advance e.1 st)).
Proof. done. Qed.

(** A burst of edits inside a pending window: no timer is added, nothing
    is saved, the content is that of the latest edit. *)
Lemma burst_pending edits st :
  Inv st → saveTimeout st ≠ None →
  (∀ t, t ∈ saveTimers st → now st + sum_list edits.*1 < due t) →
  Inv (burst edits st) ∧
  saveView (burst edits st) =
    (saveTimers st, saveTimeout st,
     if alive st then from_option Some (content st) (last edits.*2) else content st,
     patches (trace st), now st + sum_list edits.*1, alive st).
Proof.
  revert st. induction edits as [|[d c] edits IH]; intros st HI Hsv Hw.
  { cbn. split; [done|]. unfold saveView. rewrite Nat.add_0_r. by destruct (alive st). }
  rewrite burst_cons. cbn [fst snd].
  change (sum_list ((d, c) :: edits).*1) with (d + sum_list edits.*1) in Hw.
  assert (Hw1 : ∀ t, t ∈ saveTimers st → now st + d < due t).
  { intros t Ht. specialize (Hw t Ht). lia. }
  pose proof (Inv_advance d st HI) as HI1.
  destruct (saveView_inv _ _ _ _ _ _ _ (advance_save_wait d st HI Hw1))
    as (Ht1 & Hsv1 & Hc1 & Hp1 & Hn1 & Ha1).
  remember (advance d st) as s1 eqn:Es1. clear Es1.
  assert (Hsv1' : saveTimeout s1 ≠ None) by by rewrite Hsv1.
  pose proof (Inv_step (EEdit c) s1 HI1) as HI2.
  destruct (saveView_inv _ _ _ _ _ _ _ (edit_pending c s1 Hsv1'))
    as (Ht2 & Hsv2 & Hc2 & Hp2 & Hn2 & Ha2).
  remember (step (EEdit c) s1) as s2 eqn:Es2. clear Es2.
  destruct (IH s2) as [HI3 Hv3]; [done|congruence|..].
  { rewrite Ht2, Ht1, Hn2, Hn1. intros t Hin. specialize (Hw t Hin). lia. }
  split; [done|]. rewrite Hv3.
  rewrite Ht2, Ht1, Hsv2, Hsv1, Hp2, Hp1, Hn2, Hn1, Ha2, Ha1, Hc2, Hc1, Ha1.
  change (sum_list ((d, c) :: edits).*1) with (d + sum_list edits.*1).
  change (((d, c) :: edits).*2) with (c :: edits.*2).
  replace (now st + d + sum_list edits.*1) with (now st + (d + sum_list edits.*1)) by lia.
  destruct (alive st); [|done].
  assert (Hl : from_option Some (Some c) (last edits.*2)
               = from_option Some (content st) (last (c :: edits.*2))).
  { destruct (edits.*2) as [|x l]; [done|].
    change (last (c :: x :: l)) with (last (x :: l)).
    destruct (last (x :: l)) eqn:E; [done|]. by apply last_None in E. }
  by rewrite Hl.
Qed.

(** C2: while a save timer is pending, a burst of edits falling inside
    the window starts no second timer (each later notification returns
    the state unchanged) and saves nothing; when the timer fires,
    [createPatch] is called exactly once, with the content current at that
    moment, which is the text of the latest edit. *)
Theorem C2_throttle_coalescing doc es t edits :
  let st := run es (mount doc) in
  t ∈ timers st → cb t = SaveCb → now st + sum_list edits.*1 < due t →
  let st2 := burst edits st in
  (∀ s, saveTimeout s ≠ None → handleContentChange s = s) ∧
  saveTimeout st ≠ None ∧
  saveTimers st2 = [t] ∧ saveTimeout st2 = saveTimeout st ∧
  patches (trace st2) = patches (trace st) ∧
  content st2 = (if alive st then from_option Some (content st) (last edits.*2)
                 else content st) ∧
  (∀ n, now st2 + n < due t →
     patches (trace (advance n st2)) = patches (trace st)) ∧
  (∀ c, content st2 = Some c →
     patches (trace (advance (due t - now st2) st2)) = (c, due t) :: patches (trace st) ∧
     saveTimers (advance (due t - now st2) st2) = []).
Proof.
  intros st Hin Hc Hd st2.
  pose proof (Inv_run doc es : Inv st) as HI.
  assert (Hs : isSave t = true) by (unfold isSave; by rewrite Hc).
  pose proof (inv_save _ _ _ _ _ _ HI _ Hin Hs) as Hsv.
  assert (Hst : saveTimers st = [t]).
  { apply unique_in_filter; [apply HI| |done..]. intros u Hu Hsu.
    pose proof (inv_save _ _ _ _ _ _ HI _ Hu Hsu). congruence. }
  assert (Hsv' : saveTimeout st ≠ None) by by rewrite Hsv.
  destruct (burst_pending edits st HI Hsv') as [HI2 Hv2].
  { rewrite Hst. by intros u ->%list_elem_of_singleton. }
  fold st2 in HI2, Hv2.
  apply saveView_inv in Hv2 as (Ht2 & Hsv2 & Hc2 & Hp2 & Hn2 & Ha2).
  assert (Hwait : ∀ n, now st2 + n < due t →
    saveView (advance n st2) =
      (saveTimers st2, saveTimeout st2, content st2, patches (trace st2),
       now st2 + n, alive st2)).
  { intros n Hn. apply advance_save_wait; [done|].
    rewrite Ht2, Hst. by intros u ->%list_elem_of_singleton. }
  split; [apply handleContentChange_pending|]. split; [done|].
  split; [congruence|]. split; [done|]. split; [done|]. split; [done|].
  split.
  - intros n Hn.
    destruct (saveView_inv _ _ _ _ _ _ _ (Hwait n Hn)) as (_ & _ & _ & Hp & _).
    congruence.
  - intros c Hcon.
    assert (Hrest : due t - now st2 = (due t - now st2 - 1) + 1) by lia.
    rewrite Hrest, (advance_add (due t - now st2 - 1) 1), advance_1.
    destruct (saveView_inv _ _ _ _ _ _ _ (Hwait (due t - now st2 - 1) ltac:(lia)))
      as (Htr & Hsvr & Hcr & Hpr & Hnr & Har).
    pose proof (Inv_advance (due t - now st2 - 1) st2 HI2) as HIr.
    remember (advance (due t - now st2 - 1) st2) as sr eqn:Esr. clear Esr.
    assert (Hinr : t ∈ timers sr).
    { apply (saveTimers_elem sr t). congruence. }
    destruct (saveView_inv _ _ _ _ _ _ _
                (tick_save_fire sr t c HIr Hinr Hc ltac:(lia) ltac:(congruence)))
      as (Htf & _ & _ & Hpf & _).
    split; [|done]. rewrite Hpf, Hpr, Hp2. repeat f_equal. lia.
Qed.

Lemma C2_witness :
  let st := run [] (mount "doc") in
  let t := mkTimer 1 500 None SaveCb in
  let edits := [(0, "a"); (100, "ab"); (100, "abc"); (100, "abcd")] in
  let st2 := burst edits st in
  saveTimers st2 = [t] ∧
  patches (trace (advance (due t - now st2) st2)) = ("abcd", due t) :: patches (trace st).
Proof.
  intros st t edits st2.
  destruct (C2_throttle_coalescing "doc" [] t edits)
    as (_ & _ & Ht & _ & _ & _ & _ & Hfire);
    [apply list_elem_of_singleton; reflexivity|reflexivity|vm_compute; lia|].
  split; [exact Ht|]. apply (Hfire "abcd"). vm_compute. reflexivity.
Defined.

(** ** A save whose createPatch is rejected *)

Lemma step_reply id r k st :
  pending st !! id = Some k →
  step (EReply id r) st =
    resume k r (log (OSettle (now st) id k r)
                  (set_pending (delete id (pending st)) st)).
Proof. intros Hk. cbn [step]. by rewrite Hk. Qed.

Lemma pending_invoke c k st : pending (invoke c k st) !! nextReq st = Some k.
Proof. unfold invoke. simpl. apply lookup_insert_eq. Qed.


(** The refresh calls are not guarded: if one of them is rejected the
    save ends there and [saveTimeout] keeps its value. *)
Remark refresh_rejection_keeps_flag st id k :
  pending st !! id = Some k → k = KSaveTimestamps ∨ k = KSaveStats →
  saveTimeout (step (EReply id RError) st) = saveTimeout st.
Proof.
  intros Hid [-> | ->]; by rewrite (step_reply _ _ _ _ Hid).
Qed.

(** ** Reconstruction results arriving out of order *)

(** Two versions are requested from the slider, the second result arrives
    first: the late result of the first request replaces it on screen,
    although the specification's rule would keep the second. *)
Lemma C1_stale_result_overwrites :
  let st := run [EReply 0 (RTimestamps [10; 20]%Z);
                 EReply 1 (RStats (mkStats 2 8 80 (10 # 1)));
                 EReply 2 (RString "two");
                 EPopover true;
                 ESlider [0%Z]; ESlider [1%Z];
                 EReply 4 (RString "two"); EReply 3 (RString "one")]
              (mount "doc") in
  loads (trace st) = [(4, Some 20%Z); (3, Some 10%Z); (2, Some 0%Z)] ∧
  versionResults (trace st) = [(3, "one"); (4, "two")] ∧
  timeTravelIndex st = [1%Z] ∧
  specDisplayed (trace st) = Some "two" ∧
  timeTravelContent st = "one" ∧
  specDisplayed (trace st) ≠ Some (timeTravelContent st).
Proof. vm_compute. repeat split; discriminate. Qed.

(** ** Time travel, saves and the return to the current version *)

Lemma settled_iff st :
  settled st ↔
  (∀ t, t ∈ timers st → isHoldTimeout t = false ∧ isHoldInterval t = false) ∧
  (∀ id k, pending st !! id = Some k → isMountCont k = false).
Proof.
  unfold settled. rewrite holdTimeouts_nil, holdIntervals_nil. split.
  - intros (Ht & Hi & Hp). split; [|done]. intros t Hin. split; auto.
  - intros (Hh & Hp). split; [|split; [|done]]; intros t Hin; by apply Hh.
Qed.

Lemma settled_sub st st' :
  settled st →
  (∀ t, t ∈ timers st' → t ∈ timers st ∨ isSave t = true) →
  (∀ id k, pending st' !! id = Some k →
           pending st !! id = Some k ∨ isMountCont k = false) →
  settled st'.
Proof.
  rewrite !settled_iff. intros [Hh Hp] Ht Hpd. split.
  - intros t [Hin|Hs]%Ht; [by apply Hh|].
    unfold isSave, isHoldTimeout, isHoldInterval in *. by destruct (cb t).
  - intros id k [Hin|Hk]%Hpd; [by eapply Hp|done].
Qed.

Lemma clearKeyHold_scrub st :
  scrubView (clearKeyHold st) = scrubView st ∧
  pending (clearKeyHold st) = pending st ∧
  (∀ t, t ∈ timers (clearKeyHold st) → t ∈ timers st).
Proof.
  clearKeyHold_cases st; (split; [done|]; split; [done|]); simpl; intros t;
    rewrite ?list_elem_of_filter; tauto.
Qed.

Lemma handleContentChange_scrub st :
  scrubView (handleContentChange st) = scrubView st ∧
  pending (handleContentChange st) = pending st ∧
  (∀ t, t ∈ timers (handleContentChange st) → t ∈ timers st ∨ isSave t = true).
Proof.
  unfold handleContentChange. destruct (saveTimeout st); [by auto|].
  simpl. split; [done|]. split; [done|].
  intros t [?| ->%list_elem_of_singleton]%elem_of_app; auto.
Qed.

Lemma contentEffect_scrub st :
  scrubView (contentEffect st) = scrubView st ∧
  pending (contentEffect st) = pending st ∧
  (∀ t, t ∈ timers (contentEffect st) → t ∈ timers st ∨ isSave t = true).
Proof.
  unfold contentEffect. destruct (_ && _); [apply handleContentChange_scrub|by auto].
Qed.

Lemma assignContent_scrub c st :
  scrubView (assignContent c st) = scrubView st ∧
  pending (assignContent c st) = pending st ∧
  (∀ t, t ∈ timers (assignContent c st) → t ∈ timers st ∨ isSave t = true).
Proof.
  unfold assignContent. case_bool_decide; [by auto|].
  destruct (alive st); [apply (contentEffect_scrub (set_content (Some c) st))|by auto].
Qed.

Lemma onDestroy_scrub st :
  scrubView (onDestroy st) = scrubView st ∧
  pending (onDestroy st) = pending st.
Proof.
  unfold onDestroy. cbv zeta.
  destruct (truthy (saveTimeout st)); simpl;
    destruct (truthy (keyHoldInterval st)); simpl;
    destruct (truthy (keyHoldTimeout st)); done.
Qed.

Lemma settled_fire h st :
  settled st → settled (fire h st) ∧ scrubView (fire h st) = scrubView st.
Proof.
  intros Hs. pose proof Hs as [Hh Hp]%settled_iff.
  assert (Hsave : ∀ t, t ∈ timers st → cb t = SaveCb).
  { intros t [Ht Hi]%Hh. unfold isHoldTimeout, isHoldInterval in *. by destruct (cb t). }
  assert (Hps : ∀ s', settled s' →
            settled (performSave s') ∧ scrubView (performSave s') = scrubView s').
  { intros s' Hs'. unfold performSave. destruct (content s'); [|done].
    split; [|done]. eapply settled_sub; [exact Hs'|by auto|].
    unfold invoke. simpl. intros i k.
    destruct (decide (i = nextReq s')) as [->|Hne].
    - rewrite lookup_insert_eq. intros [= <-]. by right.
    - rewrite lookup_insert_ne by done. by left. }
  apply fire_cases; [done|..].
  - intros t Hin _ _ _. rewrite (Hsave t Hin). cbn [runCallback].
    destruct (Hps (clearTimer h st)) as [H1 H2]; [|done].
    eapply settled_sub; [exact Hs| |by auto].
    intros u [_ Hu]%list_elem_of_filter. by left.
  - intros t p Hin _ _ _. rewrite (Hsave t Hin). cbn [runCallback].
    destruct (Hps (set_timers (rearm t p (timers st)) st)) as [H1 H2]; [|done].
    eapply settled_sub; [exact Hs| |by auto].
    simpl. unfold rearm. intros u (v & -> & Hv)%list_elem_of_fmap.
    case_bool_decide; [right|by left]. unfold isSave. simpl. by rewrite (Hsave t Hin).
Qed.

Lemma settled_tick st :
  settled st → settled (tick st) ∧ scrubView (tick st) = scrubView st.
Proof.
  intros Hs. unfold tick.
  apply (foldl_fire_preserves (λ s, settled s ∧ scrubView s = scrubView st)); [|done].
  intros h s [Hss Hv]. destruct (settled_fire h s Hss) as [H1 H2].
  split; [done|congruence].
Qed.

Lemma scrubView_inv st i b m :
  scrubView st = (i, b, m) →
  timeTravelIndex st = i ∧ isTimeTravel st = b ∧ mode st = m.
Proof. unfold scrubView. intros [= ? ? ?]. done. Qed.

(** Saves, edits, ticks and popover toggles leave the flag and the mode
    alone, and the index too while time travel is on. *)
Lemma quiet_step e st :
  isQuiet e = true → settled st →
  settled (step e st) ∧
  isTimeTravel (step e st) = isTimeTravel st ∧
  mode (step e st) = mode st ∧
  (isTimeTravel st = true → timeTravelIndex (step e st) = timeTravelIndex st).
Proof.
  intros Hq Hs.
  assert (Hview : ∀ s', settled s' → scrubView s' = scrubView st →
            settled s' ∧ isTimeTravel s' = isTimeTravel st ∧ mode s' = mode st ∧
            (isTimeTravel st = true → timeTravelIndex s' = timeTravelIndex st)).
  { intros s' Hs' (Hi & Hb & Hm)%scrubView_inv. done. }
  destruct e; try discriminate Hq; cbn [step].
  - (* an edit *)
    destruct (alive st); [|by apply Hview].
    destruct (assignContent_scrub c st) as (Hv & Hp & Ht).
    apply Hview; [|done]. eapply settled_sub; [exact Hs|done|]. rewrite Hp. by auto.
  - (* the popover *)
    destruct (_ && _); [|by apply Hview]. unfold popoverEffect. simpl.
    destruct open; [by apply Hview|].
    destruct (clearKeyHold_scrub (set_listening false (set_isPopoverOpen false st)))
      as (Hv & Hp & Ht).
    apply Hview; [|done]. eapply settled_sub; [exact Hs| |rewrite Hp; by auto].
    intros t Hin%Ht. by left.
  - (* a tick *)
    destruct (settled_tick st Hs). by apply Hview.
  - (* a reply *)
    destruct (pending st !! id) as [k|] eqn:Hk; [|by apply Hview].
    pose proof Hs as [Hh Hp]%settled_iff.
    pose proof (Hp _ _ Hk) as Hnm.
    set (st0 := log _ _).
    assert (Hs0 : settled st0).
    { eapply settled_sub; [exact Hs|by auto|]. simpl.
      intros i j [_ ?]%lookup_delete_Some. by left. }
    assert (Hinv : ∀ c k' s', settled s' → isMountCont k' = false →
              settled (invoke c k' s')).
    { intros c k' s' Hs' Hk'. eapply settled_sub; [exact Hs'|by auto|].
      unfold invoke. simpl. intros i j.
      destruct (decide (i = nextReq s')) as [->|Hne].
      - rewrite lookup_insert_eq. intros [= <-]. by right.
      - rewrite lookup_insert_ne by done. by left. }
    destruct k; try discriminate Hnm; destruct r; cbn [resume]; cbv zeta;
      lazymatch goal with
      | |- context [set_saveTimeout] => idtac
      | |- settled st0 ∧ _ => by apply Hview
      | |- settled (invoke _ _ _) ∧ _ => split; [by apply Hinv|done]
      | |- settled (set_timeTravelContent _ _) ∧ _ => by apply Hview
      | _ => idtac
      end.
    change (isTimeTravel (set_stats (Some s) st0)) with (isTimeTravel st).
    destruct (isTimeTravel st) eqn:Htt; cbn [negb];
      (split; [exact Hs0|]; split; [done|]; split; [done|]; by intros ?).
  - (* teardown *)
    destruct (alive st); [|by apply Hview].
    destruct (onDestroy_scrub st) as [Hv Hp].
    apply Hview; [|done]. eapply settled_sub; [exact Hs| |rewrite Hp; by auto].
    intros t (Hin & _)%onDestroy_timers. by left.
Qed.

Lemma quiet_run es st :
  Forall (λ e, isQuiet e = true) es → settled st →
  settled (run es st) ∧
  isTimeTravel (run es st) = isTimeTravel st ∧
  mode (run es st) = mode st ∧
  (isTimeTravel st = true → timeTravelIndex (run es st) = timeTravelIndex st).
Proof.
  intros Hq. revert st. induction Hq as [|e es He Hes IH]; intros st Hs; [done|].
  change (run (e :: es) st) with (run es (step e st)).
  destruct (quiet_step e st He Hs) as (Hs1 & Hb1 & Hm1 & Hi1).
  destruct (IH _ Hs1) as (Hs2 & Hb2 & Hm2 & Hi2).
  split; [done|]. split; [congruence|]. split; [congruence|].
  intros Htt. rewrite Hi2, Hi1; [done..|congruence].
Qed.

Lemma exitTimeTravel_spec st :
  settled st →
  settled (exitTimeTravel st) ∧
  isTimeTravel (exitTimeTravel st) = false ∧
  timeTravelContent (exitTimeTravel st) = "" ∧
  timeTravelIndex (exitTimeTravel st) = timeTravelIndex st ∧
  mode (exitTimeTravel st) = mode st ∧
  timestamps (exitTimeTravel st) = timestamps st.
Proof.
  intros Hs. unfold exitTimeTravel.
  set (st' := log (OExit (now st))
                (set_timeTravelContent "" (set_isTimeTravel false st))).
  destruct (_ && _); [|done].
  destruct (contentEffect_scrub st') as ((Hi & Hb & Hm)%scrubView_inv & Hp & Ht).
  split; [eapply settled_sub; [exact Hs|exact Ht|rewrite Hp; by auto]|].
  split; [done|]. split; [|split; [done|split; [done|]]].
  - unfold contentEffect, handleContentChange.
    destruct (_ && _); [|done]. by destruct (saveTimeout st').
  - unfold contentEffect, handleContentChange.
    destruct (_ && _); [|done]. by destruct (saveTimeout st').
Qed.

(** A five-version document is opened, version 2 is selected on the
    slider, a save completes (the timeline grows to six) and "Return to
    Current" is pressed: the index is still 2, not 5. *)
Lemma C3_index_stays_after_exit :
  let st := run ([EReply 0 (RTimestamps [1; 2; 3; 4; 5]%Z);
                  EReply 1 (RStats (mkStats 5 10 100 (10 # 1)));
                  EReply 2 (RString "five");
                  EPopover true; ESlider [2%Z]; EReply 3 (RString "three")]
                 ++ replicate 500 ETick
                 ++ [EReply 4 (RString "patch");
                     EReply 5 (RTimestamps [1; 2; 3; 4; 5; 6]%Z);
                     EReply 6 (RStats (mkStats 6 12 120 (10 # 1)));
                     EExit])
              (mount "doc") in
  patches (trace st) = [("five", 500)] ∧
  length (timestamps st) = 6 ∧ lastIndex st = 5%Z ∧
  isTimeTravel st = false ∧ mode st = write ∧
  timeTravelIndex st = [2%Z] ∧
  timeTravelIndex st ≠ [lastIndex st].
Proof. vm_compute. repeat split; discriminate. Qed.

(** ** What is shown, and the empty timeline, over whole runs *)

Lemma handleContentChange_display st :
  displayView (handleContentChange st) = displayView st.
Proof. unfold handleContentChange. by destruct (saveTimeout st). Qed.

Lemma contentEffect_display st : displayView (contentEffect st) = displayView st.
Proof.
  unfold contentEffect. destruct (_ && _); [apply handleContentChange_display|done].
Qed.

Lemma assignContent_display c st :
  displayView (assignContent c st) = displayView st.
Proof.
  unfold assignContent. case_bool_decide; [done|].
  destruct (alive st); [|done].
  by rewrite (contentEffect_display (set_content (Some c) st)).
Qed.

Lemma clearKeyHold_display st : displayView (clearKeyHold st) = displayView st.
Proof.
  clearKeyHold_cases st; done.
Qed.

Lemma onDestroy_display st : displayView (onDestroy st) = displayView st.
Proof.
  unfold onDestroy. cbv zeta.
  destruct (truthy (saveTimeout st)); simpl;
    destruct (truthy (keyHoldInterval st)); simpl;
    destruct (truthy (keyHoldTimeout st)); done.
Qed.

Lemma performSave_display st : displayView (performSave st) = displayView st.
Proof. unfold performSave. by destruct (content st). Qed.

Lemma displayView_inv st a b c d e :
  displayView st = (a, b, c, d, e) →
  timeTravelContent st = a ∧ shown (trace st) = b ∧ timestamps st = c ∧
  isTimeTravel st = d ∧ loads (trace st) = e.
Proof. unfold displayView. intros [= ? ? ? ? ?]. done. Qed.

(** Navigation requests a text but does not show one. *)
Lemma stepVersion_shown d st :
  timeTravelContent (stepVersion d st) = timeTravelContent st ∧
  shown (trace (stepVersion d st)) = shown (trace st).
Proof.
  unfold stepVersion, jumpToVersion. destruct (head _); [|done].
  destruct (_ && _); [|done]. by destruct (_ || _).
Qed.

Lemma jumpToVersion_shown i st :
  timeTravelContent (jumpToVersion i st) = timeTravelContent st ∧
  shown (trace (jumpToVersion i st)) = shown (trace st).
Proof. unfold jumpToVersion. by destruct (_ || _). Qed.

Lemma callStep_shown d st :
  timeTravelContent (callStep d st) = timeTravelContent st ∧
  shown (trace (callStep d st)) = shown (trace st).
Proof.
  unfold callStep. by destruct (stepVersion_shown d (log (OStep (now st) d) st)) as [-> ->].
Qed.

Lemma handleKeyDown_shown key st :
  timeTravelContent (handleKeyDown key st) = timeTravelContent st ∧
  shown (trace (handleKeyDown key st)) = shown (trace st).
Proof.
  unfold handleKeyDown. destruct (negb _); [done|]. destruct (isArrow key); [|done].
  simpl.
  set (d := if bool_decide (key = "ArrowLeft") then (-1)%Z else 1%Z).
  destruct (callStep_shown d (clearKeyHold st)) as [-> ->].
  by destruct (displayView_inv _ _ _ _ _ _ (clearKeyHold_display st)) as (-> & -> & _).
Qed.

Lemma runCallback_shown c st :
  timeTravelContent (runCallback c st) = timeTravelContent st ∧
  shown (trace (runCallback c st)) = shown (trace st).
Proof.
  destruct c; cbn [runCallback].
  - by destruct (displayView_inv _ _ _ _ _ _ (performSave_display st)) as (-> & -> & _).
  - done.
  - apply callStep_shown.
Qed.

Lemma fire_shown h st :
  timeTravelContent (fire h st) = timeTravelContent st ∧
  shown (trace (fire h st)) = shown (trace st).
Proof.
  apply fire_cases; [done|..]; intros;
    match goal with
    | |- context [runCallback ?c ?s] => by destruct (runCallback_shown c s) as [-> ->]
    end.
Qed.

Lemma tick_shown st :
  timeTravelContent (tick st) = timeTravelContent st ∧
  shown (trace (tick st)) = shown (trace st).
Proof.
  unfold tick.
  apply (foldl_fire_preserves
    (λ s, timeTravelContent s = timeTravelContent st ∧
          shown (trace s) = shown (trace st))); [|done].
  intros h s [H1 H2]. destruct (fire_shown h s) as [-> ->]. done.
Qed.

(** What is on screen is what arrived last. *)
Lemma shown_step e st :
  timeTravelContent st = shown (trace st) →
  timeTravelContent (step e st) = shown (trace (step e st)).
Proof.
  intros Hok.
  assert (Hsame : ∀ s', timeTravelContent s' = timeTravelContent st ∧
                        shown (trace s') = shown (trace st) →
                        timeTravelContent s' = shown (trace s')).
  { intros s' [-> ->]. done. }
  assert (Hdisp : ∀ s', displayView s' = displayView st →
                        timeTravelContent s' = shown (trace s')).
  { intros s' (? & ? & _)%eq_sym%displayView_inv. apply Hsame. by split. }
  destruct e; cbn [step].
  - destruct (alive st); [|done]. apply Hdisp, assignContent_display.
  - by destruct (alive st).
  - destruct (_ && _); [|done]. unfold popoverEffect. simpl.
    destruct open; [done|]. apply Hdisp.
    apply (clearKeyHold_display (set_listening false (set_isPopoverOpen false st))).
  - by destruct (navVisible st).
  - destruct (navVisible st); [|done]. apply Hsame, jumpToVersion_shown.
  - destruct (navVisible st); [|done]. apply Hsame, callStep_shown.
  - destruct (navVisible st); [|done]. apply Hsame, callStep_shown.
  - destruct (navVisible st); [|done]. apply Hsame, jumpToVersion_shown.
  - destruct (_ && _); [|done]. unfold exitTimeTravel.
    set (st' := log (OExit (now st)) _).
    destruct (_ && _); [|done].
    by destruct (displayView_inv _ _ _ _ _ _ (contentEffect_display st')) as (-> & -> & _).
  - destruct (listening st); [|done]. apply Hsame, handleKeyDown_shown.
  - destruct (listening st); [|done]. unfold handleKeyUp.
    destruct (isArrow key); [|done]. apply Hdisp, clearKeyHold_display.
  - apply Hsame, tick_shown.
  - destruct (pending st !! id) as [k|] eqn:Hk; [|done].
    set (st0 := set_pending (delete id (pending st)) st).
    destruct k, r; cbn [resume]; cbv zeta; try done.
    + by destruct (0 <? _)%nat.
    + change (timeTravelContent (assignContent s (log (OSettle (now st) id KMountLatest (RString s)) st0))
              = shown (trace (assignContent s (log (OSettle (now st) id KMountLatest (RString s)) st0)))).
      by destruct (displayView_inv _ _ _ _ _ _
           (assignContent_display s (log (OSettle (now st) id KMountLatest (RString s)) st0)))
        as (-> & -> & _).
    + by destruct (negb _).
  - destruct (alive st); [|done]. apply Hdisp, onDestroy_display.
Qed.

Lemma shown_run doc es :
  timeTravelContent (run es (mount doc)) = shown (trace (run es (mount doc))).
Proof.
  induction es as [|e es IH] using rev_ind; [done|].
  rewrite run_app. by apply shown_step.
Qed.

Lemma jumpToVersion_empty i st : timestamps st = [] → jumpToVersion i st = st.
Proof. intros Hts. apply jumpToVersion_out_of_range. rewrite Hts. simpl. lia. Qed.

Lemma stepVersion_empty d st : timestamps st = [] → stepVersion d st = st.
Proof.
  intros Hts. destruct (timeTravelIndex st) as [|i rest] eqn:Hi.
  - unfold stepVersion. by rewrite Hi.
  - eapply stepVersion_out_of_range; [done|]. rewrite Hts. simpl. lia.
Qed.

Lemma navVisible_empty st : timestamps st = [] → navVisible st = false.
Proof.
  intros Hts. unfold navVisible. rewrite Hts. simpl.
  by rewrite andb_false_r.
Qed.

Lemma callStep_empty d st :
  timestamps st = [] → callStep d st = log (OStep (now st) d) st.
Proof. intros Hts. unfold callStep. by apply stepVersion_empty. Qed.

Lemma fire_empty h st :
  timestamps st = [] ∧ isTimeTravel st = false ∧ loads (trace st) = [] →
  timestamps (fire h st) = [] ∧ isTimeTravel (fire h st) = false ∧
  loads (trace (fire h st)) = [].
Proof.
  intros (Hts & Htt & Hl).
  assert (Hcb : ∀ c s, timestamps s = [] ∧ isTimeTravel s = false ∧ loads (trace s) = [] →
    timestamps (runCallback c s) = [] ∧ isTimeTravel (runCallback c s) = false ∧
    loads (trace (runCallback c s)) = []).
  { intros c s (H1 & H2 & H3). destruct c; cbn [runCallback].
    - destruct (displayView_inv _ _ _ _ _ _ (performSave_display s))
        as (_ & _ & -> & -> & ->). done.
    - done.
    - rewrite callStep_empty by done. done. }
  apply fire_cases; [done|..]; intros; by apply Hcb.
Qed.

(** While every timeline the backend returns is empty, no reconstruction
    is requested and time travel is never entered. *)
Lemma empty_step e st :
  keepsEmpty e = true →
  timestamps st = [] ∧ isTimeTravel st = false ∧ loads (trace st) = [] →
  timestamps (step e st) = [] ∧ isTimeTravel (step e st) = false ∧
  loads (trace (step e st)) = [].
Proof.
  intros Hk (Hts & Htt & Hl).
  assert (Hdisp : ∀ s', displayView s' = displayView st →
            timestamps s' = [] ∧ isTimeTravel s' = false ∧ loads (trace s') = []).
  { intros s' (_ & _ & ? & ? & ?)%displayView_inv. split; [|split]; congruence. }
  destruct e; cbn [step]; rewrite ?navVisible_empty by done; try done.
  - destruct (alive st); [|done]. apply Hdisp, assignContent_display.
  - by destruct (alive st).
  - destruct (_ && _); [|done]. unfold popoverEffect. simpl.
    destruct open; [done|]. apply Hdisp.
    apply (clearKeyHold_display (set_listening false (set_isPopoverOpen false st))).
  - destruct (listening st); [|done]. unfold handleKeyDown.
    destruct (negb _); [done|]. destruct (isArrow key); [|done].
    destruct (displayView_inv _ _ _ _ _ _ (clearKeyHold_display st))
      as (_ & _ & Hts' & Htt' & Hl').
    rewrite callStep_empty by congruence. simpl.
    split; [|split]; congruence.
  - destruct (listening st); [|done]. unfold handleKeyUp.
    destruct (isArrow key); [|done]. apply Hdisp, clearKeyHold_display.
  - unfold tick.
    apply (foldl_fire_preserves
      (λ s, timestamps s = [] ∧ isTimeTravel s = false ∧ loads (trace s) = []));
      [|done].
    intros h s. apply fire_empty.
  - destruct (pending st !! id) as [k|] eqn:Hp; [|done].
    set (st0 := set_pending (delete id (pending st)) st).
    destruct k, r as [s|[|z ts]|s|]; try discriminate Hk; cbn [resume]; cbv zeta;
      try done.
    + simpl. by rewrite Hts.
    + apply (Hdisp (set_timeTravelIndex _ (assignContent s
               (log (OSettle (now st) id KMountLatest (RString s)) st0)))).
      change (displayView (assignContent s
                (log (OSettle (now st) id KMountLatest (RString s)) st0))
              = displayView st).
      by rewrite assignContent_display.
    + simpl. by rewrite Htt.
  - destruct (alive st); [|done]. apply Hdisp, onDestroy_display.
Qed.

Lemma empty_run doc es :
  Forall (λ e, keepsEmpty e = true) es →
  timestamps (run es (mount doc)) = [] ∧ isTimeTravel (run es (mount doc)) = false ∧
  loads (trace (run es (mount doc))) = [].
Proof.
  induction es as [|e es IH] using rev_ind; intros Hes; [done|].
  apply Forall_app in Hes as [Hes He]. apply Forall_inv in He.
  rewrite run_app. apply empty_step; [exact He|]. by apply IH.
Qed.

(** C1, as the code has it: no sequence number is kept or compared; the
    continuation of [handleTimeTravelChange] stores whatever result
    arrives.  In every state the page reaches, the text on screen is the
    result of the navigation request that completed last (nothing after
    an exit from time travel), whatever the order of issue; a rejected
    request leaves the text as it was. *)
Theorem C1_last_completion_wins doc es :
  let st := run es (mount doc) in
  timeTravelContent st = shown (trace st) ∧
  ∀ id, pending st !! id = Some KLoadVersion →
    (∀ s, timeTravelContent (step (EReply id (RString s)) st) = s ∧
          versionResults (trace (step (EReply id (RString s)) st))
            = (id, s) :: versionResults (trace st)) ∧
    timeTravelContent (step (EReply id RError) st) = timeTravelContent st.
Proof.
  intros st. split; [apply shown_run|].
  intros id Hid. split; [intros s|]; by rewrite (step_reply _ _ _ _ Hid).
Qed.

Lemma C1_witness :
  let st := run [EReply 0 (RTimestamps [10; 20]%Z);
                 EReply 1 (RStats (mkStats 2 8 80 (10 # 1)));
                 EReply 2 (RString "two");
                 EPopover true;
                 ESlider [0%Z]; ESlider [1%Z];
                 EReply 4 (RString "two")]
              (mount "doc") in
  timeTravelContent st = shown (trace st) ∧
  timeTravelContent (step (EReply 3 (RString "one")) st) = "one".
Proof.
  intros st.
  destruct (C1_last_completion_wins "doc"
              [EReply 0 (RTimestamps [10; 20]%Z);
               EReply 1 (RStats (mkStats 2 8 80 (10 # 1)));
               EReply 2 (RString "two");
               EPopover true;
               ESlider [0%Z]; ESlider [1%Z];
               EReply 4 (RString "two")]) as [Hs Hr].
  split; [exact Hs|].
  destruct (Hr 3) as [H _]; [vm_compute; reflexivity|].
  apply (H "one").
Defined.

(** C9: with no known timestamp the navigation interface is inert:
    [jumpToVersion] and [stepVersion] return the state unchanged for every
    argument, and mounting, once the empty timeline and the statistics
    have arrived, issues no reconstruction request and leaves the
    content alone; over whole runs, as long as the backend reports an
    empty timeline no reconstruction is ever requested and time travel is
    never entered. *)
Theorem C9_empty_timeline_is_inert :
  (∀ st, timestamps st = [] →
     (∀ i, jumpToVersion i st = st) ∧
     (∀ d, stepVersion d st = st) ∧
     (∀ s, resume KMountStats (RStats s) st = set_stats (Some s) st)) ∧
  (∀ doc es, Forall (λ e, keepsEmpty e = true) es →
     let st := run es (mount doc) in
     timestamps st = [] ∧ isTimeTravel st = false ∧ loads (trace st) = []).
Proof.
  split.
  - intros st Hts. split; [|split].
    + intros i. by apply jumpToVersion_empty.
    + intros d. by apply stepVersion_empty.
    + intros s. unfold resume. simpl. by rewrite Hts.
  - intros doc es Hes st. by apply empty_run.
Qed.

Lemma C9_witness :
  let st := initial "doc" in
  let st' := run [EReply 0 (RTimestamps []); EReply 1 (RStats (mkStats 0 0 0 0));
                  EPopover true; ENext; EKeyDown "ArrowLeft"; ETick]
               (mount "doc") in
  jumpToVersion 0 st = st ∧ stepVersion 1 st = st ∧
  loads (trace st') = [] ∧ isTimeTravel st' = false.
Proof.
  intros st st'. destruct C9_empty_timeline_is_inert as [Hf Hr].
  destruct (Hf st) as (Hj & Hs & _); [reflexivity|].
  destruct (Hr "doc" [EReply 0 (RTimestamps []); EReply 1 (RStats (mkStats 0 0 0 0));
                      EPopover true; ENext; EKeyDown "ArrowLeft"; ETick])
    as (_ & Htt & Hl); [repeat constructor|].
  split; [apply Hj|]. split; [apply Hs|]. split; [exact Hl|exact Htt].
Defined.
(** * Further properties of the editor page *)

(** ** Saves are made by timer ticks only, and are spaced *)

Lemma saveQuiet_refl st : saveQuiet st st.
Proof. split; [done|]. split; [done|]. by left. Qed.

Lemma saveQuiet_trans s1 s2 s3 :
  saveQuiet s1 s2 → saveQuiet s2 s3 → saveQuiet s1 s3.
Proof.
  intros (Hp1 & Hn1 & Ht1) (Hp2 & Hn2 & Ht2).
  split; [congruence|]. split; [congruence|].
  intros u [Hu|Hd]%Ht2; [by apply Ht1|]. right. congruence.
Qed.

(** No save, the clock stands still and no save timer is added. *)
Lemma saveQuiet_sub st st' :
  patches (trace st') = patches (trace st) → now st' = now st →
  (∀ t, t ∈ timers st' → isSave t = true → t ∈ timers st) →
  saveQuiet st st'.
Proof.
  intros Hp Hn Ht. split; [done|]. split; [done|].
  intros u [Hs Hu]%list_elem_of_filter. left. apply save_elem; auto.
Qed.

(** A step that touches neither the log, the clock nor the timers. *)
Ltac quiet_same := first [apply saveQuiet_refl | by apply saveQuiet_sub].

Lemma saveQuiet_nav st st' : navFrame st st' → saveQuiet st st'.
Proof.
  intros (Ht & _ & _ & _ & _ & Hn & _ & _ & _ & _ & _ & _ & Hp).
  apply saveQuiet_sub; [done..|]. rewrite Ht. auto.
Qed.

Lemma handleContentChange_quiet st : saveQuiet st (handleContentChange st).
Proof.
  unfold handleContentChange. destruct (saveTimeout st); [quiet_same|].
  split; [done|]. split; [done|]. unfold saveTimers. simpl. rewrite filter_app.
  intros u [Hu|Hu]%elem_of_app; [by left|right].
  apply list_elem_of_filter in Hu as [_ ->%list_elem_of_singleton]. done.
Qed.

Lemma contentEffect_quiet st : saveQuiet st (contentEffect st).
Proof.
  unfold contentEffect.
  destruct (_ && _); [apply handleContentChange_quiet|quiet_same].
Qed.

Lemma assignContent_quiet c st : saveQuiet st (assignContent c st).
Proof.
  unfold assignContent. case_bool_decide; [quiet_same|].
  destruct (alive st); [|quiet_same].
  exact (contentEffect_quiet (set_content (Some c) st)).
Qed.

Lemma clearKeyHold_quiet st : saveQuiet st (clearKeyHold st).
Proof.
  apply saveQuiet_sub; [by rewrite clearKeyHold_trace|apply clearKeyHold_now|].
  intros t Hin _. by apply clearKeyHold_scrub.
Qed.

Lemma handleKeyDown_quiet key st : saveQuiet st (handleKeyDown key st).
Proof.
  unfold handleKeyDown. destruct (negb _); [quiet_same|].
  destruct (isArrow key); [|quiet_same]. cbv zeta.
  set (d := if bool_decide (key = "ArrowLeft") then (-1)%Z else 1%Z).
  eapply saveQuiet_trans; [apply clearKeyHold_quiet|].
  eapply saveQuiet_trans; [apply saveQuiet_nav, (callStep_frame d)|].
  apply saveQuiet_sub; [done..|]. simpl.
  intros t [Hin| ->%list_elem_of_singleton]%elem_of_app Hs; [done|].
  discriminate Hs.
Qed.

Lemma handleKeyUp_quiet key st : saveQuiet st (handleKeyUp key st).
Proof.
  unfold handleKeyUp.
  destruct (isArrow key); [apply clearKeyHold_quiet|quiet_same].
Qed.

Lemma popoverEffect_quiet st : saveQuiet st (popoverEffect st).
Proof.
  unfold popoverEffect. destruct (isPopoverOpen st); [quiet_same|].
  exact (clearKeyHold_quiet (set_listening false st)).
Qed.

Lemma onDestroy_trace st : trace (onDestroy st) = trace st ∧ now (onDestroy st) = now st.
Proof.
  unfold onDestroy. cbv zeta.
  destruct (truthy (saveTimeout st)); simpl;
    destruct (truthy (keyHoldInterval st)); simpl;
    destruct (truthy (keyHoldTimeout st)); done.
Qed.

Lemma onDestroy_quiet st : saveQuiet st (onDestroy st).
Proof.
  destruct (onDestroy_trace st) as [Htr Hn].
  apply saveQuiet_sub; [by rewrite Htr|done|].
  intros t Hin _. by apply onDestroy_timers in Hin as [? _].
Qed.

Lemma exitTimeTravel_quiet st : saveQuiet st (exitTimeTravel st).
Proof.
  unfold exitTimeTravel.
  set (st' := log (OExit (now st))
                (set_timeTravelContent "" (set_isTimeTravel false st))).
  destruct (_ && _); [exact (contentEffect_quiet st')|quiet_same].
Qed.

(** The code after an [await] saves nothing: [createPatch] is not called
    from a continuation. *)
Lemma resume_quiet k r st : saveQuiet st (resume k r st).
Proof.
  destruct k, r; cbn [resume]; cbv zeta;
    lazymatch goal with
    | |- saveQuiet st st => quiet_same
    | |- saveQuiet st (invoke _ _ _) => quiet_same
    | |- saveQuiet st (set_timeTravelContent _ _) => quiet_same
    | _ => idtac
    end.
  - destruct (0 <? _)%nat; [quiet_same|quiet_same].
  - exact (assignContent_quiet s st).
  - destruct (negb _); quiet_same.
Qed.

Lemma step_quiet e st : e ≠ ETick → saveQuiet st (step e st).
Proof.
  intros He. destruct e; try done; cbn [step].
  - destruct (alive st); [apply assignContent_quiet|quiet_same].
  - destruct (alive st); quiet_same.
  - destruct (_ && _); [|quiet_same].
    exact (popoverEffect_quiet (set_isPopoverOpen open st)).
  - destruct (navVisible st); [|quiet_same].
    apply saveQuiet_nav, handleTimeTravelChange_frame.
  - destruct (navVisible st); [|quiet_same].
    apply saveQuiet_nav, jumpToVersion_frame.
  - destruct (navVisible st); [|quiet_same].
    apply saveQuiet_nav, callStep_frame.
  - destruct (navVisible st); [|quiet_same].
    apply saveQuiet_nav, callStep_frame.
  - destruct (navVisible st); [|quiet_same].
    apply saveQuiet_nav, jumpToVersion_frame.
  - destruct (_ && _); [apply exitTimeTravel_quiet|quiet_same].
  - destruct (listening st); [apply handleKeyDown_quiet|quiet_same].
  - destruct (listening st); [apply handleKeyUp_quiet|quiet_same].
  - destruct (pending st !! id) as [k|]; [|quiet_same].
    set (st0 := log _ _). exact (resume_quiet k r st0).
  - destruct (alive st); [apply onDestroy_quiet|quiet_same].
Qed.

(** X1: nothing but a timer tick calls [createPatch]: typing, navigation,
    the keyboard, the popover, a reply of the backend and teardown leave
    the list of saves made as it was. *)
Theorem createPatch_only_on_ticks e st :
  e ≠ ETick → patches (trace (step e st)) = patches (trace st).
Proof. intros He. by destruct (step_quiet e st He) as [Hp _]. Qed.

Lemma createPatch_only_on_ticks_witness :
  patches (trace (step (EEdit "draft") (mount "doc"))) = patches (trace (mount "doc")).
Proof. apply createPatch_only_on_ticks. discriminate. Defined.

Lemma throttled_quiet st st' : throttled st → saveQuiet st st' → throttled st'.
Proof.
  intros (Hsp & Hpt & Htm) (Hp & Hn & Ht). unfold throttled.
  rewrite Hp, Hn. split; [done|]. split; [done|].
  intros u [Hu|Hd]%Ht; [by apply Htm|]. rewrite Hd. split; [lia|].
  intros p Hin%Hpt. lia.
Qed.

Lemma throttled_view st st' : saveView st' = saveView st → throttled st → throttled st'.
Proof.
  intros Hv Ht.
  destruct (saveView_inv st' _ _ _ _ _ _ Hv) as (Hts & _ & _ & Hp & Hn & _).
  apply (throttled_quiet st); [done|]. split; [done|]. split; [done|].
  rewrite Hts. by left.
Qed.

Lemma spaced_cons c t ps :
  spaced SAVE_THROTTLE_MS ps → (∀ p, p ∈ ps → p.2 + SAVE_THROTTLE_MS ≤ t) →
  spaced SAVE_THROTTLE_MS ((c, t) :: ps).
Proof.
  intros Hsp Hle i j p q Hij Hi Hj.
  destruct j as [|j]; [lia|]. cbn in Hj.
  destruct i as [|i].
  - cbn in Hi. injection Hi as <-. cbn. apply Hle. by eapply list_elem_of_lookup_2.
  - cbn in Hi. apply (Hsp i j); [lia|done..].
Qed.

(** What firing a due save timer does, whatever the content. *)
Lemma fire_save_any t st :
  Inv st → t ∈ timers st → cb t = SaveCb → due t ≤ now st →
  saveTimers (fire (handle t) st) = [] ∧ now (fire (handle t) st) = now st ∧
  patches (trace (fire (handle t) st)) =
    match content st with
    | Some c => (c, now st) :: patches (trace st)
    | None => patches (trace st)
    end.
Proof.
  intros HI Hin Hc Hd.
  assert (Hs : isSave t = true) by (unfold isSave; by rewrite Hc).
  assert (Hk : isHoldInterval t = false) by (unfold isHoldInterval; by rewrite Hc).
  pose proof (inv_oneshot _ _ _ _ _ _ HI _ Hin Hk) as Hp.
  rewrite (fire_due t st HI Hin Hd), Hc, Hp. simpl.
  assert (Hnil : filter (λ u, isSave u = true)
                   (filter (λ u, handle u ≠ handle t) (timers st)) = []).
  { apply (filter_nil_iff (λ u, isSave u = true)).
    intros u [Hne Hu]%list_elem_of_filter Hsu. apply Hne.
    pose proof (inv_save _ _ _ _ _ _ HI _ Hin Hs).
    pose proof (inv_save _ _ _ _ _ _ HI _ Hu Hsu). congruence. }
  unfold performSave, saveTimers. simpl content.
  destruct (content st); simpl; by rewrite Hnil.
Qed.

Lemma throttled_fire h st : Inv st → throttled st → throttled (fire h st).
Proof.
  intros HI Ht.
  destruct (findTimer h (timers st)) as [t|] eqn:E;
    [|unfold fire; by rewrite E].
  apply findTimer_Some in E as [Hin <-].
  destruct (isSave t) eqn:Hs;
    [|apply (throttled_view st), Ht; apply fire_save_frame; [done|];
      intros u Hu Hh; left;
      by rewrite (handle_inj _ u t (inv_nodup _ _ _ _ _ _ HI) Hu Hin Hh)].
  destruct (decide (due t ≤ now st)) as [Hd|Hd];
    [|apply (throttled_view st), Ht; apply fire_save_frame; [done|];
      intros u Hu Hh; right;
      rewrite (handle_inj _ u t (inv_nodup _ _ _ _ _ _ HI) Hu Hin Hh); lia].
  assert (Hc : cb t = SaveCb) by (unfold isSave in Hs; by destruct (cb t)).
  destruct (fire_save_any t st HI Hin Hc Hd) as (Hts & Hn & Hp).
  destruct Ht as (Hsp & Hpt & Htm).
  destruct (Htm t (save_elem st t Hin Hs)) as [Hlo Hgap].
  unfold throttled. rewrite Hts, Hn, Hp.
  destruct (content st) as [c|].
  - split; [|split].
    + apply spaced_cons; [done|]. intros p Hp'%Hgap. lia.
    + intros p [->|Hp']%elem_of_cons; [simpl; lia|by apply Hpt].
    + by intros u Hu%elem_of_nil.
  - split; [done|]. split; [done|]. by intros u Hu%elem_of_nil.
Qed.

Lemma throttled_tick st : Inv st → throttled st → throttled (tick st).
Proof.
  intros HI Ht. unfold tick.
  apply (foldl_fire_preserves (λ s, Inv s ∧ throttled s)).
  - intros h s [HIs Hts]. split; [by apply Inv_fire|by apply throttled_fire].
  - split; [done|]. destruct Ht as (Hsp & Hpt & Htm).
    split; [done|]. split; [|done]. intros p Hp%Hpt. simpl. lia.
Qed.

Lemma throttled_step e st : Inv st → throttled st → throttled (step e st).
Proof.
  intros HI Ht.
  assert (e = ETick ∨ e ≠ ETick) as [->|He] by (destruct e; (by left) || (by right)).
  - by apply throttled_tick.
  - eapply throttled_quiet; [done|by apply step_quiet].
Qed.

Lemma throttled_mount doc : throttled (mount doc).
Proof.
  split; [|split].
  - intros i j p q _ Hi. by destruct i.
  - by intros p Hp%elem_of_nil.
  - intros u Hu. apply list_elem_of_filter in Hu as [_ Hu].
    apply list_elem_of_singleton in Hu as ->. split; [done|].
    by intros p Hp%elem_of_nil.
Qed.

Lemma throttled_run doc es : throttled (run es (mount doc)).
Proof.
  induction es as [|e es IH] using rev_ind; [apply throttled_mount|].
  rewrite run_app. apply throttled_step; [apply Inv_run|done].
Qed.

(** X2: in every state the page reaches, two calls of [createPatch] are
    at least SAVE_THROTTLE_MS (500 ms) apart, and none is made during the
    first 500 ms after the page was opened. *)
Theorem saves_are_spaced doc es :
  let st := run es (mount doc) in
  spaced SAVE_THROTTLE_MS (patches (trace st)) ∧
  ∀ c t, (c, t) ∈ patches (trace st) → SAVE_THROTTLE_MS ≤ t ≤ now st.
Proof.
  intros st. destruct (throttled_run doc es) as (Hsp & Hpt & _).
  split; [done|]. intros c t Hin. apply (Hpt _ Hin).
Qed.

Lemma saves_are_spaced_witness :
  let es := replicate 500 ETick
            ++ [EReply 1 (RString "ok"); EReply 2 (RTimestamps [500%Z]);
                EReply 3 (RStats (mkStats 1 2 0 (0 # 1))); EEdit "a"]
            ++ replicate 500 ETick in
  patches (trace (run es (mount "doc"))) = [("a", 1000); ("", 500)] ∧
  500 + SAVE_THROTTLE_MS ≤ 1000.
Proof.
  intros es. split; [vm_compute; reflexivity|].
  destruct (saves_are_spaced "doc" es) as [Hsp _].
  apply (Hsp 0 1 ("a", 1000) ("", 500)); [lia|vm_compute; reflexivity..].
Defined.

(** ** One save at a time *)

Lemma saveTimers_nil st :
  saveTimers st = [] ↔ ∀ t, t ∈ timers st → isSave t = false.
Proof.
  unfold saveTimers. rewrite filter_nil_iff. split; intros Hno t Hin.
  - destruct (isSave t) eqn:E; [|done]. by destruct (Hno t Hin).
  - rewrite (Hno t Hin). done.
Qed.

Lemma Inv_save_counts st :
  Inv st →
  length (saveTimers st) ≤ 1 ∧
  (∀ t, t ∈ saveTimers st → saveTimeout st = Some (handle t)) ∧
  (∀ id k, pending st !! id = Some k → isSaveCont k = true →
     saveTimers st = [] ∧ saveTimeout st ≠ None).
Proof.
  intros HI. split; [|split].
  - destruct (saveTimeout st) as [h|] eqn:Hsv.
    + apply (at_most_one _ _ h); [apply HI|]. intros t Hin Hs.
      pose proof (inv_save _ _ _ _ _ _ HI _ Hin Hs). congruence.
    + replace (saveTimers st) with (@nil Timer); [simpl; lia|].
      symmetry. apply saveTimers_nil. intros t Hin.
      destruct (isSave t) eqn:E; [|done].
      pose proof (inv_save _ _ _ _ _ _ HI _ Hin E). congruence.
  - intros t [Hs Hin]%list_elem_of_filter. by apply (inv_save _ _ _ _ _ _ HI).
  - intros id k Hk Hs.
    destruct (inv_saving _ _ _ _ _ _ HI id k Hk Hs) as (Hsv & Hno & _).
    split; [by apply saveTimers_nil|done].
Qed.

(** X3: in every state the page reaches at most one save timer is armed,
    and it is the one [saveTimeout] names; while a save is in flight (its
    createPatch or one of the two refresh calls has not answered yet) no
    save timer is armed, [saveTimeout] is still set, and no second save is
    in flight. *)
Theorem one_save_at_a_time doc es :
  let st := run es (mount doc) in
  length (saveTimers st) ≤ 1 ∧
  (∀ t, t ∈ saveTimers st → saveTimeout st = Some (handle t)) ∧
  (∀ id k, pending st !! id = Some k → isSaveCont k = true →
     saveTimers st = [] ∧ saveTimeout st ≠ None ∧
     ∀ id' k', pending st !! id' = Some k' → isSaveCont k' = true → id' = id).
Proof.
  intros st. pose proof (Inv_run doc es : Inv st) as HI.
  destruct (Inv_save_counts st HI) as (Hlen & Hnm & Hfl).
  split; [done|]. split; [done|]. intros id k Hk Hs.
  destruct (Hfl id k Hk Hs) as [Hnil Hsv]. split; [done|]. split; [done|].
  by destruct (inv_saving _ _ _ _ _ _ HI id k Hk Hs) as (_ & _ & Hone).
Qed.

Lemma one_save_at_a_time_witness :
  let st := run (replicate 500 ETick) (mount "doc") in
  pending st !! 1 = Some KSaveCreate ∧ saveTimers st = [] ∧ saveTimeout st ≠ None.
Proof.
  intros st. assert (Hk : pending st !! 1 = Some KSaveCreate) by (vm_compute; reflexivity).
  split; [exact Hk|].
  destruct (one_save_at_a_time "doc" (replicate 500 ETick)) as (_ & _ & Hfl).
  destruct (Hfl 1 KSaveCreate Hk eq_refl) as (Hnil & Hsv & _). by split.
Defined.

(** An edit while [saveTimeout] is set only replaces the content. *)
Lemma edit_while_pending c st :
  saveTimeout st ≠ None → alive st = true →
  step (EEdit c) st = if bool_decide (content st = Some c) then st
                      else set_content (Some c) st.
Proof.
  intros Hsv Ha. cbn [step]. rewrite Ha. unfold assignContent.
  case_bool_decide; [done|]. rewrite Ha. by apply contentEffect_pending.
Qed.

(** ** Teardown *)

Lemma onDestroy_save_timer st t :
  t ∈ timers (onDestroy st) →
  truthy (saveTimeout st) = true → saveTimeout st ≠ Some (handle t).
Proof.
  unfold onDestroy. cbv zeta.
  set (st1 := if truthy (saveTimeout st) then clearTimer _ st else st).
  set (st2 := if truthy (keyHoldInterval st1) then clearTimer _ st1 else st1).
  intros Hin.
  change (t ∈ timers (if truthy (keyHoldTimeout st2)
                      then clearTimer (default 0 (keyHoldTimeout st2)) st2
                      else st2)) in Hin.
  revert Hin. rewrite elem_if_clear. unfold st2. rewrite elem_if_clear.
  unfold st1. rewrite elem_if_clear.
  intros (_ & _ & H1 & _) Htr Heq. apply (H1 Htr). by rewrite Heq.
Qed.

(** Teardown clears every timer the page can have armed. *)
Lemma onDestroy_clears st : Inv st → timers (onDestroy st) = [].
Proof.
  intros HI. destruct (onDestroy_no_hold st HI) as [Hi Ht].
  rewrite holdIntervals_nil in Hi. rewrite holdTimeouts_nil in Ht.
  assert (Hnone : ∀ t, t ∈ timers (onDestroy st) → False).
  { intros t Hin. specialize (Hi t Hin). specialize (Ht t Hin).
    assert (Hs : isSave t = true).
    { unfold isSave, isHoldInterval, isHoldTimeout in *. by destruct (cb t). }
    pose proof (onDestroy_save_timer st t Hin) as Hno.
    apply onDestroy_timers in Hin as [Hin _].
    pose proof (inv_save _ _ _ _ _ _ HI _ Hin Hs) as Hsv.
    pose proof (inv_bound _ _ _ _ _ _ HI _ Hin) as Hb.
    apply Hno; [|done]. eapply truthy_bound; [done|lia]. }
  destruct (timers (onDestroy st)) as [|t l]; [done|].
  destruct (Hnone t). left.
Qed.

Lemma onDestroy_tornDown st : Inv st → tornDown (onDestroy st).
Proof.
  intros HI. split; [|split; [|by apply onDestroy_clears]];
    unfold onDestroy; cbv zeta; done.
Qed.

(** Once torn down, the page stays so, saves nothing and takes no step. *)
Lemma tornDown_step e st :
  tornDown st →
  tornDown (step e st) ∧ patches (trace (step e st)) = patches (trace st) ∧
  steps (trace (step e st)) = steps (trace st).
Proof.
  intros (Ha & Hl & Ht). destruct e; cbn [step];
    rewrite ?Ha, ?Hl; unfold navVisible; rewrite ?Ha; cbn [andb];
    try done.
  - (* a tick *)
    unfold tick, dueHandles. simpl timers. rewrite Ht. done.
  - (* a reply *)
    destruct (pending st !! id) as [k|]; [|done].
    set (st0 := log _ _).
    assert (H0 : tornDown st0) by done.
    assert (Hp0 : patches (trace st0) = patches (trace st)) by done.
    assert (Hs0 : steps (trace st0) = steps (trace st)) by done.
    clearbody st0. rewrite <- Hp0, <- Hs0.
    destruct H0 as (Ha0 & Hl0 & Ht0).
    destruct k, r; cbn [resume]; cbv zeta; try done.
    + by destruct (0 <? _)%nat.
    + unfold assignContent. rewrite Ha0. by case_bool_decide.
    + by destruct (negb _).
Qed.

(** X5: [onDestroy] clears every timer; from then on no timer is armed
    again, [createPatch] is not called again and no navigation step is
    taken, whatever happens (ticks, late replies of the backend, stray
    input events). *)
Theorem nothing_after_teardown doc es es' :
  let st := onDestroy (run es (mount doc)) in
  let st' := run es' st in
  timers st = [] ∧ tornDown st' ∧
  patches (trace st') = patches (trace st) ∧
  steps (trace st') = steps (trace st).
Proof.
  intros st st'.
  pose proof (onDestroy_tornDown _ (Inv_run doc es) : tornDown st) as Htd.
  split; [apply Htd|]. unfold st'. clearbody st. clear st'.
  induction es' as [|e es' IH] using rev_ind; [done|].
  rewrite run_app. cbn [run foldl].
  destruct IH as (Htd' & Hp & Hs).
  destruct (tornDown_step e _ Htd') as (H1 & H2 & H3).
  split; [done|]. split; congruence.
Qed.

(** ** What changes the content *)

Lemma clearKeyHold_content st : content (clearKeyHold st) = content st.
Proof. clearKeyHold_cases st; done. Qed.

Lemma handleContentChange_content st : content (handleContentChange st) = content st.
Proof. unfold handleContentChange. by destruct (saveTimeout st). Qed.

Lemma contentEffect_content st : content (contentEffect st) = content st.
Proof.
  unfold contentEffect. destruct (_ && _); [apply handleContentChange_content|done].
Qed.

Lemma assignContent_content c st : content (assignContent c st) = Some c.
Proof.
  unfold assignContent. case_bool_decide; [done|].
  destruct (alive st); [|done].
  by rewrite (contentEffect_content (set_content (Some c) st)).
Qed.

Lemma navFrame_content st st' : navFrame st st' → content st' = content st.
Proof. by intros (_ & _ & _ & _ & _ & _ & Hc & _). Qed.

Lemma handleKeyDown_content key st : content (handleKeyDown key st) = content st.
Proof.
  unfold handleKeyDown. destruct (negb _); [done|].
  destruct (isArrow key); [|done]. cbv zeta.
  set (d := if bool_decide (key = "ArrowLeft") then (-1)%Z else 1%Z).
  simpl. by rewrite (navFrame_content _ _ (callStep_frame d (clearKeyHold st))),
    clearKeyHold_content.
Qed.

Lemma onDestroy_content st : content (onDestroy st) = content st.
Proof.
  unfold onDestroy. cbv zeta.
  destruct (truthy (saveTimeout st)); simpl;
    destruct (truthy (keyHoldInterval st)); simpl;
    destruct (truthy (keyHoldTimeout st)); done.
Qed.

Lemma exitTimeTravel_content st : content (exitTimeTravel st) = content st.
Proof.
  unfold exitTimeTravel.
  set (st' := log (OExit (now st))
                (set_timeTravelContent "" (set_isTimeTravel false st))).
  destruct (_ && _); [exact (contentEffect_content st')|done].
Qed.

Lemma runCallback_content c st : content (runCallback c st) = content st.
Proof.
  destruct c; simpl.
  - unfold performSave. by destruct (content st) eqn:E; simpl; rewrite ?E.
  - done.
  - apply navFrame_content, callStep_frame.
Qed.

Lemma tick_content st : content (tick st) = content st.
Proof.
  unfold tick.
  apply (foldl_fire_preserves (λ s, content s = content st)); [|done].
  intros h s Hs. apply fire_cases; [done|..]; intros;
    by rewrite runCallback_content.
Qed.

Lemma advance_content n st : content (advance n st) = content st.
Proof.
  revert st. induction n as [|n IH]; intros st; [done|].
  cbn [advance]. by rewrite IH, tick_content.
Qed.

(** The content after an event is the content before it, unless the event
    is an edit or the answer to the load request of onMount. *)
Lemma step_content_cases e st :
  content (step e st) = content st ∨
  ∃ c, content (step e st) = Some c ∧
       (e = EEdit c ∨
        ∃ id, e = EReply id (RString c) ∧ pending st !! id = Some KMountLatest).
Proof.
  destruct e; cbn [step];
    try (left;
         first [ by destruct (alive st)
               | by destruct (navVisible st); [apply navFrame_content;
                     first [apply handleTimeTravelChange_frame
                           |apply jumpToVersion_frame|apply callStep_frame]|]
               | apply tick_content ]).
  - destruct (alive st); [|by left]. right. exists c.
    split; [apply assignContent_content|by left].
  - left. destruct (_ && _); [|done]. unfold popoverEffect. simpl.
    destruct open; [done|].
    exact (clearKeyHold_content (set_listening false (set_isPopoverOpen false st))).
  - left. destruct (_ && _); [apply exitTimeTravel_content|done].
  - left. destruct (listening st); [apply handleKeyDown_content|done].
  - left. destruct (listening st); [|done]. unfold handleKeyUp.
    destruct (isArrow key); [apply clearKeyHold_content|done].
  - destruct (pending st !! id) as [k|] eqn:Hk; [|by left].
    set (st0 := log _ _).
    destruct k, r; cbn [resume]; cbv zeta;
      lazymatch goal with
      | |- context [assignContent] => idtac
      | _ => left
      end; try done.
    + by destruct (0 <? _)%nat.
    + right. exists s. split; [|right; by exists id].
      exact (assignContent_content s st0).
    + by destruct (negb _).
  - left. destruct (alive st); [apply onDestroy_content|done].
Qed.

(** X6: the content of the editor is changed by typing and by the answer
    to the load request of onMount, and by nothing else: navigation through
    the history, the keyboard, the popover, the timers, saves and their
    refreshes, and teardown leave it as it is. *)
Theorem content_changed_only_by_typing_and_load e st :
  (∀ c, e ≠ EEdit c) →
  (∀ id s, e = EReply id (RString s) → pending st !! id ≠ Some KMountLatest) →
  content (step e st) = content st.
Proof.
  intros He Hr. destruct (step_content_cases e st) as [?|(c & _ & [->|(id & -> & Hk)])];
    [done|by destruct (He c)|by destruct (Hr id c eq_refl)].
Qed.

Lemma content_changed_only_by_typing_and_load_witness :
  let st := run [EReply 0 (RTimestamps [1; 2]%Z); EPopover true] (mount "doc") in
  content (step (ESlider [0%Z]) st) = content st.
Proof.
  intros st. apply content_changed_only_by_typing_and_load; [discriminate..].
Defined.

Lemma content_some doc es : ∃ c, content (run es (mount doc)) = Some c.
Proof.
  induction es as [|e es [c IH]] using rev_ind; [by exists ""|].
  rewrite run_app. cbn [run foldl].
  destruct (step_content_cases e (run es (mount doc))) as [->|(c' & -> & _)]; eauto.
Qed.

(** ** The timer variables name timers of their own kind *)

Lemma kind_cb (t u : Timer) :
  cb t = cb u →
  isSave t = isSave u ∧ isHoldTimeout t = isHoldTimeout u ∧
  isHoldInterval t = isHoldInterval u.
Proof. unfold isSave, isHoldTimeout, isHoldInterval. by intros ->. Qed.

(** Timers are dropped or re-armed, variables are kept or reset. *)
Lemma varsFresh_sim st st' :
  varsFresh st →
  (∀ t', t' ∈ timers st' → ∃ t, t ∈ timers st ∧ handle t' = handle t ∧ cb t' = cb t) →
  (saveTimeout st' = saveTimeout st ∨ saveTimeout st' = None) →
  (keyHoldTimeout st' = keyHoldTimeout st ∨ keyHoldTimeout st' = None) →
  (keyHoldInterval st' = keyHoldInterval st ∨ keyHoldInterval st' = None) →
  nextHandle st ≤ nextHandle st' →
  varsFresh st'.
Proof.
  intros [HA HB] Hts Hsv Hkt Hki Hnh. split.
  - intros t' (t & Hin & Hh & Hc)%Hts.
    destruct (kind_cb t' t Hc) as (E1 & E2 & E3). rewrite E1, E2, E3, Hh.
    clear E1 E2 E3.
    destruct (HA t Hin) as (H1 & H2 & H3).
    split; [|split]; intros Hv.
    + destruct Hsv as [E|E]; rewrite E in Hv; [auto|done].
    + destruct Hkt as [E|E]; rewrite E in Hv; [auto|done].
    + destruct Hki as [E|E]; rewrite E in Hv; [auto|done].
  - intros h Hv. enough (h < nextHandle st) by lia. apply HB.
    destruct Hv as [Hv|[Hv|Hv]];
      [destruct Hsv as [E|E]|destruct Hkt as [E|E]|destruct Hki as [E|E]];
      rewrite E in Hv; try done; auto.
Qed.

Lemma varsFresh_nav st st' : navFrame st st' → varsFresh st → varsFresh st'.
Proof.
  intros (Ht & Hnh & Hsv & Hkt & Hki & _) Hv.
  eapply varsFresh_sim; [exact Hv| |auto..|lia].
  rewrite Ht. intros t Hin. by exists t.
Qed.

(** Arming a timer under a fresh handle and storing the handle in the
    variable of its kind. *)
Lemma varsFresh_arm c d p st st' :
  Inv st → varsFresh st →
  timers st' = timers st ++ [mkTimer (nextHandle st) d p c] →
  nextHandle st' = S (nextHandle st) →
  match c with
  | SaveCb => saveTimeout st' = Some (nextHandle st) ∧
              keyHoldTimeout st' = keyHoldTimeout st ∧
              keyHoldInterval st' = keyHoldInterval st
  | HoldTimeoutCb _ => keyHoldTimeout st' = Some (nextHandle st) ∧
              saveTimeout st' = saveTimeout st ∧
              keyHoldInterval st' = keyHoldInterval st
  | HoldIntervalCb _ => keyHoldInterval st' = Some (nextHandle st) ∧
              saveTimeout st' = saveTimeout st ∧
              keyHoldTimeout st' = keyHoldTimeout st
  end →
  varsFresh st'.
Proof.
  intros HI [HA HB] Ht Hnh Hvars.
  assert (Hold : ∀ t, t ∈ timers st → handle t ≠ nextHandle st).
  { intros t Hin. pose proof (inv_bound _ _ _ _ _ _ HI _ Hin). lia. }
  assert (Hlt : ∀ v, (v = saveTimeout st ∨ v = keyHoldTimeout st
                      ∨ v = keyHoldInterval st) → v ≠ Some (nextHandle st)).
  { intros v Hv E. enough (nextHandle st < nextHandle st) by lia. apply HB.
    destruct Hv as [-> | [-> | ->] ]; auto. }
  split.
  - rewrite Ht. intros t [Hin| ->%list_elem_of_singleton]%elem_of_app.
    + destruct (HA t Hin) as (H1 & H2 & H3). specialize (Hold t Hin).
      destruct c; destruct Hvars as (E1 & E2 & E3); rewrite E1, E2, E3;
        (split; [|split]); first [done | congruence].
    + unfold isSave, isHoldTimeout, isHoldInterval. simpl.
      destruct c; destruct Hvars as (E1 & E2 & E3); rewrite E2, E3;
        (split; [|split]); intros Hv; try done;
        exfalso; revert Hv; apply Hlt; auto.
  - rewrite Hnh. intros h Hv.
    destruct c; destruct Hvars as (E1 & E2 & E3); rewrite E1, E2, E3 in Hv;
      destruct Hv as [Hv|[Hv|Hv]];
      first [ injection Hv as <-; lia
            | enough (h < nextHandle st) by lia; apply HB; auto ].
Qed.

Lemma varsFresh_handleContentChange st :
  Inv st → varsFresh st → varsFresh (handleContentChange st).
Proof.
  intros HI Hv. unfold handleContentChange.
  destruct (saveTimeout st); [done|].
  by eapply (varsFresh_arm SaveCb _ _ st).
Qed.

Lemma varsFresh_contentEffect st :
  Inv st → varsFresh st → varsFresh (contentEffect st).
Proof.
  intros HI Hv. unfold contentEffect.
  destruct (_ && _); [by apply varsFresh_handleContentChange|done].
Qed.

Lemma varsFresh_assignContent c st :
  Inv st → varsFresh st → varsFresh (assignContent c st).
Proof.
  intros HI Hv. unfold assignContent. case_bool_decide; [done|].
  destruct (alive st); [|done].
  by apply (varsFresh_contentEffect (set_content (Some c) st)).
Qed.

Lemma varsFresh_clearTimer h st : varsFresh st → varsFresh (clearTimer h st).
Proof.
  intros Hv. eapply varsFresh_sim; [exact Hv| |auto..].
  intros t [_ Hin]%list_elem_of_filter. by exists t.
Qed.

Lemma varsFresh_clearHoldInterval st :
  varsFresh st → varsFresh (clearHoldInterval st).
Proof.
  intros Hv. unfold clearHoldInterval.
  destruct (keyHoldInterval st) as [h|]; [|done].
  destruct (truthy (Some h)); [|done].
  eapply varsFresh_sim; [exact Hv| |auto..].
  intros t [_ Hin]%list_elem_of_filter. by exists t.
Qed.

Lemma varsFresh_clearHoldTimeout st :
  varsFresh st → varsFresh (clearHoldTimeout st).
Proof.
  intros Hv. unfold clearHoldTimeout.
  destruct (keyHoldTimeout st) as [h|]; [|done].
  destruct (truthy (Some h)); [|done].
  eapply varsFresh_sim; [exact Hv| |auto..].
  intros t [_ Hin]%list_elem_of_filter. by exists t.
Qed.

Lemma varsFresh_clearKeyHold st : varsFresh st → varsFresh (clearKeyHold st).
Proof.
  intros Hv. by apply varsFresh_clearHoldTimeout, varsFresh_clearHoldInterval.
Qed.

Lemma varsFresh_handleKeyDown key st :
  Inv st → varsFresh st → varsFresh (handleKeyDown key st).
Proof.
  intros HI Hv. unfold handleKeyDown. destruct (negb _); [done|].
  destruct (isArrow key); [|done]. cbv zeta.
  set (d := if bool_decide (key = "ArrowLeft") then (-1)%Z else 1%Z).
  destruct (clearKeyHold_spec st HI) as (HI1 & _).
  pose proof (varsFresh_clearKeyHold st Hv) as Hv1.
  pose proof (Inv_callStep d _ HI1) as HI2.
  pose proof (varsFresh_nav _ _ (callStep_frame d (clearKeyHold st)) Hv1) as Hv2.
  by eapply (varsFresh_arm (HoldTimeoutCb d) _ _ (callStep d (clearKeyHold st))).
Qed.

Lemma varsFresh_popoverEffect st : varsFresh st → varsFresh (popoverEffect st).
Proof.
  intros Hv. unfold popoverEffect. destruct (isPopoverOpen st); [done|].
  by apply (varsFresh_clearKeyHold (set_listening false st)).
Qed.

Lemma onDestroy_vars st :
  saveTimeout (onDestroy st) = saveTimeout st ∧
  keyHoldTimeout (onDestroy st) = keyHoldTimeout st ∧
  keyHoldInterval (onDestroy st) = keyHoldInterval st ∧
  nextHandle (onDestroy st) = nextHandle st.
Proof.
  unfold onDestroy. cbv zeta.
  destruct (truthy (saveTimeout st)); simpl;
    destruct (truthy (keyHoldInterval st)); simpl;
    destruct (truthy (keyHoldTimeout st)); done.
Qed.

Lemma varsFresh_onDestroy st : varsFresh st → varsFresh (onDestroy st).
Proof.
  intros Hv. destruct (onDestroy_vars st) as (H1 & H2 & H3 & H4).
  eapply varsFresh_sim; [exact Hv| |auto..|lia].
  intros t [Hin _]%onDestroy_timers. by exists t.
Qed.

Lemma varsFresh_exitTimeTravel st :
  Inv st → varsFresh st → varsFresh (exitTimeTravel st).
Proof.
  intros HI Hv. unfold exitTimeTravel.
  destruct (_ && _); [by apply varsFresh_contentEffect|done].
Qed.

Lemma varsFresh_runCallback c st :
  Inv st → varsFresh st → varsFresh (runCallback c st).
Proof.
  intros HI Hv. destruct c as [|d|d]; simpl.
  - unfold performSave. destruct (content st); [done|].
    eapply varsFresh_sim; [exact Hv| |simpl; auto..]. intros t Hin. by exists t.
  - by eapply (varsFresh_arm (HoldIntervalCb d) _ _ st).
  - eapply varsFresh_nav; [apply callStep_frame|done].
Qed.

Lemma varsFresh_fire h st : Inv st → varsFresh st → varsFresh (fire h st).
Proof.
  intros HI Hv. apply fire_cases; [done|..].
  - intros t Hin Hh Hd Hp.
    apply varsFresh_runCallback; [by apply Inv_clearTimer|by apply varsFresh_clearTimer].
  - intros t p Hin Hh Hd Hp.
    apply varsFresh_runCallback; [by apply Inv_rearm|].
    eapply varsFresh_sim; [exact Hv| |simpl; auto..].
    intros u' Hu'. destruct (rearm_elem t p (timers st) u') as (u & ? & ? & ? & _);
      [apply HI|done..|by exists u].
Qed.

Lemma varsFresh_tick st : Inv st → varsFresh st → varsFresh (tick st).
Proof.
  intros HI Hv. unfold tick.
  apply (foldl_fire_preserves (λ s, Inv s ∧ varsFresh s)); [|done].
  intros h s [HIs Hvs]. split; [by apply Inv_fire|by apply varsFresh_fire].
Qed.

Lemma varsFresh_resume k r st : Inv st → varsFresh st → varsFresh (resume k r st).
Proof.
  intros HI Hv.
  assert (Hsame : ∀ st', timers st' = timers st → nextHandle st' = nextHandle st →
            keyHoldTimeout st' = keyHoldTimeout st →
            keyHoldInterval st' = keyHoldInterval st →
            (saveTimeout st' = saveTimeout st ∨ saveTimeout st' = None) →
            varsFresh st').
  { intros st' Ht Hn Hkt Hki Hsv. eapply varsFresh_sim; [exact Hv| |auto..|lia].
    rewrite Ht. intros t Hin. by exists t. }
  destruct k, r; cbn [resume]; cbv zeta;
    lazymatch goal with
    | |- context [assignContent] => idtac
    | |- context [negb] => idtac
    | |- context [Nat.ltb] => idtac
    | _ => apply Hsame; auto
    end.
  - destruct (0 <? _)%nat; apply Hsame; auto.
  - pose proof (varsFresh_assignContent s st HI Hv) as Hv1.
    eapply varsFresh_sim; [exact Hv1| |auto..]. intros t Hin. by exists t.
  - destruct (negb _); apply Hsame; auto.
Qed.

Lemma varsFresh_step e st : Inv st → varsFresh st → varsFresh (step e st).
Proof.
  intros HI Hv. destruct e; cbn [step].
  - destruct (alive st); [by apply varsFresh_assignContent|done].
  - by destruct (alive st).
  - destruct (_ && _); [|done].
    by apply (varsFresh_popoverEffect (set_isPopoverOpen open st)).
  - destruct (navVisible st); [|done].
    eapply varsFresh_nav; [apply handleTimeTravelChange_frame|done].
  - destruct (navVisible st); [|done].
    eapply varsFresh_nav; [apply jumpToVersion_frame|done].
  - destruct (navVisible st); [|done].
    eapply varsFresh_nav; [apply callStep_frame|done].
  - destruct (navVisible st); [|done].
    eapply varsFresh_nav; [apply callStep_frame|done].
  - destruct (navVisible st); [|done].
    eapply varsFresh_nav; [apply jumpToVersion_frame|done].
  - destruct (_ && _); [by apply varsFresh_exitTimeTravel|done].
  - destruct (listening st); [by apply varsFresh_handleKeyDown|done].
  - destruct (listening st); [|done]. unfold handleKeyUp.
    destruct (isArrow key); [by apply varsFresh_clearKeyHold|done].
  - by apply varsFresh_tick.
  - destruct (pending st !! id) as [k|] eqn:Hk; [|done].
    apply varsFresh_resume; [|done].
    unfold Inv. simpl. by apply InvCore_delete.
  - destruct (alive st); [by apply varsFresh_onDestroy|done].
Qed.

Lemma varsFresh_mount doc : varsFresh (mount doc).
Proof.
  split.
  - intros t Hin. apply list_elem_of_singleton in Hin as ->.
    split; [done|]. split; intros Hv; discriminate Hv.
  - intros h [Hv|[Hv|Hv]]; try discriminate Hv. injection Hv as <-. simpl. lia.
Qed.

Lemma varsFresh_run doc es : varsFresh (run es (mount doc)).
Proof.
  induction es as [|e es IH] using rev_ind; [apply varsFresh_mount|].
  rewrite run_app. apply varsFresh_step; [apply Inv_run|done].
Qed.

(** ** A pending save fires on time *)

Lemma kinds_exclusive t :
  isSave t = true → isHoldTimeout t = false ∧ isHoldInterval t = false.
Proof. unfold isSave, isHoldTimeout, isHoldInterval. by destruct (cb t). Qed.

Lemma clearHoldInterval_keeps st t :
  varsFresh st → t ∈ timers st → isSave t = true → t ∈ timers (clearHoldInterval st).
Proof.
  intros [HA _] Hin Hs. unfold clearHoldInterval.
  destruct (keyHoldInterval st) as [h|] eqn:Hki; [|done].
  destruct (truthy (Some h)); [|done]. simpl.
  apply list_elem_of_filter. split; [|done]. intros Heq.
  destruct (HA t Hin) as (_ & _ & H3). destruct (kinds_exclusive t Hs) as [_ Hn].
  rewrite H3 in Hn; [done|]. by rewrite Heq.
Qed.

Lemma clearHoldTimeout_keeps st t :
  varsFresh st → t ∈ timers st → isSave t = true → t ∈ timers (clearHoldTimeout st).
Proof.
  intros [HA _] Hin Hs. unfold clearHoldTimeout.
  destruct (keyHoldTimeout st) as [h|] eqn:Hkt; [|done].
  destruct (truthy (Some h)); [|done]. simpl.
  apply list_elem_of_filter. split; [|done]. intros Heq.
  destruct (HA t Hin) as (_ & H2 & _). destruct (kinds_exclusive t Hs) as [Hn _].
  rewrite H2 in Hn; [done|]. by rewrite Heq.
Qed.

(** Clearing the key timers does not cancel a save timer. *)
Lemma clearKeyHold_keeps st t :
  varsFresh st → t ∈ timers st → isSave t = true → t ∈ timers (clearKeyHold st).
Proof.
  intros Hv Hin Hs. unfold clearKeyHold.
  apply clearHoldTimeout_keeps; [by apply varsFresh_clearHoldInterval| |done].
  by apply clearHoldInterval_keeps.
Qed.

Lemma handleContentChange_grows st t :
  t ∈ timers st → t ∈ timers (handleContentChange st).
Proof.
  intros Hin. unfold handleContentChange. destruct (saveTimeout st); [done|].
  simpl. apply elem_of_app. by left.
Qed.

Lemma contentEffect_grows st t : t ∈ timers st → t ∈ timers (contentEffect st).
Proof.
  intros Hin. unfold contentEffect.
  destruct (_ && _); [by apply handleContentChange_grows|done].
Qed.

Lemma assignContent_grows c st t : t ∈ timers st → t ∈ timers (assignContent c st).
Proof.
  intros Hin. unfold assignContent. case_bool_decide; [done|].
  destruct (alive st); [|done].
  by apply (contentEffect_grows (set_content (Some c) st)).
Qed.

Lemma navFrame_timers st st' t : navFrame st st' → t ∈ timers st → t ∈ timers st'.
Proof. intros (Ht & _) Hin. by rewrite Ht. Qed.

Lemma resume_grows k r st t : t ∈ timers st → t ∈ timers (resume k r st).
Proof.
  intros Hin. destruct k, r; cbn [resume]; cbv zeta; try done.
  - by destruct (0 <? _)%nat.
  - by apply (assignContent_grows s st).
  - by destruct (negb _).
Qed.

(** No event but the tick at which it is due, and teardown, removes an
    armed save timer. *)
Lemma save_timer_survives e st t :
  Inv st → varsFresh st → t ∈ timers st → isSave t = true →
  e ≠ EDestroy → e ≠ ETick → t ∈ timers (step e st).
Proof.
  intros HI Hv Hin Hs Hd Htk. destruct e; try done; cbn [step].
  - destruct (alive st); [by apply assignContent_grows|done].
  - by destruct (alive st).
  - destruct (_ && _); [|done]. unfold popoverEffect. simpl.
    destruct open; [done|].
    by apply (clearKeyHold_keeps (set_listening false (set_isPopoverOpen false st))).
  - destruct (navVisible st); [|done].
    eapply navFrame_timers; [apply handleTimeTravelChange_frame|done].
  - destruct (navVisible st); [|done].
    eapply navFrame_timers; [apply jumpToVersion_frame|done].
  - destruct (navVisible st); [|done].
    eapply navFrame_timers; [apply callStep_frame|done].
  - destruct (navVisible st); [|done].
    eapply navFrame_timers; [apply callStep_frame|done].
  - destruct (navVisible st); [|done].
    eapply navFrame_timers; [apply jumpToVersion_frame|done].
  - destruct (_ && _); [|done]. unfold exitTimeTravel.
    destruct (_ && _); [by apply contentEffect_grows|done].
  - destruct (listening st); [|done]. unfold handleKeyDown.
    destruct (negb _); [done|]. destruct (isArrow key); [|done]. cbv zeta.
    set (d := if bool_decide (key = "ArrowLeft") then (-1)%Z else 1%Z).
    simpl. apply elem_of_app. left.
    eapply navFrame_timers; [apply callStep_frame|].
    by apply clearKeyHold_keeps.
  - destruct (listening st); [|done]. unfold handleKeyUp.
    destruct (isArrow key); [by apply clearKeyHold_keeps|done].
  - destruct (pending st !! id) as [k|]; [|done]. by apply resume_grows.
Qed.

Lemma save_timer_unique st t u :
  Inv st → t ∈ timers st → isSave t = true → u ∈ saveTimers st → u = t.
Proof.
  intros HI Hin Hs [Hsu Hu]%list_elem_of_filter.
  pose proof (inv_save _ _ _ _ _ _ HI _ Hin Hs).
  pose proof (inv_save _ _ _ _ _ _ HI _ Hu Hsu).
  eapply handle_inj; [apply HI|done..|congruence].
Qed.

Lemma ticksIn_cons e es :
  ticksIn (e :: es) = (if isTick e then S (ticksIn es) else ticksIn es).
Proof.
  unfold ticksIn. rewrite filter_cons.
  destruct (isTick e) eqn:E.
  - by rewrite decide_True.
  - by rewrite decide_False.
Qed.

(** While its timer waits, a save stays pending and nothing is saved. *)
Lemma save_timer_waits es st t :
  Inv st → varsFresh st → t ∈ timers st → isSave t = true →
  Forall (λ e, e ≠ EDestroy) es → now st + ticksIn es < due t →
  Inv (run es st) ∧ varsFresh (run es st) ∧ t ∈ timers (run es st) ∧
  patches (trace (run es st)) = patches (trace st) ∧
  now (run es st) = now st + ticksIn es.
Proof.
  intros HI Hv Hin Hs Hes. revert st HI Hv Hin.
  induction Hes as [|e es He Hes IH]; intros st HI Hv Hin Hd.
  { cbn. rewrite Nat.add_0_r. done. }
  change (run (e :: es) st) with (run es (step e st)).
  rewrite ticksIn_cons in Hd. rewrite ticksIn_cons.
  pose proof (Inv_step e st HI) as HI1.
  pose proof (varsFresh_step e st HI Hv) as Hv1.
  assert (e = ETick ∨ e ≠ ETick) as [->|Htk] by (destruct e; (by left) || (by right)).
  - cbn [isTick] in *. cbn [step] in *.
    destruct (saveView_inv _ _ _ _ _ _ _ (tick_save_wait st HI
                ltac:(intros u ->%(save_timer_unique st t); [lia|done..])))
      as (Hts & _ & _ & Hp & Hn & _).
    assert (Hin1 : t ∈ timers (tick st)).
    { apply (list_elem_of_filter (λ u, isSave u = true)).
      fold (saveTimers (tick st)). rewrite Hts. by apply save_elem. }
    destruct (IH (tick st) HI1 Hv1 Hin1) as (H1 & H2 & H3 & H4 & H5); [lia|].
    split; [done|]. split; [done|]. split; [done|]. split; [congruence|lia].
  - assert (Hnt : isTick e = false) by by destruct e.
    rewrite Hnt in *.
    destruct (step_quiet e st Htk) as (Hp & Hn & _).
    pose proof (save_timer_survives e st t HI Hv Hin Hs He Htk) as Hin1.
    destruct (IH (step e st) HI1 Hv1 Hin1) as (H1 & H2 & H3 & H4 & H5); [lia|].
    split; [done|]. split; [done|]. split; [done|]. split; [congruence|lia].
Qed.

(** When its timer comes due, the save is made with the content of that
    moment. *)
Lemma save_fires st t c :
  Inv st → t ∈ timers st → isSave t = true → now st < due t →
  content st = Some c →
  patches (trace (advance (due t - now st) st)) = (c, due t) :: patches (trace st) ∧
  saveTimers (advance (due t - now st) st) = [].
Proof.
  intros HI Hin Hs Hd Hc.
  assert (Hcb : cb t = SaveCb) by (unfold isSave in Hs; by destruct (cb t)).
  assert (Hrest : due t - now st = (due t - now st - 1) + 1) by lia.
  rewrite Hrest, (advance_add (due t - now st - 1) 1), advance_1.
  destruct (saveView_inv _ _ _ _ _ _ _
              (advance_save_wait (due t - now st - 1) st HI
                 ltac:(intros u ->%(save_timer_unique st t); [lia|done..])))
    as (Htr & Hsvr & Hcr & Hpr & Hnr & Har).
  pose proof (Inv_advance (due t - now st - 1) st HI) as HIr.
  remember (advance (due t - now st - 1) st) as sr eqn:Esr. clear Esr.
  assert (Hinr : t ∈ timers sr).
  { apply (list_elem_of_filter (λ u, isSave u = true)).
    fold (saveTimers sr). rewrite Htr. by apply save_elem. }
  destruct (saveView_inv _ _ _ _ _ _ _
              (tick_save_fire sr t c HIr Hinr Hcb ltac:(lia) ltac:(congruence)))
    as (Htf & _ & _ & Hpf & _).
  split; [|done]. rewrite Hpf, Hpr. repeat f_equal. lia.
Qed.

(** X7: once a save timer is armed, nothing but teardown cancels or
    postpones it.  Whatever happens before it is due (typing, entering
    time travel and moving through the history, key presses, opening and
    closing the popover, replies of the backend), nothing is saved in the
    meantime, the timer is still armed, and at its due time [createPatch]
    is called once, with the content of that moment. *)
Theorem pending_save_fires doc es es' t :
  let st := run es (mount doc) in
  t ∈ timers st → cb t = SaveCb →
  Forall (λ e, e ≠ EDestroy) es' → now st + ticksIn es' < due t →
  let s := run es' st in
  t ∈ timers s ∧ patches (trace s) = patches (trace st) ∧
  now s = now st + ticksIn es' ∧
  ∃ c, content s = Some c ∧
       patches (trace (advance (due t - now s) s)) = (c, due t) :: patches (trace st).
Proof.
  intros st Hin Hcb Hes Hd s.
  assert (Hs : isSave t = true) by (unfold isSave; by rewrite Hcb).
  destruct (save_timer_waits es' st t (Inv_run doc es) (varsFresh_run doc es)
              Hin Hs Hes Hd) as (HI & Hv & Hin' & Hp & Hn).
  fold s in HI, Hv, Hin', Hp, Hn.
  destruct (content_some doc (es ++ es')) as [c Hc].
  rewrite run_app in Hc. fold st in Hc. fold s in Hc.
  clearbody s. split; [done|]. split; [done|]. split; [done|].
  exists c. split; [done|].
  destruct (save_fires s t c HI Hin' Hs ltac:(lia) Hc) as [Hf _].
  by rewrite Hf, Hp.
Qed.

Lemma pending_save_fires_witness :
  let st := run [EReply 0 (RTimestamps [1; 2]%Z)] (mount "doc") in
  let s := run [ETick; EEdit "a"; EPopover true; ESlider [0%Z]; ETick;
                EKeyDown "ArrowRight"; EKeyUp "ArrowRight"; EPopover false] st in
  ∃ c, content s = Some c ∧
       patches (trace (advance (500 - now s) s)) = [(c, 500)].
Proof.
  intros st s.
  destruct (pending_save_fires "doc" [EReply 0 (RTimestamps [1; 2]%Z)]
              [ETick; EEdit "a"; EPopover true; ESlider [0%Z]; ETick;
               EKeyDown "ArrowRight"; EKeyUp "ArrowRight"; EPopover false]
              (mkTimer 1 500 None SaveCb))
    as (_ & _ & _ & c & Hc & Hf);
    [apply list_elem_of_singleton; reflexivity|reflexivity
    |repeat constructor; discriminate|vm_compute; lia|].
  exists c. split; [exact Hc|exact Hf].
Defined.

(** ** Leaving time travel, and opening a document, cause a save *)

Lemma exitTimeTravel_arms st c :
  isTimeTravel st = true → alive st = true → saveTimeout st = None →
  content st = Some c →
  exitTimeTravel st =
    set_saveTimeout (Some (nextHandle st))
      (set_nextHandle (S (nextHandle st))
         (set_timers (timers st ++ [mkTimer (nextHandle st) (now st + SAVE_THROTTLE_MS)
                                      None SaveCb])
            (log (OExit (now st))
               (set_timeTravelContent "" (set_isTimeTravel false st))))).
Proof.
  intros Htt Ha Hsv Hc. unfold exitTimeTravel. rewrite Htt, Ha. cbn [andb].
  unfold contentEffect. simpl. rewrite Hc.
  unfold handleContentChange. simpl. by rewrite Hsv.
Qed.

(** X8: "Return to Current" pressed while no save is pending arms a save
    timer although nothing was edited: one throttle window later
    [createPatch] is called with the unchanged content. *)
Theorem return_to_current_saves_again doc es :
  let st := run es (mount doc) in
  isTimeTravel st = true → alive st = true → saveTimeout st = None →
  let st1 := exitTimeTravel st in
  saveTimers st1 = [mkTimer (nextHandle st) (now st + SAVE_THROTTLE_MS) None SaveCb] ∧
  content st1 = content st ∧
  ∃ c, content st = Some c ∧
       patches (trace (advance SAVE_THROTTLE_MS st1))
         = (c, now st + SAVE_THROTTLE_MS) :: patches (trace st).
Proof.
  intros st Htt Ha Hsv st1.
  pose proof (Inv_run doc es : Inv st) as HI.
  destruct (content_some doc es) as [c Hc]. fold st in Hc.
  assert (Hnil : saveTimers st = []).
  { apply saveTimers_nil. intros t Hin. destruct (isSave t) eqn:E; [|done].
    pose proof (inv_save _ _ _ _ _ _ HI _ Hin E). congruence. }
  pose proof (Inv_exitTimeTravel st HI : Inv st1) as HI1.
  set (t := mkTimer (nextHandle st) (now st + SAVE_THROTTLE_MS) None SaveCb).
  assert (H1 : timers st1 = timers st ++ [t] ∧ now st1 = now st ∧
               content st1 = Some c ∧ patches (trace st1) = patches (trace st)).
  { unfold st1. by rewrite (exitTimeTravel_arms st c). }
  destruct H1 as (Ht1 & Hn1 & Hc1 & Hp1). clearbody st1.
  assert (Hin : t ∈ timers st1).
  { rewrite Ht1. apply elem_of_app. right. by apply list_elem_of_singleton. }
  split; [|split; [congruence|]].
  - unfold saveTimers in *. rewrite Ht1, filter_app, Hnil. done.
  - exists c. split; [done|].
    assert (Hdue : due t = now st + SAVE_THROTTLE_MS) by reflexivity.
    destruct (save_fires st1 t c HI1 Hin eq_refl) as [Hf _];
      [rewrite Hn1, Hdue; unfold SAVE_THROTTLE_MS; lia|done|].
    rewrite Hdue, Hn1 in Hf.
    replace (now st + SAVE_THROTTLE_MS - now st) with SAVE_THROTTLE_MS in Hf by lia.
    by rewrite Hf, Hp1.
Qed.

Lemma return_to_current_saves_again_witness :
  let st := run ([EReply 0 (RTimestamps [1; 2]%Z)] ++ replicate 500 ETick
                 ++ [EReply 2 (RString "ok"); EReply 3 (RTimestamps [1; 2; 500]%Z);
                     EReply 4 (RStats (mkStats 3 2 0 (0 # 1)));
                     EPopover true; ESlider [0%Z]]) (mount "doc") in
  patches (trace (advance SAVE_THROTTLE_MS (exitTimeTravel st)))
    = ("", 1000) :: patches (trace st).
Proof.
  intros st.
  destruct (return_to_current_saves_again "doc"
              ([EReply 0 (RTimestamps [1; 2]%Z)] ++ replicate 500 ETick
               ++ [EReply 2 (RString "ok"); EReply 3 (RTimestamps [1; 2; 500]%Z);
                   EReply 4 (RStats (mkStats 3 2 0 (0 # 1)));
                   EPopover true; ESlider [0%Z]]))
    as (_ & _ & c & Hc & Hf); [vm_compute; reflexivity..|].
  fold st in Hc, Hf.
  assert (Hc' : content st = Some "") by (vm_compute; reflexivity).
  assert (Hn : now st = 500) by (vm_compute; reflexivity).
  rewrite Hc' in Hc. injection Hc as <-. rewrite Hn in Hf. exact Hf.
Defined.

Lemma run_content_frame es st :
  Forall (λ e, (∀ c, e ≠ EEdit c) ∧ ∀ id s, e ≠ EReply id (RString s)) es →
  content (run es st) = content st.
Proof.
  intros Hes. revert st. induction Hes as [|e es [He Hr] Hes IH]; intros st; [done|].
  change (run (e :: es) st) with (run es (step e st)). rewrite IH.
  destruct (step_content_cases e st) as [?|(c & _ & [->|(id & -> & _)])];
    [done|by destruct (He c)|by destruct (Hr id c)].
Qed.

(** X9: opening a document arms a save timer at once, before anything is
    typed: unless the page is torn down first, [createPatch] is called
    SAVE_THROTTLE_MS (500 ms) after the page was opened, with the content
    of that moment; if nothing was typed and the text of the document has
    not arrived by then, what is saved is the empty text. *)
Theorem opening_saves_after_one_window doc es :
  Forall (λ e, e ≠ EDestroy) es → ticksIn es < SAVE_THROTTLE_MS →
  let s := run es (mount doc) in
  ∃ c, content s = Some c ∧
       patches (trace (advance (SAVE_THROTTLE_MS - now s) s)) = [(c, SAVE_THROTTLE_MS)] ∧
       (Forall (λ e, (∀ c', e ≠ EEdit c') ∧ ∀ id r, e ≠ EReply id (RString r)) es →
        c = "").
Proof.
  intros Hes Hd s.
  set (t := mkTimer 1 SAVE_THROTTLE_MS None SaveCb).
  assert (Hin : t ∈ timers (mount doc)) by by apply list_elem_of_singleton.
  destruct (save_timer_waits es (mount doc) t (Inv_mount doc) (varsFresh_mount doc)
              Hin eq_refl Hes Hd) as (HI & Hv & Hin' & Hp & Hn).
  fold s in HI, Hv, Hin', Hp, Hn.
  destruct (content_some doc es) as [c Hc]. fold s in Hc.
  assert (Hfr : Forall (λ e, (∀ c', e ≠ EEdit c') ∧ ∀ id r, e ≠ EReply id (RString r)) es
                → c = "").
  { intros Hq. apply (run_content_frame es (mount doc)) in Hq. fold s in Hq.
    rewrite Hc in Hq. by injection Hq. }
  clearbody s. exists c. split; [done|]. split; [|done].
  assert (Hdue : due t = SAVE_THROTTLE_MS) by reflexivity.
  assert (Hn0 : now (mount doc) = 0) by reflexivity.
  destruct (save_fires s t c HI Hin' eq_refl) as [Hf _];
    [rewrite Hn, Hn0, Hdue; lia|done|].
  rewrite Hdue in Hf. by rewrite Hp in Hf.
Qed.

Lemma opening_saves_after_one_window_witness :
  let s := run (replicate 100 ETick ++ [EReply 0 (RTimestamps [1; 2]%Z)]
                ++ replicate 399 ETick) (mount "doc") in
  patches (trace (advance (SAVE_THROTTLE_MS - now s) s)) = [("", SAVE_THROTTLE_MS)].
Proof.
  intros s.
  destruct (opening_saves_after_one_window "doc"
              (replicate 100 ETick ++ [EReply 0 (RTimestamps [1; 2]%Z)]
               ++ replicate 399 ETick))
    as (c & _ & Hf & Hempty).
  - apply Forall_app. split; [apply Forall_replicate; discriminate|].
    apply Forall_app. split; [repeat constructor; discriminate|].
    apply Forall_replicate; discriminate.
  - vm_compute. lia.
  - fold s in Hf. rewrite Hempty in Hf; [exact Hf|].
    apply Forall_app. split; [apply Forall_replicate; split; discriminate|].
    apply Forall_app. split; [repeat constructor; discriminate|].
    apply Forall_replicate; split; discriminate.
Defined.

(** ** Which versions are requested *)

Lemma requestsExisting_refl st : requestsExisting st st.
Proof. split; [done|]. by left. Qed.

Lemma requestsExisting_trans s1 s2 s3 :
  requestsExisting s1 s2 → requestsExisting s2 s3 → requestsExisting s1 s3.
Proof.
  intros [Ht1 Hl1] [Ht2 Hl2]. split; [congruence|].
  intros id o [Hin|(ts & -> & Hts)]%Hl2; [by apply Hl1|].
  right. exists ts. split; [done|]. by rewrite <- Ht1.
Qed.

(** The timeline and the requests made are the same. *)
Lemma requestsExisting_same st st' :
  timestamps st' = timestamps st → loads (trace st') = loads (trace st) →
  requestsExisting st st'.
Proof. intros Ht Hl. split; [done|]. rewrite Hl. by left. Qed.

Lemma requestsExisting_display st st' :
  displayView st' = displayView st → requestsExisting st st'.
Proof.
  intros Hv. destruct (displayView_inv st' _ _ _ _ _ Hv) as (_ & _ & Ht & _ & Hl).
  by apply requestsExisting_same.
Qed.

(** [jumpToVersion] inside the timeline asks for the timestamp at that
    index. *)
Lemma jumpToVersion_in_range i st :
  (0 ≤ i < Z.of_nat (length (timestamps st)))%Z →
  ∃ ts, timestamps st !! Z.to_nat i = Some ts ∧
        jumpToVersion i st =
          invoke (LoadDocumentAtTimestamp (docUuid st) (Some ts)) KLoadVersion
            (set_isTimeTravel true (set_timeTravelIndex [i] st)).
Proof.
  intros Hi.
  destruct (lookup_lt_is_Some_2 (timestamps st) (Z.to_nat i)) as [ts Hts]; [lia|].
  exists ts. split; [done|]. unfold jumpToVersion.
  replace (i <? 0)%Z with false by lia.
  replace (i >=? Z.of_nat (length (timestamps st)))%Z with false by lia.
  cbn [orb]. unfold handleTimeTravelChange, at_index. simpl.
  replace (0 <=? i)%Z with true by lia. by rewrite Hts.
Qed.

Lemma jumpToVersion_requests i st : requestsExisting st (jumpToVersion i st).
Proof.
  destruct (decide (0 ≤ i < Z.of_nat (length (timestamps st)))%Z) as [Hi|Hi].
  - destruct (jumpToVersion_in_range i st Hi) as (ts & Hts & ->).
    split; [done|]. simpl. intros id o [[= -> ->]|Hin]%elem_of_cons; [right|by left].
    exists ts. split; [done|]. by eapply list_elem_of_lookup_2.
  - rewrite jumpToVersion_out_of_range; [apply requestsExisting_refl|lia].
Qed.

Lemma stepVersion_requests d st : requestsExisting st (stepVersion d st).
Proof.
  unfold stepVersion. destruct (head _); [|apply requestsExisting_refl].
  destruct (_ && _); [apply jumpToVersion_requests|apply requestsExisting_refl].
Qed.

Lemma callStep_requests d st : requestsExisting st (callStep d st).
Proof. exact (stepVersion_requests d (log (OStep (now st) d) st)). Qed.

Lemma runCallback_requests c st : requestsExisting st (runCallback c st).
Proof.
  destruct c; simpl.
  - apply requestsExisting_display, performSave_display.
  - by apply requestsExisting_same.
  - apply callStep_requests.
Qed.

Lemma fire_requests h st : requestsExisting st (fire h st).
Proof.
  apply fire_cases; [apply requestsExisting_refl|..]; intros;
    (eapply requestsExisting_trans; [|apply runCallback_requests]);
    by apply requestsExisting_same.
Qed.

Lemma tick_requests st : requestsExisting st (tick st).
Proof.
  unfold tick.
  apply (foldl_fire_preserves (λ s, requestsExisting st s)).
  - intros h s Hs. eapply requestsExisting_trans; [exact Hs|apply fire_requests].
  - by apply requestsExisting_same.
Qed.

Lemma handleKeyDown_requests key st : requestsExisting st (handleKeyDown key st).
Proof.
  unfold handleKeyDown. destruct (negb _); [apply requestsExisting_refl|].
  destruct (isArrow key); [|apply requestsExisting_refl]. cbv zeta.
  set (d := if bool_decide (key = "ArrowLeft") then (-1)%Z else 1%Z).
  eapply requestsExisting_trans;
    [apply requestsExisting_display, clearKeyHold_display|].
  eapply requestsExisting_trans; [apply (callStep_requests d)|].
  by apply requestsExisting_same.
Qed.

(** X10: the buttons, the arrow keys and key repeat only ever ask the
    backend for a version that is on the timeline: apart from the slider
    handler and the load of onMount, every event leaves the timeline alone
    and every reconstruction request it adds carries one of its
    timestamps. *)
Theorem navigation_requests_existing_versions e st :
  (∀ v, e ≠ ESlider v) → (∀ id r, e ≠ EReply id r) →
  requestsExisting st (step e st).
Proof.
  intros Hsl Hre. destruct e; cbn [step];
    try (by destruct (Hsl value)); try (by destruct (Hre id r)).
  - destruct (alive st); [|apply requestsExisting_refl].
    apply requestsExisting_display, assignContent_display.
  - destruct (alive st); [by apply requestsExisting_same|apply requestsExisting_refl].
  - destruct (_ && _); [|apply requestsExisting_refl].
    unfold popoverEffect. simpl. destruct open; [by apply requestsExisting_same|].
    apply requestsExisting_display.
    exact (clearKeyHold_display (set_listening false (set_isPopoverOpen false st))).
  - destruct (navVisible st); [apply jumpToVersion_requests|apply requestsExisting_refl].
  - destruct (navVisible st); [apply callStep_requests|apply requestsExisting_refl].
  - destruct (navVisible st); [apply callStep_requests|apply requestsExisting_refl].
  - destruct (navVisible st); [apply jumpToVersion_requests|apply requestsExisting_refl].
  - destruct (_ && _); [|apply requestsExisting_refl]. unfold exitTimeTravel.
    set (st' := log (OExit (now st))
                  (set_timeTravelContent "" (set_isTimeTravel false st))).
    destruct (_ && _); [|by apply requestsExisting_same].
    destruct (displayView_inv _ _ _ _ _ _ (contentEffect_display st'))
      as (_ & _ & Ht & _ & Hl).
    by apply requestsExisting_same.
  - destruct (listening st); [apply handleKeyDown_requests|apply requestsExisting_refl].
  - destruct (listening st); [|apply requestsExisting_refl]. unfold handleKeyUp.
    destruct (isArrow key); [|apply requestsExisting_refl].
    apply requestsExisting_display, clearKeyHold_display.
  - apply tick_requests.
  - destruct (alive st); [|apply requestsExisting_refl].
    apply requestsExisting_display, onDestroy_display.
Qed.

Lemma navigation_requests_existing_versions_witness :
  let st := run [EReply 0 (RTimestamps [10; 20; 30]%Z); EPopover true] (mount "doc") in
  loads (trace (step ELast st)) = [(2, Some 30%Z)] ∧
  requestsExisting st (step ELast st).
Proof.
  intros st. split; [vm_compute; reflexivity|].
  apply navigation_requests_existing_versions; discriminate.
Defined.

(** X11: the slider handler does not check its argument: it stores the
    value it is given as the index and switches time travel on, and when
    that value is empty or its first entry lies outside the timeline, the
    reconstruction request it sends carries no timestamp. *)
Theorem slider_value_is_not_checked v st :
  (∀ i, head v = Some i → (i < 0 ∨ Z.of_nat (length (timestamps st)) ≤ i)%Z) →
  let st' := handleTimeTravelChange v st in
  timeTravelIndex st' = v ∧ isTimeTravel st' = true ∧
  pending st' !! nextReq st = Some KLoadVersion ∧
  loads (trace st') = (nextReq st, None) :: loads (trace st).
Proof.
  intros Hv st'. split; [done|]. split; [done|].
  split; [exact (pending_invoke _ _ (set_isTimeTravel true (set_timeTravelIndex v st)))|].
  unfold st', handleTimeTravelChange. simpl.
  replace (at_index (timestamps st) (head v)) with (@None Z); [done|].
  unfold at_index. destruct (head v) as [i|]; [|done].
  destruct (Hv i eq_refl) as [Hi|Hi].
  - by replace (0 <=? i)%Z with false by lia.
  - destruct (0 <=? i)%Z eqn:E; [|done]. symmetry. apply lookup_ge_None. lia.
Qed.

Lemma slider_value_is_not_checked_witness :
  let st := run [EReply 0 (RTimestamps [10; 20; 30]%Z)] (mount "doc") in
  let st' := handleTimeTravelChange [7%Z] st in
  timeTravelIndex st' = [7%Z] ∧ isTimeTravel st' = true ∧
  loads (trace st') = [(2, None)].
Proof.
  intros st st'.
  destruct (slider_value_is_not_checked [7%Z] st) as (Hi & Htt & _ & Hl).
  - intros i [= <-]. right. vm_compute. discriminate.
  - split; [exact Hi|]. split; [exact Htt|exact Hl].
Defined.

(** X12: one step forward and one step back (inside the timeline) end on
    the index they started from; two reconstruction requests are sent,
    the second one for the version that was shown at the start. *)
Theorem step_forward_and_back st i rest :
  timeTravelIndex st = i :: rest →
  (0 ≤ i)%Z → (i + 1 < Z.of_nat (length (timestamps st)))%Z →
  let st2 := stepVersion (-1) (stepVersion 1 st) in
  timeTravelIndex st2 = [i] ∧ isTimeTravel st2 = true ∧
  ∃ a b, timestamps st !! Z.to_nat i = Some a ∧
         timestamps st !! Z.to_nat (i + 1) = Some b ∧
         loads (trace st2) =
           (S (nextReq st), Some a) :: (nextReq st, Some b) :: loads (trace st).
Proof.
  intros Hidx H0 H1 st2.
  destruct (jumpToVersion_in_range (i + 1) st ltac:(lia)) as (b & Hb & E1).
  assert (Hs1 : stepVersion 1 st = jumpToVersion (i + 1) st).
  { unfold stepVersion. rewrite Hidx. cbn [head].
    replace (i + 1 >=? 0)%Z with true by lia.
    by replace (i + 1 <? Z.of_nat (length (timestamps st)))%Z with true by lia. }
  rewrite E1 in Hs1. remember (stepVersion 1 st) as st1 eqn:Est1. clear Est1.
  assert (H1' : timeTravelIndex st1 = [(i + 1)%Z] ∧ timestamps st1 = timestamps st ∧
                nextReq st1 = S (nextReq st) ∧
                loads (trace st1) = (nextReq st, Some b) :: loads (trace st))
    by by rewrite Hs1.
  destruct H1' as (Hi1 & Ht1 & Hn1 & Hl1). clear Hs1 E1.
  destruct (jumpToVersion_in_range i st1 ltac:(rewrite Ht1; lia)) as (a & Ha & E2).
  assert (Hs2 : st2 = jumpToVersion i st1).
  { unfold st2, stepVersion. rewrite Hi1. cbn [head].
    replace (i + 1 + -1)%Z with i by lia.
    replace (i >=? 0)%Z with true by lia.
    by replace (i <? Z.of_nat (length (timestamps st1)))%Z with true by (rewrite Ht1; lia). }
  rewrite E2 in Hs2. clearbody st2. subst st2.
  split; [done|]. split; [done|]. exists a, b.
  rewrite <- Ht1. split; [done|]. split; [by rewrite Ht1|].
  simpl. by rewrite Hl1, Hn1.
Qed.

Lemma step_forward_and_back_witness :
  let st := run [EReply 0 (RTimestamps [10; 20; 30]%Z)] (mount "doc") in
  let st2 := stepVersion (-1) (stepVersion 1 st) in
  timeTravelIndex st2 = [0%Z] ∧
  loads (trace st2) = [(3, Some 10%Z); (2, Some 20%Z)].
Proof.
  intros st st2.
  destruct (step_forward_and_back st 0%Z []) as (Hi & _ & a & b & Ha & Hb & Hl);
    [reflexivity|lia|vm_compute; reflexivity|].
  fold st2 in Hi, Hl. split; [exact Hi|].
  assert (a = 10%Z) as -> by (vm_compute in Ha; by injection Ha).
  assert (b = 20%Z) as -> by (vm_compute in Hb; by injection Hb).
  exact Hl.
Defined.

(** ** Opening a document *)

Lemma tick_idle st :
  (∀ t, t ∈ timers st → S (now st) < due t) → tick st = set_now (S (now st)) st.
Proof.
  intros Hw. unfold tick, dueHandles. simpl timers. simpl now.
  replace (filter (λ t, due t ≤ S (now st)) (timers st)) with (@nil Timer); [done|].
  symmetry. apply filter_nil_iff. intros t Hin Hd. specialize (Hw t Hin). lia.
Qed.

(** While no timer is due, time passing changes the clock only. *)
Lemma advance_idle n st :
  (∀ t, t ∈ timers st → now st + n < due t) →
  advance n st = set_now (now st + n) st.
Proof.
  revert st. induction n as [|n IH]; intros st Hw.
  { rewrite Nat.add_0_r. by destruct st. }
  cbn [advance]. rewrite tick_idle by (intros t Hin; specialize (Hw t Hin); lia).
  rewrite IH by (simpl; intros t Hin; specialize (Hw t Hin); lia).
  unfold set_now. simpl. by replace (S (now st + n)) with (now st + S n) by lia.
Qed.

(** X13: when the three requests of onMount are answered in turn (the
    timeline, non-empty; the statistics; the text) before the first save
    is due, the page ends up showing the text it received, with the index
    on the last version, time travel off and nothing in flight.  The text
    asked for is the one at the time of the request ([Date.now()]), not at
    the last timestamp of the timeline. *)
Theorem mount_loads_latest doc ts s latest a b c :
  ts ≠ [] → a + b + c < SAVE_THROTTLE_MS →
  let st1 := step (EReply 0 (RTimestamps ts)) (advance a (mount doc)) in
  let st2 := step (EReply 1 (RStats s)) (advance b st1) in
  let st3 := step (EReply 2 (RString latest)) (advance c st2) in
  content st3 = Some latest ∧ timestamps st3 = ts ∧ stats st3 = Some s ∧
  timeTravelIndex st3 = [(Z.of_nat (length ts) - 1)%Z] ∧ isTimeTravel st3 = false ∧
  pending st3 = ∅ ∧
  loads (trace st3) = [(2, Some (Z.of_nat (a + b)))] ∧
  patches (trace st3) = [] ∧
  timers st3 = [mkTimer 1 SAVE_THROTTLE_MS None SaveCb].
Proof.
  intros Hts Hd st1 st2 st3.
  set (t := mkTimer 1 SAVE_THROTTLE_MS None SaveCb).
  assert (Hdue : due t = SAVE_THROTTLE_MS) by reflexivity.
  assert (Hidle : ∀ n st, timers st = [t] → now st + n < SAVE_THROTTLE_MS →
            advance n st = set_now (now st + n) st).
  { intros n st Ht Hn. apply advance_idle. rewrite Ht.
    intros u ->%list_elem_of_singleton. by rewrite Hdue. }
  assert (E1 : st1 = mkState doc (Some "") write ts [0%Z] false "" None (Some 1)
                       false None None a [t] 2 {[1 := KMountStats]} 2 false true
                       [OInvoke a 1 (GetDocumentStats doc);
                        OSettle a 0 KMountTimestamps (RTimestamps ts);
                        OInvoke 0 0 (GetPatchTimestamps doc)]).
  { unfold st1. rewrite (Hidle a (mount doc)); [|done|simpl; lia]. reflexivity. }
  clearbody st1. subst st1.
  assert (E2 : st2 = mkState doc (Some "") write ts [0%Z] false "" (Some s) (Some 1)
                       false None None (a + b) [t] 2 {[2 := KMountLatest]} 3 false true
                       [OInvoke (a + b) 2
                          (LoadDocumentAtTimestamp doc (Some (Z.of_nat (a + b))));
                        OSettle (a + b) 1 KMountStats (RStats s);
                        OInvoke a 1 (GetDocumentStats doc);
                        OSettle a 0 KMountTimestamps (RTimestamps ts);
                        OInvoke 0 0 (GetPatchTimestamps doc)]).
  { unfold st2. rewrite Hidle; [|done|simpl; lia].
    destruct ts as [|x ts]; [done|]. reflexivity. }
  clearbody st2. subst st2.
  assert (E3 : st3 = mkState doc (Some latest) write ts [(Z.of_nat (length ts) - 1)%Z]
                       false "" (Some s) (Some 1) false None None (a + b + c) [t] 2 ∅ 3
                       false true
                       [OSettle (a + b + c) 2 KMountLatest (RString latest);
                        OInvoke (a + b) 2
                          (LoadDocumentAtTimestamp doc (Some (Z.of_nat (a + b))));
                        OSettle (a + b) 1 KMountStats (RStats s);
                        OInvoke a 1 (GetDocumentStats doc);
                        OSettle a 0 KMountTimestamps (RTimestamps ts);
                        OInvoke 0 0 (GetPatchTimestamps doc)]).
  { unfold st3. rewrite Hidle; [|done|simpl; lia].
    rewrite (step_reply 2 _ KMountLatest) by reflexivity.
    cbn [resume]. cbv zeta. unfold assignContent. simpl.
    case_bool_decide as Hl; [|reflexivity]. by injection Hl as <-. }
  by rewrite E3.
Qed.

Lemma mount_loads_latest_witness :
  let st1 := step (EReply 0 (RTimestamps [10; 20]%Z)) (advance 30 (mount "doc")) in
  let st2 := step (EReply 1 (RStats (mkStats 2 5 9 (18 # 10)))) (advance 20 st1) in
  let st3 := step (EReply 2 (RString "text")) (advance 10 st2) in
  content st3 = Some "text" ∧ timeTravelIndex st3 = [1%Z] ∧
  loads (trace st3) = [(2, Some 50%Z)].
Proof.
  intros st1 st2 st3.
  destruct (mount_loads_latest "doc" [10; 20]%Z (mkStats 2 5 9 (18 # 10)) "text" 30 20 10)
    as (Hc & _ & _ & Hi & _ & _ & Hl & _); [discriminate|vm_compute; lia|].
  split; [exact Hc|]. split; [exact Hi|exact Hl].
Defined.

(** ** A load that fails is not retried *)

Lemma mountOver_same st st' : pending st' = pending st → mountOver st → mountOver st'.
Proof. intros Hp Hm id k. rewrite Hp. apply Hm. Qed.

Lemma mountOver_invoke c k st :
  isMountCont k = false → mountOver st → mountOver (invoke c k st).
Proof.
  intros Hk Hm id k'. unfold invoke. simpl.
  destruct (decide (id = nextReq st)) as [->|Hne].
  - rewrite lookup_insert_eq. by intros [= <-].
  - rewrite lookup_insert_ne by done. apply Hm.
Qed.

Lemma mountOver_jumpToVersion i st : mountOver st → mountOver (jumpToVersion i st).
Proof.
  intros Hm. unfold jumpToVersion. destruct (_ || _); [done|].
  unfold handleTimeTravelChange. by apply mountOver_invoke.
Qed.

Lemma mountOver_callStep d st : mountOver st → mountOver (callStep d st).
Proof.
  intros Hm. unfold callStep, stepVersion. destruct (head _); [|done].
  destruct (_ && _); [|done]. by apply mountOver_jumpToVersion.
Qed.

Lemma mountOver_runCallback c st : mountOver st → mountOver (runCallback c st).
Proof.
  intros Hm. destruct c; simpl.
  - unfold performSave. destruct (content st); [by apply mountOver_invoke|done].
  - done.
  - by apply mountOver_callStep.
Qed.

Lemma mountOver_tick st : mountOver st → mountOver (tick st).
Proof.
  intros Hm. unfold tick. apply foldl_fire_preserves; [|done].
  intros h s Hs. apply fire_cases; [done|..]; intros;
    by apply mountOver_runCallback.
Qed.

Lemma mountOver_step e st : mountOver st → mountOver (step e st).
Proof.
  intros Hm. destruct e; cbn [step].
  - destruct (alive st); [|done].
    eapply mountOver_same; [apply assignContent_scrub|done].
  - by destruct (alive st).
  - destruct (_ && _); [|done]. unfold popoverEffect. simpl.
    destruct open; [done|].
    eapply mountOver_same; [apply clearKeyHold_scrub|done].
  - destruct (navVisible st); [|done].
    unfold handleTimeTravelChange. by apply mountOver_invoke.
  - destruct (navVisible st); [by apply mountOver_jumpToVersion|done].
  - destruct (navVisible st); [by apply mountOver_callStep|done].
  - destruct (navVisible st); [by apply mountOver_callStep|done].
  - destruct (navVisible st); [by apply mountOver_jumpToVersion|done].
  - destruct (_ && _); [|done]. unfold exitTimeTravel.
    destruct (_ && _); [|done].
    eapply mountOver_same; [apply contentEffect_scrub|done].
  - destruct (listening st); [|done]. unfold handleKeyDown.
    destruct (negb _); [done|]. destruct (isArrow key); [|done]. cbv zeta.
    set (d := if bool_decide (key = "ArrowLeft") then (-1)%Z else 1%Z).
    change (mountOver (callStep d (clearKeyHold st))).
    apply mountOver_callStep.
    eapply mountOver_same; [apply clearKeyHold_scrub|done].
  - destruct (listening st); [|done]. unfold handleKeyUp.
    destruct (isArrow key); [|done].
    eapply mountOver_same; [apply clearKeyHold_scrub|done].
  - by apply mountOver_tick.
  - destruct (pending st !! id) as [k|] eqn:Hk; [|done].
    pose proof (Hm id k Hk) as Hnm.
    set (st0 := log _ _).
    assert (H0 : mountOver st0).
    { intros i j. simpl. intros [_ Hj]%lookup_delete_Some. by eapply Hm. }
    clearbody st0.
    destruct k; try discriminate Hnm; destruct r; cbn [resume]; cbv zeta;
      try done; try (by apply mountOver_invoke).
    by destruct (negb _).
  - destruct (alive st); [|done].
    eapply mountOver_same; [apply onDestroy_scrub|done].
Qed.

(** X14: onMount handles no error.  When the answer to one of its
    requests is a rejection it ends there, leaving the variables as they
    are; it sends no further request and is not run again, so from then on
    nothing but typing changes the content. *)
Theorem failed_load_is_not_retried st id k es :
  pending st !! id = Some k → isMountCont k = true →
  (∀ id' k', pending st !! id' = Some k' → isMountCont k' = true → id' = id) →
  Forall (λ e, ∀ c, e ≠ EEdit c) es →
  let st1 := step (EReply id RError) st in
  let st' := run es st1 in
  content st1 = content st ∧ timestamps st1 = timestamps st ∧
  stats st1 = stats st ∧ timeTravelIndex st1 = timeTravelIndex st ∧
  pending st1 = delete id (pending st) ∧ nextReq st1 = nextReq st ∧
  mountOver st' ∧ content st' = content st.
Proof.
  intros Hk Hm Hone Hes st1 st'.
  assert (E1 : st1 = log (OSettle (now st) id k RError)
                       (set_pending (delete id (pending st)) st)).
  { unfold st1. rewrite (step_reply id _ k st Hk). by destruct k. }
  clearbody st1. subst st1.
  do 6 (split; [done|]).
  set (st1 := log _ _) in *.
  assert (H1 : mountOver st1 ∧ content st1 = content st).
  { split; [|done]. intros i j. simpl. intros [Hne Hj]%lookup_delete_Some.
    destruct (isMountCont j) eqn:E; [|done]. by destruct Hne, (Hone i j Hj E). }
  unfold st'. clearbody st1. clear st'.
  destruct H1 as [H1 H2]. rewrite <- H2. clear H2.
  revert st1 H1. induction Hes as [|e es He Hes IH]; intros st1 H1; [done|].
  change (run (e :: es) st1) with (run es (step e st1)).
  destruct (IH (step e st1) (mountOver_step e st1 H1)) as [H2 H3].
  split; [done|]. rewrite H3.
  destruct (step_content_cases e st1) as [?|(c & _ & [->|(i & -> & Hp)])];
    [done|by destruct (He c)|]. by pose proof (H1 i _ Hp).
Qed.

Lemma failed_load_is_not_retried_witness :
  let st := advance 5 (mount "doc") in
  let st' := run (replicate 600 ETick ++ [EPopover true; ENext])
               (step (EReply 0 RError) st) in
  mountOver st' ∧ content st' = Some "".
Proof.
  intros st st'.
  destruct (failed_load_is_not_retried st 0 KMountTimestamps
              (replicate 600 ETick ++ [EPopover true; ENext]))
    as (_ & _ & _ & _ & _ & _ & Hm & Hc).
  - vm_compute. reflexivity.
  - reflexivity.
  - intros id' k' Hk' _.
    assert (Hp : pending st = {[0 := KMountTimestamps]}) by (vm_compute; reflexivity).
    rewrite Hp in Hk'. by apply lookup_singleton_Some in Hk' as [<- _].
  - apply Forall_app. split; [apply Forall_replicate; discriminate|].
    repeat constructor; discriminate.
  - split; [exact Hm|]. etransitivity; [exact Hc|]. vm_compute. reflexivity.
Defined.

(** ** The key listeners *)

Lemma uiSame_trans s1 s2 s3 : uiSame s1 s2 → uiSame s2 s3 → uiSame s1 s3.
Proof. intros (?&?&?) (?&?&?). repeat split; congruence. Qed.

Lemma uiSame_nav st st' : navFrame st st' → uiSame st st'.
Proof. intros (_&_&_&_&_&_&_&_&Hp&Ha&Hl&_). by repeat split. Qed.

Lemma clearKeyHold_ui st : uiSame st (clearKeyHold st).
Proof. clearKeyHold_cases st; by repeat split. Qed.

Lemma contentEffect_ui st : uiSame st (contentEffect st).
Proof.
  unfold contentEffect, handleContentChange.
  destruct (_ && _); [|done]. by destruct (saveTimeout st).
Qed.

Lemma assignContent_ui c st : uiSame st (assignContent c st).
Proof.
  unfold assignContent. case_bool_decide; [done|].
  destruct (alive st); [|done]. exact (contentEffect_ui (set_content (Some c) st)).
Qed.

Lemma runCallback_ui c st : uiSame st (runCallback c st).
Proof.
  destruct c; simpl.
  - unfold performSave. by destruct (content st).
  - done.
  - apply uiSame_nav, callStep_frame.
Qed.

Lemma tick_ui st : uiSame st (tick st).
Proof.
  unfold tick. apply (foldl_fire_preserves (λ s, uiSame st s)); [|done].
  intros h s Hs. eapply uiSame_trans; [exact Hs|].
  apply fire_cases; [done|..]; intros;
    (eapply uiSame_trans; [|apply runCallback_ui]); done.
Qed.

Lemma resume_ui k r st : uiSame st (resume k r st).
Proof.
  destruct k, r; cbn [resume]; cbv zeta; try done.
  - by destruct (0 <? _)%nat.
  - exact (assignContent_ui s st).
  - by destruct (negb _).
Qed.

(** Nothing but the popover and teardown touches the key listeners. *)
Lemma step_ui e st :
  (∀ b, e ≠ EPopover b) → e ≠ EDestroy → uiSame st (step e st).
Proof.
  intros Hp Hd. destruct e; try done; cbn [step].
  - destruct (alive st); [apply assignContent_ui|done].
  - by destruct (alive st).
  - by destruct (Hp open).
  - destruct (navVisible st); [|done]. apply uiSame_nav, handleTimeTravelChange_frame.
  - destruct (navVisible st); [|done]. apply uiSame_nav, jumpToVersion_frame.
  - destruct (navVisible st); [|done]. apply uiSame_nav, callStep_frame.
  - destruct (navVisible st); [|done]. apply uiSame_nav, callStep_frame.
  - destruct (navVisible st); [|done]. apply uiSame_nav, jumpToVersion_frame.
  - destruct (_ && _); [|done]. unfold exitTimeTravel.
    set (st' := log (OExit (now st))
                  (set_timeTravelContent "" (set_isTimeTravel false st))).
    destruct (_ && _); [exact (contentEffect_ui st')|done].
  - destruct (listening st); [|done]. unfold handleKeyDown.
    destruct (negb _); [done|]. destruct (isArrow key); [|done]. cbv zeta.
    set (d := if bool_decide (key = "ArrowLeft") then (-1)%Z else 1%Z).
    change (uiSame st (callStep d (clearKeyHold st))).
    eapply uiSame_trans; [apply clearKeyHold_ui|apply uiSame_nav, callStep_frame].
  - destruct (listening st); [|done]. unfold handleKeyUp.
    destruct (isArrow key); [apply clearKeyHold_ui|done].
  - apply tick_ui.
  - destruct (pending st !! id) as [k|]; [|done].
    set (st0 := log _ _). exact (resume_ui k r st0).
Qed.

Lemma listeners_step e st :
  listening st = alive st && isPopoverOpen st →
  listening (step e st) = alive (step e st) && isPopoverOpen (step e st).
Proof.
  intros Hl.
  assert (Hcases : (∃ b, e = EPopover b) ∨ e = EDestroy
                   ∨ ((∀ b, e ≠ EPopover b) ∧ e ≠ EDestroy)).
  { destruct e; first [left; by eexists | right; left; reflexivity
                      | right; right; split; [intros b|]; discriminate]. }
  destruct Hcases as [[b ->]|[->|[Hp Hd]]].
  - cbn [step]. destruct (alive st) eqn:Ha; cbn [andb]; [|by rewrite Hl, Ha].
    destruct (negb (eqb b (isPopoverOpen st)) && _); [|by rewrite Hl, Ha].
    unfold popoverEffect. simpl.
    destruct b; simpl; [by rewrite Ha|].
    destruct (clearKeyHold_ui (set_listening false (set_isPopoverOpen false st)))
      as (-> & -> & ->). simpl. by rewrite Ha.
  - cbn [step]. destruct (alive st) eqn:Ha; [|by rewrite Hl, Ha].
    unfold onDestroy. cbv zeta. done.
  - destruct (step_ui e st Hp Hd) as (-> & -> & ->). done.
Qed.

(** X15: the key listeners are installed exactly while the component is
    mounted and the popover is open; with the popover closed, pressing or
    releasing a key changes nothing. *)
Theorem keys_only_while_popover_open doc es :
  let st := run es (mount doc) in
  listening st = alive st && isPopoverOpen st ∧
  (isPopoverOpen st = false →
   ∀ key, step (EKeyDown key) st = st ∧ step (EKeyUp key) st = st).
Proof.
  intros st.
  assert (Hl : listening st = alive st && isPopoverOpen st).
  { unfold st. clear st. induction es as [|e es IH] using rev_ind; [done|].
    rewrite run_app. cbn [run foldl]. by apply listeners_step. }
  split; [done|]. intros Hp key. cbn [step].
  rewrite Hl, Hp, andb_false_r. done.
Qed.

Lemma keys_only_while_popover_open_witness :
  let st := run [EReply 0 (RTimestamps [1; 2]%Z); EPopover true; EKeyDown "ArrowLeft";
                 EPopover false] (mount "doc") in
  step (EKeyDown "ArrowLeft") st = st ∧ step (EKeyUp "ArrowLeft") st = st.
Proof.
  intros st.
  destruct (keys_only_while_popover_open "doc"
              [EReply 0 (RTimestamps [1; 2]%Z); EPopover true; EKeyDown "ArrowLeft";
               EPopover false]) as [_ Hk].
  apply Hk. vm_compute. reflexivity.
Defined.

(** ** What the backend is asked *)




















(** ** While the popover is closed *)

Lemma no_hold_sub st st' :
  holdTimeouts st = [] → holdIntervals st = [] →
  (∀ t, t ∈ timers st' → t ∈ timers st ∨ isSave t = true) →
  holdTimeouts st' = [] ∧ holdIntervals st' = [].
Proof.
  rewrite !holdTimeouts_nil, !holdIntervals_nil. intros Ht Hi Hsub.
  split; intros t [Hin|Hs]%Hsub; auto; by apply kinds_exclusive.
Qed.

Lemma assignContent_trace c st : trace (assignContent c st) = trace st.
Proof.
  unfold assignContent, contentEffect, handleContentChange.
  case_bool_decide; [done|]. destruct (alive st); [|done]. simpl.
  destruct (_ && _); [|done]. by destruct (saveTimeout st).
Qed.

Lemma resume_timers k r st t :
  t ∈ timers (resume k r st) → t ∈ timers st ∨ isSave t = true.
Proof.
  destruct k, r; cbn [resume]; cbv zeta; try (by left).
  - destruct (0 <? _)%nat; by left.
  - intros Hin. by apply (assignContent_scrub s st).
  - destruct (negb _); by left.
Qed.

Lemma resume_nav k r st :
  steps (trace (resume k r st)) = steps (trace st) ∧
  isTimeTravel (resume k r st) = isTimeTravel st.
Proof.
  destruct k, r; cbn [resume]; cbv zeta; try done.
  - by destruct (0 <? _)%nat.
  - change (steps (trace (assignContent s st)) = steps (trace st) ∧
            isTimeTravel (assignContent s st) = isTimeTravel st).
    rewrite assignContent_trace. split; [done|].
    by destruct (assignContent_scrub s st) as ((_ & ? & _)%scrubView_inv & _).
  - by destruct (negb _).
Qed.

(** With no key timer armed, a timer that fires is the save timer. *)
Lemma fire_no_hold h st :
  Inv st → holdTimeouts st = [] → holdIntervals st = [] →
  holdView (fire h st) = holdView st ∧ isTimeTravel (fire h st) = isTimeTravel st.
Proof.
  intros HI Ht Hi.
  assert (Hsave : ∀ t, t ∈ timers st → cb t = SaveCb).
  { intros t Hin. rewrite holdTimeouts_nil in Ht. rewrite holdIntervals_nil in Hi.
    specialize (Ht t Hin). specialize (Hi t Hin).
    unfold isHoldTimeout, isHoldInterval in *. by destruct (cb t). }
  split.
  - apply fire_hold_frame; [done|]. intros t Hin _. left.
    rewrite holdTimeouts_nil in Ht. rewrite holdIntervals_nil in Hi. auto.
  - apply fire_cases; [done|..]; intros; rewrite (Hsave t) by done;
      cbn [runCallback]; unfold performSave; simpl content; by destruct (content st).
Qed.

Lemma tick_no_hold st :
  Inv st → holdTimeouts st = [] → holdIntervals st = [] →
  holdTimeouts (tick st) = [] ∧ holdIntervals (tick st) = [] ∧
  steps (trace (tick st)) = steps (trace st) ∧
  isTimeTravel (tick st) = isTimeTravel st.
Proof.
  intros HI Ht Hi. unfold tick.
  apply (foldl_fire_preserves
    (λ s, Inv s ∧ holdTimeouts s = [] ∧ holdIntervals s = [] ∧
          steps (trace s) = steps (trace st) ∧ isTimeTravel s = isTimeTravel st));
    [|done].
  intros h s (HIs & Hts & His & Hss & Htt).
  destruct (fire_no_hold h s HIs Hts His) as [Hv Htt'].
  unfold holdView in Hv. injection Hv as H1 H2 H3 _.
  split; [by apply Inv_fire|]. repeat split; congruence.
Qed.

(** With the popover closed, an event that does not open it leaves it
    closed, takes no navigation step and neither enters nor leaves time
    travel. *)
Lemma closed_frame e st :
  Inv st → popoverClosed st → e ≠ EPopover true →
  popoverClosed (step e st) ∧ steps (trace (step e st)) = steps (trace st) ∧
  isTimeTravel (step e st) = isTimeTravel st.
Proof.
  intros HI (Hp & Hl & Ht & Hi) He.
  assert (Hkeep : ∀ st', uiSame st st' →
            (∀ t, t ∈ timers st' → t ∈ timers st ∨ isSave t = true) →
            popoverClosed st').
  { intros st' (Hl' & Hp' & _) Hsub.
    destruct (no_hold_sub st st' Ht Hi Hsub) as [? ?].
    split; [congruence|]. split; [congruence|]. done. }
  assert (Hnav : navVisible st = false).
  { unfold navVisible. rewrite Hp. by destruct (alive st). }
  destruct e; cbn [step]; rewrite ?Hnav, ?Hl; try done.
  - (* an edit *)
    destruct (alive st); [|done].
    destruct (assignContent_scrub c st) as ((_ & Htt & _)%scrubView_inv & _ & Hsub).
    split; [apply Hkeep; [apply assignContent_ui|done]|].
    by rewrite assignContent_trace.
  - by destruct (alive st).
  - (* closing the popover again *)
    destruct open; [done|]. rewrite Hp. cbn [eqb negb]. by rewrite andb_false_r.
  - (* a tick *)
    destruct (tick_no_hold st HI Ht Hi) as (H1 & H2 & H3 & H4).
    destruct (tick_ui st) as (Hl' & Hp' & _).
    split; [|done]. split; [congruence|]. split; [congruence|done].
  - (* a reply *)
    destruct (pending st !! id) as [k|]; [|done].
    set (st0 := log _ _).
    destruct (resume_nav k r st0) as [Hs Htt].
    split; [|done]. apply Hkeep; [exact (resume_ui k r st0)|].
    intros t Hin. by apply (resume_timers k r st0).
  - (* teardown *)
    destruct (alive st); [|done].
    destruct (onDestroy_trace st) as [Htr _].
    destruct (onDestroy_scrub st) as ((_ & Htt & _)%scrubView_inv & _).
    rewrite Htr. split; [|done].
    destruct (no_hold_sub st (onDestroy st) Ht Hi) as [? ?].
    { intros t [Hin _]%onDestroy_timers. by left. }
    split; [|done]. unfold onDestroy. cbv zeta.
    destruct (truthy (saveTimeout st)); simpl;
      destruct (truthy (keyHoldInterval st)); simpl;
      destruct (truthy (keyHoldTimeout st)); done.
Qed.

(** In every state the page reaches with the popover closed, the key
    listeners are removed and no key timer is armed. *)
Lemma closed_run doc es :
  isPopoverOpen (run es (mount doc)) = false → popoverClosed (run es (mount doc)).
Proof.
  induction es as [|e es IH] using rev_ind; [done|].
  rewrite run_app. cbn [run foldl].
  pose proof (Inv_run doc es) as HI.
  remember (run es (mount doc)) as st eqn:Est. clear Est.
  assert (Hcases : (∃ b, e = EPopover b) ∨ (∀ b, e ≠ EPopover b)).
  { destruct e; first [left; by eexists | right; intros b; discriminate]. }
  destruct Hcases as [[b ->]|Hne].
  - cbn [step]. destruct (alive st && negb (eqb b (isPopoverOpen st)) && _); [|done].
    unfold popoverEffect. simpl. destruct b; [done|]. intros _.
    set (st1 := set_listening false (set_isPopoverOpen false st)).
    destruct (clearKeyHold_ui st1) as (Hl & Hp & _).
    destruct (clearKeyHold_no_hold st1 HI) as [Hi Ht]. by repeat split.
  - intros Hp.
    assert (Hp0 : isPopoverOpen st = false).
    { rewrite <- Hp. symmetry.
      assert (e = EDestroy ∨ e ≠ EDestroy) as [->|Hd]
        by (destruct e; (by left) || (by right)).
      - cbn [step]. destruct (alive st); [|done]. unfold onDestroy. cbv zeta.
        destruct (truthy (saveTimeout st)); simpl;
          destruct (truthy (keyHoldInterval st)); simpl;
          destruct (truthy (keyHoldTimeout st)); done.
      - by destruct (step_ui e st Hne Hd) as (_ & ? & _). }
    by destruct (closed_frame e st HI (IH Hp0) (Hne true)) as [? _].
Qed.

Lemma closed_frames es st :
  Inv st → popoverClosed st → Forall (λ e, e ≠ EPopover true) es →
  Inv (run es st) ∧ popoverClosed (run es st) ∧
  steps (trace (run es st)) = steps (trace st) ∧
  isTimeTravel (run es st) = isTimeTravel st.
Proof.
  intros HI Hc Hes. revert st HI Hc.
  induction Hes as [|e es He Hes IH]; intros st HI Hc; [done|].
  change (run (e :: es) st) with (run es (step e st)).
  destruct (closed_frame e st HI Hc He) as (H1 & H2 & H3).
  destruct (IH (step e st) (Inv_step e st HI) H1) as (H4 & H5 & H6 & H7).
  split; [done|]. split; [done|]. split; congruence.
Qed.

(** X24: navigation needs the open popover.  In every state the page
    reaches with the popover closed, the key listeners are removed and no
    key timer is armed (closing the popover ends key repeat); and for as
    long as the popover stays closed no navigation step is taken and time
    travel is neither entered nor left, whatever else happens. *)
Theorem popover_closed_freezes_navigation doc es es' :
  let st := run es (mount doc) in
  isPopoverOpen st = false → Forall (λ e, e ≠ EPopover true) es' →
  let s := run es' st in
  popoverClosed st ∧ popoverClosed s ∧
  steps (trace s) = steps (trace st) ∧ isTimeTravel s = isTimeTravel st.
Proof.
  intros st Hp Hes s.
  pose proof (closed_run doc es Hp) as Hc.
  destruct (closed_frames es' (run es (mount doc)) (Inv_run doc es) Hc Hes)
    as (_ & H1 & H2 & H3).
  done.
Qed.

Lemma popover_closed_freezes_navigation_witness :
  let st := run [EReply 0 (RTimestamps [1; 2; 3]%Z); EPopover true;
                 EKeyDown "ArrowRight"; EPopover false] (mount "doc") in
  let s := run (replicate 400 ETick ++ [EKeyDown "ArrowLeft"; ENext]) st in
  holdTimeouts st = [] ∧ steps (trace s) = steps (trace st).
Proof.
  intros st s.
  destruct (popover_closed_freezes_navigation "doc"
              [EReply 0 (RTimestamps [1; 2; 3]%Z); EPopover true;
               EKeyDown "ArrowRight"; EPopover false]
              (replicate 400 ETick ++ [EKeyDown "ArrowLeft"; ENext]))
    as ((_ & _ & Ht & _) & _ & Hs & _).
  - vm_compute. reflexivity.
  - apply Forall_app. split; [apply Forall_replicate; discriminate|].
    repeat constructor; discriminate.
  - split; [exact Ht|exact Hs].
Defined.

(** * Saves that do not reach their end, and the return to the current version *)

(** ** A save that does not reach its end *)

Lemma stuckFrame_refl st : stuckFrame st st.
Proof. repeat split; auto. Qed.

Lemma stuckFrame_same st st' :
  saveTimeout st' = saveTimeout st → patches (trace st') = patches (trace st) →
  timers st' = timers st → pending st' = pending st → stuckFrame st st'.
Proof. intros Hs Hp Ht Hd. unfold stuckFrame. rewrite Hs, Hp, Ht, Hd. auto. Qed.

Lemma saveStuck_frame st st' : saveStuck st → stuckFrame st st' → saveStuck st'.
Proof.
  intros (Hsv & Ht & Hp) (Hsv' & _ & Ht' & Hp'). split; [congruence|]. split.
  - intros t [Hin|Hs]%Ht'; [by apply Ht|done].
  - intros id k [Hin|Hs]%Hp'; [by eapply Hp|done].
Qed.

Lemma stuckFrame_trans s1 s2 s3 :
  saveStuck s1 → stuckFrame s1 s2 → stuckFrame s2 s3 → stuckFrame s1 s3.
Proof.
  intros Hst H12 (Hsv' & Hpa' & Ht' & Hp'). destruct H12 as (Hsv & Hpa & Ht & Hp).
  split; [congruence|]. split; [congruence|]. split.
  - intros t [Hin|Hs]%Ht'; [by apply Ht|by right].
  - intros id k [Hin|Hs]%Hp'; [by apply Hp|by right].
Qed.

Lemma stuckFrame_invoke c k st :
  (∀ d x t, c ≠ CreatePatch d x t) → isSaveCont k = false →
  stuckFrame st (invoke c k st).
Proof.
  intros Hc Hk. unfold invoke. split; [done|]. split; [|split; [by left|]].
  - simpl. destruct c as [u x t| | |]; try done. by destruct (Hc u x t).
  - simpl. intros id k'. destruct (decide (id = nextReq st)) as [->|Hne].
    + rewrite lookup_insert_eq. intros [= <-]. by right.
    + rewrite lookup_insert_ne by done. by left.
Qed.

Lemma jumpToVersion_stuck i st : stuckFrame st (jumpToVersion i st).
Proof.
  unfold jumpToVersion. destruct (_ || _); [apply stuckFrame_refl|].
  unfold handleTimeTravelChange. cbv zeta.
  set (s1 := set_isTimeTravel true (set_timeTravelIndex [i] st)).
  destruct (stuckFrame_invoke (LoadDocumentAtTimestamp (docUuid s1)
              (at_index (timestamps s1) (head [i]))) KLoadVersion s1)
    as (H1 & H2 & H3 & H4); [done..|].
  by repeat split.
Qed.

Lemma handleTimeTravelChange_stuck v st : stuckFrame st (handleTimeTravelChange v st).
Proof.
  unfold handleTimeTravelChange. cbv zeta.
  set (s1 := set_isTimeTravel true (set_timeTravelIndex v st)).
  destruct (stuckFrame_invoke (LoadDocumentAtTimestamp (docUuid s1)
              (at_index (timestamps s1) (head v))) KLoadVersion s1)
    as (H1 & H2 & H3 & H4); [done..|].
  by repeat split.
Qed.

Lemma callStep_stuck d st : stuckFrame st (callStep d st).
Proof.
  unfold callStep, stepVersion. simpl.
  destruct (head (timeTravelIndex st)); [|by apply stuckFrame_same].
  destruct (_ && _); [|by apply stuckFrame_same].
  destruct (jumpToVersion_stuck (z + d) (log (OStep (now st) d) st))
    as (H1 & H2 & H3 & H4).
  by repeat split.
Qed.

Lemma clearKeyHold_stuck st : stuckFrame st (clearKeyHold st).
Proof.
  destruct (clearKeyHold_scrub st) as (_ & Hp & Ht).
  split; [by clearKeyHold_cases st|]. split; [by rewrite clearKeyHold_trace|].
  split; [by left; apply Ht|]. rewrite Hp. by left.
Qed.

Lemma assignContent_stuck c st : saveStuck st → stuckFrame st (assignContent c st).
Proof.
  intros (Hsv & _). unfold assignContent. case_bool_decide; [apply stuckFrame_refl|].
  destruct (alive st); [|by apply stuckFrame_same].
  rewrite contentEffect_pending by done. by apply stuckFrame_same.
Qed.

Lemma exitTimeTravel_stuck st : saveStuck st → stuckFrame st (exitTimeTravel st).
Proof.
  intros (Hsv & _). unfold exitTimeTravel.
  destruct (_ && _); [|by apply stuckFrame_same].
  rewrite contentEffect_pending by done. by apply stuckFrame_same.
Qed.

Lemma handleKeyDown_stuck key st : saveStuck st → stuckFrame st (handleKeyDown key st).
Proof.
  intros Hst. unfold handleKeyDown. destruct (negb _); [apply stuckFrame_refl|].
  destruct (isArrow key); [|apply stuckFrame_refl]. cbv zeta.
  set (d := if bool_decide (key = "ArrowLeft") then (-1)%Z else 1%Z).
  pose proof (clearKeyHold_stuck st) as H1.
  pose proof (callStep_stuck d (clearKeyHold st)) as H2.
  pose proof (stuckFrame_trans _ _ _ Hst H1 H2) as (Hsv & Hpa & Ht & Hp).
  split; [done|]. split; [done|]. split; [|done].
  simpl. intros t [Hin| ->%list_elem_of_singleton]%elem_of_app; [by apply Ht|by right].
Qed.

Lemma onDestroy_stuck st : stuckFrame st (onDestroy st).
Proof.
  destruct (onDestroy_scrub st) as [_ Hp]. destruct (onDestroy_trace st) as [Htr _].
  split; [|split; [by rewrite Htr|split]].
  - unfold onDestroy. cbv zeta.
    destruct (truthy (saveTimeout st)); simpl;
      destruct (truthy (keyHoldInterval st)); simpl;
      destruct (truthy (keyHoldTimeout st)); done.
  - intros t (Hin & _)%onDestroy_timers. by left.
  - rewrite Hp. by left.
Qed.

Lemma runCallback_stuck c st :
  c ≠ SaveCb → saveStuck st → stuckFrame st (runCallback c st).
Proof.
  intros Hc Hst. destruct c as [|d|d]; [done| |apply callStep_stuck].
  simpl. split; [done|]. split; [done|]. split; [|by left].
  intros t [Hin| ->%list_elem_of_singleton]%elem_of_app; [by left|by right].
Qed.

Lemma fire_stuck h st : saveStuck st → stuckFrame st (fire h st).
Proof.
  intros Hst. pose proof Hst as (Hsv & Hts & Hpd).
  assert (Hcb : ∀ t, t ∈ timers st → cb t ≠ SaveCb).
  { intros t Hin Hc. specialize (Hts t Hin). unfold isSave in Hts. by rewrite Hc in Hts. }
  apply fire_cases; [apply stuckFrame_refl|..].
  - intros t Hin _ _ _.
    assert (H1 : stuckFrame st (clearTimer h st)).
    { split; [done|]. split; [done|]. split; [|by left].
      intros u [_ Hu]%list_elem_of_filter. by left. }
    eapply stuckFrame_trans; [done|exact H1|].
    apply runCallback_stuck; [by apply Hcb|by eapply saveStuck_frame].
  - intros t p Hin _ _ _.
    assert (H1 : stuckFrame st (set_timers (rearm t p (timers st)) st)).
    { split; [done|]. split; [done|]. split; [|by left].
      simpl. unfold rearm. intros u (v & -> & Hv)%list_elem_of_fmap.
      case_bool_decide; [right|by left].
      specialize (Hts t Hin). unfold isSave in *. simpl. done. }
    eapply stuckFrame_trans; [done|exact H1|].
    apply runCallback_stuck; [by apply Hcb|by eapply saveStuck_frame].
Qed.

Lemma tick_stuck st : saveStuck st → stuckFrame st (tick st).
Proof.
  intros Hst. unfold tick.
  assert (H0 : stuckFrame st (set_now (S (now st)) st)) by by apply stuckFrame_same.
  apply (foldl_fire_preserves (λ s, stuckFrame st s)); [|done].
  intros h s Hs. eapply stuckFrame_trans; [done|exact Hs|].
  apply fire_stuck. by eapply saveStuck_frame.
Qed.

Lemma resume_stuck k r st :
  isSaveCont k = false → saveStuck st → stuckFrame st (resume k r st).
Proof.
  intros Hk Hst. destruct k; try discriminate Hk; destruct r; cbn [resume]; cbv zeta;
    try apply stuckFrame_refl.
  - destruct (stuckFrame_invoke (GetDocumentStats (docUuid st)) KMountStats
                (set_timestamps ts st)) as (H1 & H2 & H3 & H4); [done..|].
    by repeat split.
  - destruct (0 <? _)%nat; [|by apply stuckFrame_same].
    set (s1 := set_stats (Some s) st).
    destruct (stuckFrame_invoke (LoadDocumentAtTimestamp (docUuid s1)
                (Some (Z.of_nat (now s1)))) KMountLatest s1) as (H1 & H2 & H3 & H4);
      [done..|].
    by repeat split.
  - destruct (assignContent_stuck s st Hst) as (H1 & H2 & H3 & H4).
    by repeat split.
  - by apply stuckFrame_same.
Qed.

(** Once [saveTimeout] is stuck, no event changes that and nothing is
    saved. *)
Lemma step_stuck e st : saveStuck st → stuckFrame st (step e st).
Proof.
  intros Hst. destruct e; cbn [step].
  - destruct (alive st); [by apply assignContent_stuck|apply stuckFrame_refl].
  - destruct (alive st); [by apply stuckFrame_same|apply stuckFrame_refl].
  - destruct (_ && _); [|apply stuckFrame_refl]. unfold popoverEffect. simpl.
    destruct open; [by apply stuckFrame_same|].
    destruct (clearKeyHold_stuck (set_listening false (set_isPopoverOpen false st)))
      as (H1 & H2 & H3 & H4).
    by repeat split.
  - destruct (navVisible st); [apply handleTimeTravelChange_stuck|apply stuckFrame_refl].
  - destruct (navVisible st); [apply jumpToVersion_stuck|apply stuckFrame_refl].
  - destruct (navVisible st); [apply callStep_stuck|apply stuckFrame_refl].
  - destruct (navVisible st); [apply callStep_stuck|apply stuckFrame_refl].
  - destruct (navVisible st); [apply jumpToVersion_stuck|apply stuckFrame_refl].
  - destruct (_ && _); [by apply exitTimeTravel_stuck|apply stuckFrame_refl].
  - destruct (listening st); [by apply handleKeyDown_stuck|apply stuckFrame_refl].
  - destruct (listening st); [|apply stuckFrame_refl].
    unfold handleKeyUp. destruct (isArrow key);
      [apply clearKeyHold_stuck|apply stuckFrame_refl].
  - by apply tick_stuck.
  - destruct (pending st !! id) as [k|] eqn:Hk; [|apply stuckFrame_refl].
    pose proof Hst as (_ & _ & Hpd).
    set (s0 := log (OSettle (now st) id k r) (set_pending (delete id (pending st)) st)).
    assert (H0 : stuckFrame st s0).
    { split; [done|]. split; [done|]. split; [by left|].
      simpl. intros i j [_ ?]%lookup_delete_Some. by left. }
    eapply stuckFrame_trans; [done|exact H0|].
    apply resume_stuck; [by eapply Hpd|by eapply saveStuck_frame].
  - destruct (alive st); [apply onDestroy_stuck|apply stuckFrame_refl].
Qed.

Lemma run_stuck es st :
  saveStuck st → saveStuck (run es st) ∧ stuckFrame st (run es st).
Proof.
  intros Hst. induction es as [|e es [IH1 IH2]] using rev_ind.
  { split; [done|apply stuckFrame_refl]. }
  rewrite run_snoc. pose proof (step_stuck e _ IH1) as Hf.
  split; [by eapply saveStuck_frame|by eapply stuckFrame_trans].
Qed.

(** ** A save from the reply to createPatch to its end *)

(** What one reply of the backend does to a save in flight. *)
Lemma save_reply id r k st :
  pending st !! id = Some k → isSaveCont k = true →
  let st' := step (EReply id r) st in
  timers st' = timers st ∧ nextHandle st' = nextHandle st ∧ now st' = now st ∧
  alive st' = alive st ∧ content st' = content st ∧
  isTimeTravel st' = isTimeTravel st ∧ mode st' = mode st ∧
  patches (trace st') = patches (trace st) ∧ docUuid st' = docUuid st ∧
  match k, r with
  | KSaveCreate, _ =>
      pending st' = <[nextReq st := KSaveTimestamps]> (delete id (pending st)) ∧
      nextReq st' = S (nextReq st) ∧ saveTimeout st' = saveTimeout st ∧
      timestamps st' = timestamps st ∧ timeTravelIndex st' = timeTravelIndex st ∧
      stats st' = stats st
  | KSaveTimestamps, RTimestamps ts =>
      pending st' = <[nextReq st := KSaveStats]> (delete id (pending st)) ∧
      nextReq st' = S (nextReq st) ∧ saveTimeout st' = saveTimeout st ∧
      timestamps st' = ts ∧ timeTravelIndex st' = timeTravelIndex st ∧
      stats st' = stats st
  | KSaveStats, RStats s =>
      pending st' = delete id (pending st) ∧
      nextReq st' = nextReq st ∧ saveTimeout st' = None ∧
      timestamps st' = timestamps st ∧
      timeTravelIndex st' =
        (if isTimeTravel st then timeTravelIndex st else [lastIndex st]) ∧
      stats st' = Some s
  | _, _ =>
      pending st' = delete id (pending st) ∧
      nextReq st' = nextReq st ∧ saveTimeout st' = saveTimeout st ∧
      timestamps st' = timestamps st ∧ timeTravelIndex st' = timeTravelIndex st ∧
      stats st' = stats st
  end.
Proof.
  intros Hid Hk. cbv zeta. rewrite (step_reply id r k st Hid).
  destruct k; try discriminate Hk; destruct r; cbn [resume]; cbv zeta;
    try (by repeat split).
  destruct (isTimeTravel st) eqn:Htt; simpl; rewrite ?Htt; by repeat split.
Qed.

Lemma pending_after (m : gmap ReqId Cont) i x j y :
  delete i (<[i := x]> m) !! j = Some y → m !! j = Some y.
Proof.
  intros [Hne [[? ?]|[_ ?]]%lookup_insert_Some]%lookup_delete_Some; [congruence|done].
Qed.

Lemma completion_spec k id r ts s st :
  pending st !! id = Some k → isSaveCont k = true →
  let st' := run (completion k id (nextReq st) r ts s) st in
  saveTimeout st' = None ∧ stats st' = Some s ∧
  timestamps st' = match k with KSaveStats => timestamps st | _ => ts end ∧
  timeTravelIndex st' =
    (if isTimeTravel st then timeTravelIndex st else [lastIndex st']) ∧
  timers st' = timers st ∧ nextHandle st' = nextHandle st ∧ now st' = now st ∧
  alive st' = alive st ∧ content st' = content st ∧
  isTimeTravel st' = isTimeTravel st ∧ mode st' = mode st ∧
  patches (trace st') = patches (trace st) ∧
  (∀ id' k', pending st' !! id' = Some k' → pending st !! id' = Some k' ∧ id' ≠ id).
Proof.
  intros Hid Hk.
  assert (Hstats : ∀ i st0, pending st0 !! i = Some KSaveStats →
    let st' := step (EReply i (RStats s)) st0 in
    saveTimeout st' = None ∧ stats st' = Some s ∧ timestamps st' = timestamps st0 ∧
    timeTravelIndex st' =
      (if isTimeTravel st0 then timeTravelIndex st0 else [lastIndex st']) ∧
    timers st' = timers st0 ∧ nextHandle st' = nextHandle st0 ∧ now st' = now st0 ∧
    alive st' = alive st0 ∧ content st' = content st0 ∧
    isTimeTravel st' = isTimeTravel st0 ∧ mode st' = mode st0 ∧
    patches (trace st') = patches (trace st0) ∧ pending st' = delete i (pending st0)).
  { intros i st0 Hi.
    destruct (save_reply i (RStats s) KSaveStats st0 Hi eq_refl)
      as (?&?&?&?&?&?&?&?&?&?&?&?&Hts&Hidx&?).
    cbv zeta. unfold lastIndex. rewrite Hts. by repeat split. }
  destruct k; try discriminate Hk; cbn [completion run foldl].
  - destruct (save_reply id r KSaveCreate st Hid eq_refl)
      as (Ht1&Hh1&Hn1&Ha1&Hc1&Hb1&Hm1&Hp1&_&Hx1).
    assert (Hy1 : pending (step (EReply id r) st)
                    = <[nextReq st := KSaveTimestamps]> (delete id (pending st)) ∧
                  nextReq (step (EReply id r) st) = S (nextReq st) ∧
                  timeTravelIndex (step (EReply id r) st) = timeTravelIndex st)
      by (destruct r; tauto).
    clear Hx1. destruct Hy1 as (Hpd1 & Hq1 & Hi1).
    remember (step (EReply id r) st) as s1 eqn:E1. clear E1.
    assert (H1 : pending s1 !! nextReq st = Some KSaveTimestamps)
      by (rewrite Hpd1; apply lookup_insert_eq).
    destruct (save_reply (nextReq st) (RTimestamps ts) KSaveTimestamps s1 H1 eq_refl)
      as (Ht2&Hh2&Hn2&Ha2&Hc2&Hb2&Hm2&Hp2&_&Hpd2&Hq2&_&Hts2&Hi2&_).
    remember (step (EReply (nextReq st) (RTimestamps ts)) s1) as s2 eqn:E2. clear E2.
    assert (H2 : pending s2 !! S (nextReq st) = Some KSaveStats)
      by (rewrite Hpd2, Hq1; apply lookup_insert_eq).
    destruct (Hstats _ s2 H2) as (?&?&Hts3&Hi3&?&?&?&?&?&?&?&?&Hpd3).
    split; [done|]. split; [done|]. split; [congruence|].
    split; [rewrite Hi3, Hb2, Hb1; destruct (isTimeTravel st); congruence|].
    repeat (split; [congruence|]).
    intros id' k'. rewrite Hpd3, Hpd2, Hpd1, Hq1.
    intros Hl%pending_after%pending_after. by apply lookup_delete_Some in Hl as [? ?].
  - destruct (save_reply id (RTimestamps ts) KSaveTimestamps st Hid eq_refl)
      as (Ht2&Hh2&Hn2&Ha2&Hc2&Hb2&Hm2&Hp2&_&Hpd2&Hq2&_&Hts2&Hi2&_).
    remember (step (EReply id (RTimestamps ts)) st) as s2 eqn:E2. clear E2.
    assert (H2 : pending s2 !! nextReq st = Some KSaveStats)
      by (rewrite Hpd2; apply lookup_insert_eq).
    destruct (Hstats _ s2 H2) as (?&?&Hts3&Hi3&?&?&?&?&?&?&?&?&Hpd3).
    split; [done|]. split; [done|]. split; [congruence|].
    split; [rewrite Hi3, Hb2; destruct (isTimeTravel st); congruence|].
    repeat (split; [congruence|]).
    intros id' k'. rewrite Hpd3, Hpd2.
    intros Hl%pending_after. by apply lookup_delete_Some in Hl as [? ?].
  - destruct (Hstats _ st Hid) as (?&?&Hts3&Hi3&?&?&?&?&?&?&?&?&Hpd3).
    repeat (split; [done|]).
    intros id' k'. rewrite Hpd3. intros [? ?]%lookup_delete_Some. done.
Qed.






(** X4: an edit made while a save is in flight (whichever of its three
    calls is awaiting its answer: createPatch, the timeline refresh or
    the statistics refresh) changes the content and nothing else: no
    timer is armed for it.  When the save then completes, [saveTimeout] is
    cleared with no timer armed, so the text of that edit is not saved
    however long the page waits; only a later edit starts a new window. *)
Theorem edit_during_save_is_not_scheduled doc es id k c r ts s :
  let st := run es (mount doc) in
  pending st !! id = Some k → isSaveCont k = true → alive st = true →
  let st1 := step (EEdit c) st in
  let st2 := run (completion k id (nextReq st) r ts s) st1 in
  content st1 = Some c ∧ timers st1 = timers st ∧
  saveTimeout st1 = saveTimeout st ∧
  content st2 = Some c ∧ saveTimeout st2 = None ∧ saveTimers st2 = [] ∧
  ∀ n, patches (trace (advance n st2)) = patches (trace st) ∧
       content (advance n st2) = Some c.
Proof.
  intros st Hk Hs Ha st1 st2.
  pose proof (Inv_run doc es : Inv st) as HI.
  destruct (Inv_save_counts st HI) as (_ & _ & Hfl).
  destruct (Hfl id k Hk Hs) as [Hnil Hsv].
  assert (H1 : content st1 = Some c ∧ timers st1 = timers st ∧
               saveTimeout st1 = saveTimeout st ∧ pending st1 = pending st ∧
               trace st1 = trace st ∧ nextReq st1 = nextReq st).
  { unfold st1. rewrite edit_while_pending by done. by case_bool_decide. }
  destruct H1 as (Hc1 & Ht1 & Hsv1 & Hp1 & Htr1 & Hq1).
  pose proof (Inv_step (EEdit c) st HI : Inv st1) as HI1.
  pose proof (Inv_run_from (completion k id (nextReq st) r ts s) st1 HI1 : Inv st2) as HI2.
  assert (H2 : content st2 = Some c ∧ saveTimeout st2 = None ∧
               timers st2 = timers st ∧ patches (trace st2) = patches (trace st)).
  { unfold st2. rewrite <- Hq1.
    destruct (completion_spec k id r ts s st1 ltac:(by rewrite Hp1) Hs)
      as (?&_&_&_&?&_&_&_&?&_&_&?&_).
    split; [congruence|]. split; [done|]. split; congruence. }
  destruct H2 as (Hc2 & Hsv2 & Ht2 & Hp2).
  assert (Hnil2 : saveTimers st2 = []).
  { unfold saveTimers. rewrite Ht2. exact Hnil. }
  clearbody st1 st2.
  split; [done|]. split; [done|]. split; [done|]. split; [done|].
  split; [done|]. split; [done|]. intros n.
  destruct (saveView_inv _ _ _ _ _ _ _ (advance_save_wait n st2 HI2
              ltac:(rewrite Hnil2; by intros t Ht%elem_of_nil)))
    as (_ & _ & Hc & Hp & _).
  split; congruence.
Qed.

Lemma edit_during_save_is_not_scheduled_witness :
  let st := run (replicate 500 ETick) (mount "doc") in
  let st2 := run [EReply 1 (RString "ok"); EReply 2 (RTimestamps [500%Z]);
                  EReply 3 (RStats (mkStats 1 2 0 (0 # 1)))]
               (step (EEdit "lost") st) in
  content st2 = Some "lost" ∧ saveTimeout st2 = None ∧
  patches (trace (advance 2000 st2)) = patches (trace st).
Proof.
  intros st st2.
  destruct (edit_during_save_is_not_scheduled "doc" (replicate 500 ETick)
              1 KSaveCreate "lost" (RString "ok") [500%Z] (mkStats 1 2 0 (0 # 1)))
    as (_ & _ & _ & Hc & Hsv & _ & Hn);
    [vm_compute; reflexivity|reflexivity|vm_compute; reflexivity|].
  split; [exact Hc|]. split; [exact Hsv|]. apply (Hn 2000).
Defined.

(** ** Timers are due in the future *)

Lemma aheadFrame_refl st : aheadFrame st st.
Proof. split; [done|]. by left. Qed.

Lemma aheadFrame_trans s1 s2 s3 : aheadFrame s1 s2 → aheadFrame s2 s3 → aheadFrame s1 s3.
Proof.
  intros [Hn Ht] [Hn' Ht']. split; [congruence|].
  intros t [Hin|Ha]%Ht'; [by apply Ht|right; by rewrite <- Hn].
Qed.

Lemma aheadFrame_sub st st' :
  now st' = now st → (∀ t, t ∈ timers st' → t ∈ timers st) → aheadFrame st st'.
Proof. intros Hn Hs. split; [done|]. intros t Hin. left. by apply Hs. Qed.

Lemma aheadFrame_nav st st' : navFrame st st' → aheadFrame st st'.
Proof.
  intros (Ht & _ & _ & _ & _ & Hn & _). apply aheadFrame_sub; [done|].
  by rewrite Ht.
Qed.

Lemma timersAhead_frame st st' : timersAhead st → aheadFrame st st' → timersAhead st'.
Proof.
  intros Ha [Hn Ht] t [Hin|Hnew]%Ht; rewrite Hn; [by apply Ha|done].
Qed.

Lemma aheadFrame_add c d p st :
  0 < d → (∀ q, p = Some q → 0 < q) →
  aheadFrame st (addTimer c d p st).2.
Proof.
  intros Hd Hp. split; [done|]. simpl.
  intros t [Hin| ->%list_elem_of_singleton]%elem_of_app; [by left|right].
  split; [simpl; lia|done].
Qed.

Lemma handleContentChange_ahead st : aheadFrame st (handleContentChange st).
Proof.
  unfold handleContentChange. destruct (saveTimeout st); [apply aheadFrame_refl|].
  destruct (aheadFrame_add SaveCb SAVE_THROTTLE_MS None st) as [Hn Ht];
    [unfold SAVE_THROTTLE_MS; lia|done|].
  by split.
Qed.

Lemma contentEffect_ahead st : aheadFrame st (contentEffect st).
Proof.
  unfold contentEffect. destruct (_ && _);
    [apply handleContentChange_ahead|apply aheadFrame_refl].
Qed.

Lemma assignContent_ahead c st : aheadFrame st (assignContent c st).
Proof.
  unfold assignContent. case_bool_decide; [apply aheadFrame_refl|].
  destruct (alive st); [|by apply aheadFrame_sub].
  destruct (contentEffect_ahead (set_content (Some c) st)) as [Hn Ht]. by split.
Qed.

Lemma clearKeyHold_ahead st : aheadFrame st (clearKeyHold st).
Proof.
  apply aheadFrame_sub; [apply clearKeyHold_now|].
  by destruct (clearKeyHold_scrub st) as (_ & _ & ?).
Qed.

Lemma handleKeyDown_ahead key st : aheadFrame st (handleKeyDown key st).
Proof.
  unfold handleKeyDown. destruct (negb _); [apply aheadFrame_refl|].
  destruct (isArrow key); [|apply aheadFrame_refl]. cbv zeta.
  set (d := if bool_decide (key = "ArrowLeft") then (-1)%Z else 1%Z).
  eapply aheadFrame_trans; [apply clearKeyHold_ahead|].
  eapply aheadFrame_trans; [apply aheadFrame_nav, callStep_frame|].
  destruct (aheadFrame_add (HoldTimeoutCb d) 300 None (callStep d (clearKeyHold st)))
    as [Hn Ht]; [lia|done|].
  by split.
Qed.

Lemma exitTimeTravel_ahead st : aheadFrame st (exitTimeTravel st).
Proof.
  unfold exitTimeTravel. destruct (_ && _); [|by apply aheadFrame_sub].
  set (s1 := log _ _). destruct (contentEffect_ahead s1) as [Hn Ht]. by split.
Qed.

Lemma onDestroy_ahead st : aheadFrame st (onDestroy st).
Proof.
  apply aheadFrame_sub; [by destruct (onDestroy_trace st)|].
  by intros t (? & _)%onDestroy_timers.
Qed.

Lemma resume_ahead k r st : aheadFrame st (resume k r st).
Proof.
  destruct k, r; cbn [resume]; cbv zeta; try apply aheadFrame_refl;
    try (by apply aheadFrame_sub).
  - destruct (0 <? _)%nat; by apply aheadFrame_sub.
  - destruct (assignContent_ahead s st) as [Hn Ht]. by split.
  - destruct (negb _); by apply aheadFrame_sub.
Qed.

Lemma runCallback_ahead c st : aheadFrame st (runCallback c st).
Proof.
  destruct c as [|d|d]; cbn [runCallback].
  - unfold performSave. destruct (content st); by apply aheadFrame_sub.
  - destruct (aheadFrame_add (HoldIntervalCb d) 50 (Some 50) st) as [Hn Ht];
      [lia|by intros q [= <-]; lia|].
    by split.
  - apply aheadFrame_nav, callStep_frame.
Qed.

(** Firing the timers that are due at the new time [n]: those that are
    still to be fired are the only ones not yet in the future. *)
Lemma fire_ahead n h hs st :
  Inv st → now st = n →
  (∀ t, t ∈ timers st → n ≤ due t ∧ (∀ p, period t = Some p → 0 < p) ∧
                         (n < due t ∨ handle t ∈ h :: hs)) →
  ∀ t, t ∈ timers (fire h st) → n ≤ due t ∧ (∀ p, period t = Some p → 0 < p) ∧
                                 (n < due t ∨ handle t ∈ hs).
Proof.
  intros HI Hn Hall.
  assert (Hnew : ∀ s c, now s = n →
            (∀ t, t ∈ timers s → n ≤ due t ∧ (∀ p, period t = Some p → 0 < p) ∧
                                   (n < due t ∨ handle t ∈ hs)) →
            ∀ t, t ∈ timers (runCallback c s) →
                 n ≤ due t ∧ (∀ p, period t = Some p → 0 < p) ∧
                 (n < due t ∨ handle t ∈ hs)).
  { intros s c Hs Hold t Hin. destruct (runCallback_ahead c s) as [_ Hf].
    destruct (Hf t Hin) as [Ht|[Hd Hp]]; [by apply Hold|].
    rewrite Hs in Hd. split; [lia|]. split; [done|]. by left. }
  unfold fire. destruct (findTimer h (timers st)) as [t0|] eqn:E.
  - apply findTimer_Some in E as [Hin0 Hh0].
    destruct (due t0 <=? now st)%nat eqn:Hd.
    + apply Nat.leb_le in Hd. destruct (Hall t0 Hin0) as (Hge & Hp0 & _).
      destruct (period t0) as [p|] eqn:Hp.
      * apply Hnew; [done|]. simpl. unfold rearm.
        intros t (u & -> & Hu)%list_elem_of_fmap.
        destruct (Hall u Hu) as (Hgu & Hpu & Hor).
        case_bool_decide as Hh; simpl.
        -- pose proof (Hp0 p eq_refl). split; [lia|].
           split; [by intros q [= <-]|]. left. lia.
        -- split; [done|]. split; [done|].
           destruct Hor as [?|[Heq|?]%elem_of_cons]; [by left|congruence|by right].
      * apply Hnew; [done|]. simpl.
        intros t [Hne Ht]%list_elem_of_filter.
        destruct (Hall t Ht) as (Hgt & Hpt & Hor).
        split; [done|]. split; [done|].
        destruct Hor as [?|[Heq|?]%elem_of_cons]; [by left|congruence|by right].
    + apply Nat.leb_gt in Hd. intros t Ht.
      destruct (Hall t Ht) as (Hgt & Hpt & Hor).
      split; [done|]. split; [done|].
      destruct Hor as [?|[Heq|?]%elem_of_cons]; [by left| |by right].
      assert (t = t0) as -> by (eapply handle_inj; [apply HI|done..|congruence]).
      left. lia.
  - intros t Ht. destruct (Hall t Ht) as (Hgt & Hpt & Hor).
    split; [done|]. split; [done|].
    destruct Hor as [?|[Heq|?]%elem_of_cons]; [by left| |by right].
    by destruct (findTimer_None _ _ E t Ht).
Qed.

Lemma fire_now h st : now (fire h st) = now st.
Proof.
  apply fire_cases; [done| |].
  - intros t _ _ _ _.
    by destruct (runCallback_ahead (cb t) (clearTimer h st)) as [-> _].
  - intros t p _ _ _ _.
    by destruct (runCallback_ahead (cb t) (set_timers (rearm t p (timers st)) st))
      as [-> _].
Qed.

Lemma tick_ahead st : Inv st → timersAhead st → timersAhead (tick st).
Proof.
  intros HI Ha. unfold tick.
  set (s1 := set_now (S (now st)) st).
  assert (Hgen : ∀ hs s, Inv s → now s = S (now st) →
    (∀ t, t ∈ timers s → S (now st) ≤ due t ∧ (∀ p, period t = Some p → 0 < p) ∧
                          (S (now st) < due t ∨ handle t ∈ hs)) →
    timersAhead (foldl (λ s h, fire h s) s hs)).
  { induction hs as [|h hs IH]; intros s HIs Hn Hall.
    - intros t Ht. simpl in Ht. destruct (Hall t Ht) as (_ & Hp & [Hlt|Hin]).
      + split; [simpl; lia|done].
      + by apply elem_of_nil in Hin.
    - simpl. apply IH; [by apply Inv_fire|by rewrite fire_now|].
      by apply (fire_ahead _ h hs s). }
  apply Hgen; [done|done|].
  intros t Ht. destruct (Ha t Ht) as [Hlt Hp].
  split; [lia|]. split; [done|].
  destruct (decide (due t ≤ S (now st))) as [Hd|Hd]; [right|left; lia].
  by apply due_handle.
Qed.

Lemma step_ahead e st : Inv st → timersAhead st → timersAhead (step e st).
Proof.
  intros HI Ha.
  destruct e; cbn [step]; try (by apply tick_ahead);
    (eapply timersAhead_frame; [exact Ha|]).
  - destruct (alive st); [apply assignContent_ahead|apply aheadFrame_refl].
  - destruct (alive st); [by apply aheadFrame_sub|apply aheadFrame_refl].
  - destruct (_ && _); [|apply aheadFrame_refl]. unfold popoverEffect. simpl.
    destruct open; [by apply aheadFrame_sub|].
    destruct (clearKeyHold_ahead (set_listening false (set_isPopoverOpen false st)))
      as [Hn Ht].
    by split.
  - destruct (navVisible st);
      [apply aheadFrame_nav, handleTimeTravelChange_frame|apply aheadFrame_refl].
  - destruct (navVisible st); [apply aheadFrame_nav, jumpToVersion_frame|apply aheadFrame_refl].
  - destruct (navVisible st); [apply aheadFrame_nav, callStep_frame|apply aheadFrame_refl].
  - destruct (navVisible st); [apply aheadFrame_nav, callStep_frame|apply aheadFrame_refl].
  - destruct (navVisible st); [apply aheadFrame_nav, jumpToVersion_frame|apply aheadFrame_refl].
  - destruct (_ && _); [apply exitTimeTravel_ahead|apply aheadFrame_refl].
  - destruct (listening st); [apply handleKeyDown_ahead|apply aheadFrame_refl].
  - destruct (listening st); [|apply aheadFrame_refl].
    unfold handleKeyUp. destruct (isArrow key);
      [apply clearKeyHold_ahead|apply aheadFrame_refl].
  - destruct (pending st !! id) as [k|]; [|apply aheadFrame_refl].
    set (s0 := log _ _). destruct (resume_ahead k r s0) as [Hn Ht]. by split.
  - destruct (alive st); [apply onDestroy_ahead|apply aheadFrame_refl].
Qed.

Lemma run_ahead es st : Inv st → timersAhead st → timersAhead (run es st).
Proof.
  intros HI Ha. induction es as [|e es IH] using rev_ind; [done|].
  rewrite run_snoc. apply step_ahead; [by apply Inv_run_from|done].
Qed.

Lemma mount_ahead doc : timersAhead (mount doc).
Proof.
  intros t Ht. vm_compute in Ht. apply list_elem_of_singleton in Ht as ->.
  split; [simpl; lia|done].
Qed.

(** ** The save after leaving time travel *)

Lemma filter_all {A} (P : A → Prop) `{∀ x, Decision (P x)} (l : list A) :
  (∀ x, x ∈ l → P x) → filter P l = l.
Proof.
  induction l as [|a l IH]; intros Hall; [done|].
  rewrite filter_cons_True by (apply Hall; left).
  f_equal. apply IH. intros x Hx. apply Hall. by right.
Qed.

(** With no key held, an armed save timer is the only timer. *)
Lemma save_timer_alone st t :
  Inv st → settled st → t ∈ saveTimers st → timers st = [t].
Proof.
  intros HI [Hh _]%settled_iff Hin.
  assert (Hall : saveTimers st = timers st).
  { apply filter_all. intros u Hu. destruct (Hh u Hu) as [H1 H2].
    unfold isSave, isHoldTimeout, isHoldInterval in *. by destruct (cb u). }
  destruct (Inv_save_counts st HI) as (Hlen & _).
  rewrite Hall in Hin, Hlen.
  destruct (timers st) as [|u [|v l]]; [by apply elem_of_nil in Hin| |simpl in Hlen; lia].
  by apply list_elem_of_singleton in Hin as ->.
Qed.

(** The only timer is a save timer: when it is due, [createPatch] is
    called with the content of that moment. *)
Lemma save_alone_fires st t c :
  timers st = [t] → cb t = SaveCb → period t = None → now st < due t →
  content st = Some c →
  advance (due t - now st) st =
    invoke (CreatePatch (docUuid st) c (due t)) KSaveCreate
      (set_timers [] (set_now (due t) st)).
Proof.
  intros Ht Hc Hp Hd Hcon.
  replace (due t - now st) with ((due t - now st - 1) + 1) by lia.
  rewrite advance_add, advance_1.
  rewrite advance_idle
    by (rewrite Ht; intros u ->%list_elem_of_singleton; lia).
  replace (now st + (due t - now st - 1)) with (due t - 1) by lia.
  unfold tick, dueHandles. simpl now. simpl timers. rewrite Ht.
  replace (S (due t - 1)) with (due t) by lia.
  rewrite filter_cons_True by (simpl; lia). rewrite filter_nil.
  cbn [fmap list_fmap foldl]. unfold fire, findTimer. simpl timers. rewrite Ht.
  rewrite filter_cons_True by done. rewrite filter_nil. cbn [head hd_error].
  simpl now. rewrite (proj2 (Nat.leb_le _ _) (le_n (due t))), Hp, Hc.
  cbn [runCallback]. unfold performSave, clearTimer. simpl. rewrite Ht, Hcon.
  rewrite filter_cons_False by (simpl; tauto). done.
Qed.

(** While [saveTimeout] is stuck and no key is held, events other than
    navigation leave the index where it is. *)
Lemma stuck_quiet_step e st :
  isQuiet e = true → settled st → saveStuck st →
  scrubView (step e st) = scrubView st.
Proof.
  intros Hq Hs Hst. destruct e; try discriminate Hq; cbn [step].
  - destruct (alive st); [|done]. by destruct (assignContent_scrub c st).
  - destruct (_ && _); [|done]. unfold popoverEffect. simpl.
    destruct open; [done|].
    by destruct (clearKeyHold_scrub (set_listening false (set_isPopoverOpen false st))).
  - by destruct (settled_tick st Hs).
  - destruct (pending st !! id) as [k|] eqn:Hk; [|done].
    pose proof Hs as [_ Hp]%settled_iff. pose proof (Hp _ _ Hk) as Hnm.
    destruct Hst as (_ & _ & Hpd). pose proof (Hpd _ _ Hk) as Hns.
    destruct k; try discriminate Hnm; try discriminate Hns. by destruct r.
  - destruct (alive st); [|done]. by destruct (onDestroy_scrub st).
Qed.

Lemma stuck_quiet_run es st :
  Forall (λ e, isQuiet e = true) es → settled st → saveStuck st →
  scrubView (run es st) = scrubView st ∧
  patches (trace (run es st)) = patches (trace st).
Proof.
  intros Hq Hs Hst. split; [|by destruct (run_stuck es st Hst) as [_ (_ & ? & _)]].
  induction es as [|e es IH] using rev_ind; [done|].
  apply Forall_app in Hq as [Hq He]. apply Forall_inv in He.
  rewrite run_snoc, <- (IH Hq).
  apply stuck_quiet_step; [done| |by apply run_stuck].
  by destruct (quiet_run es st Hq Hs).
Qed.

Lemma content_run es st :
  (∃ c, content st = Some c) → ∃ c, content (run es st) = Some c.
Proof.
  intros Hc. induction es as [|e es [c IH]] using rev_ind; [done|].
  rewrite run_snoc.
  destruct (step_content_cases e (run es st)) as [->|(c' & -> & _)]; eauto.
Qed.

(** C3, as the code has it: from Write mode on a five-version timeline,
    [jumpToVersion 2] turns time travel on with the index at 2; saves
    completing meanwhile (and edits, ticks, popover toggles) leave the
    index at 2 and the mode at Write although the timeline grows;
    [exitTimeTravel] turns time travel off and clears the shown text but
    leaves the index at 2.  The index moves to the new length-1 when a
    save next completes: leaving time travel arms the save timer when
    [saveTimeout] is clear; an armed timer is due in the future, at that
    time [createPatch] is called (the index still at 2), and when the
    three calls of the save are answered the index is on the last version
    of the refreshed timeline; a save that was in flight at the exit ends
    the same way; and if [saveTimeout] is stuck (no timer, no save in
    flight) nothing is saved and the index stays at 2.  While the page is
    mounted there is no fourth case. *)
Theorem C3_time_travel_until_exit doc es evs :
  let st := run es (mount doc) in
  length (timestamps st) = 5 → mode st = write → settled st →
  Forall (λ e, isQuiet e = true) evs →
  let st1 := jumpToVersion 2 st in
  let st2 := run evs st1 in
  let st3 := exitTimeTravel st2 in
  (isTimeTravel st1 = true ∧ timeTravelIndex st1 = [2%Z] ∧ mode st1 = write) ∧
  (isTimeTravel st2 = true ∧ timeTravelIndex st2 = [2%Z] ∧ mode st2 = write) ∧
  (isTimeTravel st3 = false ∧ timeTravelContent st3 = "" ∧
   timeTravelIndex st3 = [2%Z] ∧ mode st3 = write ∧
   timestamps st3 = timestamps st2 ∧ now st3 = now st2) ∧
  (alive st2 = true → saveTimeout st2 = None →
     saveTimers st3 =
       [mkTimer (nextHandle st2) (now st2 + SAVE_THROTTLE_MS) None SaveCb]) ∧
  (∀ t r ts' s, t ∈ saveTimers st3 →
     let st4 := advance (due t - now st3) st3 in
     let st5 := run (completion KSaveCreate (nextReq st3) (S (nextReq st3)) r ts' s)
                  st4 in
     now st3 < due t ∧
     (∃ c, content st3 = Some c ∧
           patches (trace st4) = (c, due t) :: patches (trace st3)) ∧
     pending st4 !! nextReq st3 = Some KSaveCreate ∧
     timeTravelIndex st4 = [2%Z] ∧
     timeTravelIndex st5 = [(Z.of_nat (length ts') - 1)%Z] ∧ timestamps st5 = ts' ∧
     isTimeTravel st5 = false ∧ mode st5 = write ∧ saveTimeout st5 = None) ∧
  (∀ id k r ts' s, pending st3 !! id = Some k → isSaveCont k = true →
     let st5 := run (completion k id (nextReq st3) r ts' s) st3 in
     timeTravelIndex st5 = [lastIndex st5] ∧
     timestamps st5 = match k with KSaveStats => timestamps st3 | _ => ts' end ∧
     isTimeTravel st5 = false ∧ mode st5 = write ∧ saveTimeout st5 = None) ∧
  (saveStuck st2 → ∀ evs', Forall (λ e, isQuiet e = true) evs' →
     timeTravelIndex (run evs' st3) = [2%Z] ∧
     isTimeTravel (run evs' st3) = false ∧
     saveTimers (run evs' st3) = [] ∧
     patches (trace (run evs' st3)) = patches (trace st2)) ∧
  (alive st2 = true →
     saveTimers st3 ≠ [] ∨
     (∃ id k, pending st3 !! id = Some k ∧ isSaveCont k = true) ∨
     saveStuck st2).
Proof.
  intros st Hlen Hm Hs Hq st1 st2 st3.
  pose proof (Inv_run doc es : Inv st) as HI.
  assert (E1 : st1 = handleTimeTravelChange [2%Z] st).
  { unfold st1, jumpToVersion. rewrite Hlen. done. }
  assert (Hs1 : settled st1).
  { rewrite E1. eapply settled_sub; [exact Hs|by auto|].
    unfold handleTimeTravelChange, invoke. simpl. intros i k.
    destruct (decide (i = nextReq st)) as [->|Hne].
    - rewrite lookup_insert_eq. intros [= <-]. by right.
    - rewrite lookup_insert_ne by done. by left. }
  assert (H1 : isTimeTravel st1 = true ∧ timeTravelIndex st1 = [2%Z] ∧ mode st1 = write).
  { by rewrite E1. }
  destruct H1 as (Hb1 & Hi1 & Hm1).
  pose proof (Inv_jumpToVersion 2 st HI : Inv st1) as HI1.
  assert (Hc1 : ∃ c, content st1 = Some c).
  { destruct (content_some doc es) as [c Hc]. exists c. unfold st1.
    by rewrite (navFrame_content _ _ (jumpToVersion_frame 2 st)). }
  destruct (quiet_run evs st1 Hq Hs1) as (Hs2 & Hb2 & Hm2 & Hi2). fold st2 in Hs2, Hb2, Hm2, Hi2.
  pose proof (Inv_run_from evs st1 HI1 : Inv st2) as HI2.
  destruct (content_run evs st1 Hc1) as [c Hc2]. fold st2 in Hc2.
  destruct (exitTimeTravel_spec st2 Hs2) as (Hs3 & Hb3 & Hc3 & Hi3 & Hm3 & Hts3).
  fold st3 in Hs3, Hb3, Hc3, Hi3, Hm3, Hts3.
  pose proof (Inv_exitTimeTravel st2 HI2 : Inv st3) as HI3.
  assert (Hah3 : timersAhead st3).
  { eapply timersAhead_frame; [|apply exitTimeTravel_ahead].
    apply run_ahead; [done|].
    eapply timersAhead_frame; [|apply aheadFrame_nav, jumpToVersion_frame].
    apply run_ahead; [apply Inv_mount|apply mount_ahead]. }
  assert (Hcn3 : content st3 = Some c ∧ now st3 = now st2).
  { unfold st3. rewrite exitTimeTravel_content. split; [done|].
    by destruct (exitTimeTravel_quiet st2) as (_ & ? & _). }
  destruct Hcn3 as [Hcon3 Hn3].
  specialize (Hi2 Hb1).
  assert (Hidx3 : timeTravelIndex st3 = [2%Z]) by congruence.
  assert (Hmode3 : mode st3 = write) by congruence.
  assert (Harm : alive st2 = true → saveTimeout st2 = None →
            saveTimers st3 =
              [mkTimer (nextHandle st2) (now st2 + SAVE_THROTTLE_MS) None SaveCb]).
  { intros Ha Hsv. unfold st3.
    rewrite (exitTimeTravel_arms st2 c) by (done || congruence).
    unfold saveTimers. simpl. rewrite filter_app.
    replace (filter (λ t, isSave t = true) (timers st2)) with (@nil Timer); [done|].
    symmetry. apply (saveTimers_nil st2). intros t Hin.
    destruct (isSave t) eqn:E; [|done].
    pose proof (inv_save _ _ _ _ _ _ HI2 _ Hin E). congruence. }
  assert (Hstuck : saveStuck st2 → saveStuck st3 ∧
                     patches (trace st3) = patches (trace st2)).
  { intros Hst. pose proof (exitTimeTravel_stuck st2 Hst) as Hf.
    split; [by eapply saveStuck_frame|apply Hf]. }
  assert (Hcases : alive st2 = true →
            saveTimers st3 ≠ [] ∨
            (∃ id k, pending st3 !! id = Some k ∧ isSaveCont k = true) ∨
            saveStuck st2).
  { intros Ha. destruct (saveTimeout st2) as [h|] eqn:Hsv.
    - assert (E3 : timers st3 = timers st2 ∧ pending st3 = pending st2).
      { unfold st3, exitTimeTravel. rewrite Hb2, Hb1, Ha. cbn [andb].
        rewrite contentEffect_pending by (simpl; by rewrite Hsv). done. }
      destruct E3 as [Et Ep].
      destruct (saveTimers st2) as [|u l] eqn:Hst.
      + destruct (decide (map_Forall (λ _ k, isSaveCont k = false) (pending st2)))
          as [Hall|Hex].
        * right. right. split; [by rewrite Hsv|]. split; [by apply saveTimers_nil|].
          intros id k Hk. by apply (Hall id k).
        * right. left. apply map_not_Forall in Hex as (id & k & Hk & Hno); [|apply _].
          exists id, k. rewrite Ep. split; [done|]. by destruct (isSaveCont k).
      + left. unfold saveTimers in *. by rewrite Et, Hst.
    - left. by rewrite Harm. }
  clearbody st1 st2 st3.
  split; [done|]. split; [repeat split; congruence|].
  split; [done|]. split; [done|]. split; [|split; [|split; [|done]]].
  - intros t r ts' s Hin st4 st5.
    pose proof (save_timer_alone st3 t HI3 Hs3 Hin) as Ht.
    apply list_elem_of_filter in Hin as [Hsave Hin].
    destruct (Hah3 t Hin) as [Hd _].
    assert (Hcb : cb t = SaveCb) by (unfold isSave in Hsave; by destruct (cb t)).
    assert (Hper : period t = None).
    { apply (inv_oneshot _ _ _ _ _ _ HI3 _ Hin).
      unfold isHoldInterval. by rewrite Hcb. }
    assert (E4 : st4 = invoke (CreatePatch (docUuid st3) c (due t)) KSaveCreate
                         (set_timers [] (set_now (due t) st3))).
    { unfold st4. by apply save_alone_fires. }
    assert (H4 : pending st4 !! nextReq st3 = Some KSaveCreate ∧
                 nextReq st4 = S (nextReq st3) ∧ isTimeTravel st4 = false ∧
                 mode st4 = write ∧ timeTravelIndex st4 = [2%Z] ∧
                 patches (trace st4) = (c, due t) :: patches (trace st3)).
    { rewrite E4. split; [apply (pending_invoke _ _ (set_timers [] (set_now _ st3)))|].
      by repeat split. }
    destruct H4 as (Hp4 & Hq4 & Hb4 & Hm4 & Hi4 & Hpa4).
    assert (E5 : st5 = run (completion KSaveCreate (nextReq st3) (nextReq st4) r ts' s) st4)
      by (by rewrite Hq4).
    destruct (completion_spec KSaveCreate (nextReq st3) r ts' s st4 Hp4 eq_refl)
      as (Hsv5&_&Hts5&Hi5&_&_&_&_&_&Hb5&Hm5&_).
    rewrite <- E5 in Hsv5, Hts5, Hi5, Hb5, Hm5. clearbody st4 st5.
    split; [done|]. split; [by exists c|]. split; [done|]. split; [done|].
    rewrite Hb4 in Hi5. unfold lastIndex in Hi5. rewrite Hts5 in Hi5.
    repeat split; congruence.
  - intros id k r ts' s Hid Hk st5.
    destruct (completion_spec k id r ts' s st3 Hid Hk)
      as (Hsv5&_&Hts5&Hi5&_&_&_&_&_&Hb5&Hm5&_).
    fold st5 in Hsv5, Hts5, Hi5, Hb5, Hm5. clearbody st5.
    rewrite Hb3 in Hi5. repeat split; congruence.
  - intros Hst evs' Hq'. destruct (Hstuck Hst) as [Hst3 Hp3].
    destruct (stuck_quiet_run evs' st3 Hq' Hs3 Hst3) as [(Hi & Hb & _)%scrubView_inv Hp].
    destruct (run_stuck evs' st3 Hst3) as [Hs' _].
    split; [congruence|]. split; [congruence|]. split; [|congruence].
    apply saveTimers_nil, Hs'.
Qed.

Lemma C3_witness :
  let st := run [EReply 0 (RTimestamps [1; 2; 3; 4; 5]%Z);
                 EReply 1 (RStats (mkStats 5 10 100 (10 # 1)));
                 EReply 2 (RString "five")] (mount "doc") in
  let evs := replicate 500 ETick
             ++ [EReply 4 (RString "patch");
                 EReply 5 (RTimestamps [1; 2; 3; 4; 5; 6]%Z);
                 EReply 6 (RStats (mkStats 6 12 120 (10 # 1)))] in
  let st2 := run evs (jumpToVersion 2 st) in
  let st3 := exitTimeTravel st2 in
  let t := mkTimer (nextHandle st2) (now st2 + SAVE_THROTTLE_MS) None SaveCb in
  let st4 := advance (due t - now st3) st3 in
  let st5 := run (completion KSaveCreate (nextReq st3) (S (nextReq st3))
                    (RString "patch") [1; 2; 3; 4; 5; 6; 7]%Z
                    (mkStats 7 14 140 (10 # 1))) st4 in
  let stuck := run ([EReply 0 (RTimestamps [1; 2; 3; 4; 5]%Z);
                     EReply 1 (RStats (mkStats 5 10 100 (10 # 1)));
                     EReply 2 (RString "five")]
                    ++ replicate 500 ETick ++ [EReply 3 RError; EReply 4 RError])
                 (mount "doc") in
  let later := run (EEdit "x" :: replicate 1000 ETick)
                 (exitTimeTravel (run [] (jumpToVersion 2 stuck))) in
  (isTimeTravel st2 = true ∧ timeTravelIndex st2 = [2%Z] ∧ mode st2 = write) ∧
  (isTimeTravel st3 = false ∧ timeTravelContent st3 = "" ∧
   timeTravelIndex st3 = [2%Z] ∧ mode st3 = write) ∧
  saveTimers st3 = [t] ∧
  timeTravelIndex st4 = [2%Z] ∧
  (timeTravelIndex st5 = [6%Z] ∧ length (timestamps st5) = 7 ∧
   isTimeTravel st5 = false ∧ mode st5 = write) ∧
  (timeTravelIndex later = [2%Z] ∧ saveTimers later = []).
Proof.
  intros st evs st2 st3 t st4 st5 stuck later.
  assert (Hset : settled st).
  { apply settled_iff. split.
    - intros u Hin. vm_compute in Hin.
      apply list_elem_of_singleton in Hin as ->. split; reflexivity.
    - intros id k Hk.
      assert (Hp : pending st = ∅) by (vm_compute; reflexivity).
      rewrite Hp, lookup_empty in Hk. discriminate Hk. }
  assert (Hq : Forall (λ e, isQuiet e = true) evs).
  { unfold evs. apply Forall_app. split; [|repeat constructor].
    apply Forall_replicate. reflexivity. }
  assert (Hset' : settled stuck).
  { apply settled_iff. split.
    - intros u Hin. vm_compute in Hin. inversion Hin.
    - intros id k Hk.
      assert (Hp : pending stuck = ∅) by (vm_compute; reflexivity).
      rewrite Hp, lookup_empty in Hk. discriminate Hk. }
  assert (Hstuck : saveStuck (run [] (jumpToVersion 2 stuck))).
  { split; [vm_compute; discriminate|]. split.
    - intros u Hin. vm_compute in Hin. inversion Hin.
    - intros id k Hk.
      assert (Hp : pending (run [] (jumpToVersion 2 stuck)) = {[5 := KLoadVersion]})
        by (vm_compute; reflexivity).
      rewrite Hp in Hk. apply lookup_singleton_Some in Hk as [_ <-]. reflexivity. }
  assert (Hq' : Forall (λ e, isQuiet e = true) (EEdit "x" :: replicate 1000 ETick)).
  { constructor; [reflexivity|]. apply Forall_replicate. reflexivity. }
  destruct (C3_time_travel_until_exit "doc"
              [EReply 0 (RTimestamps [1; 2; 3; 4; 5]%Z);
               EReply 1 (RStats (mkStats 5 10 100 (10 # 1)));
               EReply 2 (RString "five")] evs
              ltac:(vm_compute; reflexivity) ltac:(vm_compute; reflexivity) Hset Hq)
    as (_ & H2 & (H3a & H3b & H3c & H3d & _) & H4 & H5 & _).
  destruct (C3_time_travel_until_exit "doc"
              ([EReply 0 (RTimestamps [1; 2; 3; 4; 5]%Z);
                EReply 1 (RStats (mkStats 5 10 100 (10 # 1)));
                EReply 2 (RString "five")]
               ++ replicate 500 ETick ++ [EReply 3 RError; EReply 4 RError]) []
              ltac:(vm_compute; reflexivity) ltac:(vm_compute; reflexivity) Hset'
              ltac:(constructor))
    as (_ & _ & _ & _ & _ & _ & H7 & _).
  destruct (H7 Hstuck (EEdit "x" :: replicate 1000 ETick) Hq') as (H7a & _ & H7b & _).
  pose proof (H4 ltac:(vm_compute; reflexivity) ltac:(vm_compute; reflexivity)) as H4'.
  assert (Hin : t ∈ saveTimers st3).
  { change (saveTimers st3 = [t]) in H4'. rewrite H4'.
    apply list_elem_of_singleton. reflexivity. }
  destruct (H5 t (RString "patch") [1; 2; 3; 4; 5; 6; 7]%Z (mkStats 7 14 140 (10 # 1))
              Hin)
    as (_ & _ & _ & H5a & H5b & H5c & H5d & H5e & _).
  split; [exact H2|]. split; [exact (conj H3a (conj H3b (conj H3c H3d)))|].
  split; [exact H4'|].
  split; [exact H5a|]. split; [|exact (conj H7a H7b)].
  split; [exact H5b|]. split; [|exact (conj H5d H5e)].
  etransitivity; [exact (f_equal length H5c)|reflexivity].
Defined.

(** * The statistics header and the version label *)

Lemma append_nil_r (s : string) : (s ++ "")%string = s.
Proof.
  induction s as [|a s IH]; [done|].
  change (String a (s ++ "")%string = String a s). by rewrite IH.
Qed.

Lemma showHundredths_whole (n : Z) : showHundredths (n * 100) = digits n.
Proof.
  unfold showHundredths. cbv zeta.
  rewrite Z.mod_mul, Z.div_mul by done. simpl. apply append_nil_r.
Qed.

(** The index of the unit: the integer logarithm in base 1024. *)
Lemma unit_index (bytes i : Z) :
  (0 ≤ i)%Z → (1024 ^ i ≤ bytes < 1024 ^ (i + 1))%Z → (Z.log2 bytes / 10 = i)%Z.
Proof.
  intros Hi [Hlo Hhi].
  assert (Hpos : (0 < bytes)%Z).
  { pose proof (Z.pow_pos_nonneg 1024 i). lia. }
  change 1024%Z with (2 ^ 10)%Z in Hlo, Hhi.
  rewrite <- Z.pow_mul_r in Hlo, Hhi by lia.
  apply Z.log2_le_pow2 in Hlo; [|done].
  apply Z.log2_lt_pow2 in Hhi; [|done].
  symmetry. apply (Z.div_unique _ _ _ (Z.log2 bytes - 10 * i)); lia.
Qed.

(** X16: a size below 1 KiB is printed as it is, followed by " B". *)
Theorem formatBytes_below_1024 bytes :
  (0 < bytes < 1024)%Z → formatBytes bytes = Some (digits bytes ++ " B")%string.
Proof.
  intros Hb. unfold formatBytes.
  replace (bytes =? 0)%Z with false by lia.
  replace (bytes <? 0)%Z with false by lia.
  replace (bytes <? 2 ^ 30)%Z with true by lia. cbv zeta.
  rewrite (unit_index bytes 0) by (simpl; lia).
  replace (roundDiv (bytes * 100) (1024 ^ 0)) with (bytes * 100)%Z.
  - by rewrite showHundredths_whole.
  - unfold roundDiv. change (1024 ^ 0)%Z with 1%Z.
    apply (Z.div_unique _ _ _ 1); lia.
Qed.

Lemma formatBytes_below_1024_witness : formatBytes 1023 = Some "1023 B".
Proof. apply (formatBytes_below_1024 1023). lia. Defined.

(** X17: the unit is chosen from an array of three (B, KB, MB).  From
    1 KiB up to 1 MiB the size is divided by 1024, rounded to hundredths
    and labelled KB; from 1 MiB up to 1 GiB it is divided by 1024 * 1024
    and labelled MB. *)
Theorem formatBytes_units bytes :
  ((1024 ≤ bytes < 1024 ^ 2)%Z →
     formatBytes bytes =
       Some (showHundredths (roundDiv (bytes * 100) 1024) ++ " KB")%string) ∧
  ((1024 ^ 2 ≤ bytes < 1024 ^ 3)%Z →
     formatBytes bytes =
       Some (showHundredths (roundDiv (bytes * 100) (1024 ^ 2)) ++ " MB")%string).
Proof.
  assert (Hgen : (0 < bytes < 2 ^ 30)%Z →
    formatBytes bytes =
      Some (showHundredths (roundDiv (bytes * 100) (1024 ^ (Z.log2 bytes / 10)))
              ++ " " ++ default "undefined"
                          (["B"; "KB"; "MB"] !! Z.to_nat (Z.log2 bytes / 10)))%string).
  { intros Hpos. unfold formatBytes.
    replace (bytes =? 0)%Z with false by lia.
    replace (bytes <? 0)%Z with false by lia.
    by replace (bytes <? 2 ^ 30)%Z with true by lia. }
  split; intros Hb.
  - rewrite Hgen by lia. by rewrite (unit_index bytes 1) by (simpl; lia).
  - rewrite Hgen by lia. by rewrite (unit_index bytes 2) by (simpl; lia).
Qed.

Lemma formatBytes_units_witness :
  formatBytes 1536 = Some "1.5 KB" ∧ formatBytes 5242880 = Some "5 MB".
Proof.
  destruct (formatBytes_units 1536) as (Hk & _).
  destruct (formatBytes_units 5242880) as (_ & Hm).
  split.
  - rewrite Hk by lia. vm_compute. reflexivity.
  - rewrite Hm by lia. vm_compute. reflexivity.
Defined.

(** X18: for at least one patch and fewer than 2^52 bytes stored, the
    average shown in the header is the quotient of the bytes stored by
    the number of patches, rounded to the nearest integer (a half is
    rounded up): it is off by at most half a byte. *)
Theorem averageBytes_is_nearest s :
  (0 < total_patches s < 2 ^ 53)%Z → (0 ≤ total_delta_bytes s < 2 ^ 52)%Z →
  ∃ a, averageBytes s = Some a ∧
       (2 * (a * total_patches s) - total_patches s
          ≤ 2 * total_delta_bytes s
          < 2 * (a * total_patches s) + total_patches s)%Z.
Proof.
  intros Hn Hd. unfold averageBytes.
  replace (0 <? total_patches s)%Z with true by lia.
  replace (total_patches s <? 2 ^ 53)%Z with true by lia.
  replace (0 <=? total_delta_bytes s)%Z with true by lia.
  replace (total_delta_bytes s <? 2 ^ 52)%Z with true by lia.
  eexists. split; [reflexivity|]. unfold roundDiv.
  pose proof (Z.mul_div_le (2 * total_delta_bytes s + total_patches s)
                (2 * total_patches s)).
  pose proof (Z.mul_succ_div_gt (2 * total_delta_bytes s + total_patches s)
                (2 * total_patches s)).
  lia.
Qed.

Lemma averageBytes_is_nearest_witness :
  averageBytes (mkStats 4 10 0 (0 # 1)) = Some 3%Z ∧
  (2 * (3 * 4) - 4 ≤ 2 * 10 < 2 * (3 * 4) + 4)%Z.
Proof.
  destruct (averageBytes_is_nearest (mkStats 4 10 0 (0 # 1))) as (a & Ha & Hb);
    [simpl; lia..|].
  assert (a = 3%Z) as -> by (vm_compute in Ha; congruence).
  split; [exact Ha|exact Hb].
Defined.

(** X19: the label of the selected version.  Less than a minute old (or
    dated in the future): "just now"; less than an hour: the whole minutes
    (1 to 59) followed by "m ago"; less than a day: the whole hours (1 to
    23) followed by "h ago"; less than a week: the whole days (1 to 6)
    followed by "d ago"; from a week on, the date. *)
Theorem formatRelativeTime_buckets toLocaleDateString dateNow timestamp :
  let diff := (dateNow - timestamp)%Z in
  let label := formatRelativeTime toLocaleDateString dateNow timestamp in
  ((diff < 60000)%Z → label = "just now") ∧
  ((60000 ≤ diff < 3600000)%Z →
     label = (digits (diff / 60000) ++ "m ago")%string ∧ (1 ≤ diff / 60000 ≤ 59)%Z) ∧
  ((3600000 ≤ diff < 86400000)%Z →
     label = (digits (diff / 3600000) ++ "h ago")%string ∧ (1 ≤ diff / 3600000 ≤ 23)%Z) ∧
  ((86400000 ≤ diff < 604800000)%Z →
     label = (digits (diff / 86400000) ++ "d ago")%string ∧ (1 ≤ diff / 86400000 ≤ 6)%Z) ∧
  ((604800000 ≤ diff)%Z → label = toLocaleDateString timestamp).
Proof.
  intros diff label. unfold label, formatRelativeTime. fold diff. cbv zeta.
  clearbody diff.
  split; [|split; [|split; [|split]]]; intros Hd;
    repeat match goal with
    | |- context [(?a <? ?b)%Z] => destruct (Z.ltb_spec a b)
    end;
    try (exfalso; Z.div_mod_to_equations; lia);
    try done; (split; [done|Z.div_mod_to_equations; lia]).
Qed.

Lemma formatRelativeTime_buckets_witness :
  formatRelativeTime (λ _, "a date") 7200000%Z 0%Z = "2h ago".
Proof.
  destruct (formatRelativeTime_buckets (λ _, "a date") 7200000%Z 0%Z)
    as (_ & _ & Hh & _).
  destruct Hh as [Hl _]; [simpl; lia|]. rewrite Hl. vm_compute. reflexivity.
Defined.

(** * Properties of the home page *)

Lemma trimStart_nil s : trimStart s = [] ↔ Forall (λ c, isWhiteSpace c = true) s.
Proof.
  induction s as [|c s IH]; [by split|]. simpl.
  destruct (isWhiteSpace c) eqn:E.
  - rewrite IH. split; [by constructor|]. by intros [_ ?]%Forall_cons.
  - split; [done|]. intros [Hc _]%Forall_cons. congruence.
Qed.

Lemma trimStart_head s c r : trimStart s = c :: r → isWhiteSpace c = false.
Proof.
  induction s as [|a s IH]; [done|]. simpl.
  destruct (isWhiteSpace a) eqn:E; [done|]. by intros [= <- _].
Qed.

(** [trim] leaves nothing exactly when every code unit is white space. *)
Lemma trim_nil s : trim s = [] ↔ Forall (λ c, isWhiteSpace c = true) s.
Proof.
  unfold trim. rewrite <- trimStart_nil. split.
  - intros Hr. apply (f_equal reverse) in Hr. rewrite reverse_involutive in Hr.
    change (reverse []) with (@nil N) in Hr.
    apply trimStart_nil in Hr. rewrite Forall_reverse in Hr.
    destruct (trimStart s) as [|c r] eqn:E; [done|].
    apply trimStart_head in E. apply Forall_cons in Hr as [Hc _]. congruence.
  - by intros ->.
Qed.

(** X20: [handleCreate] does nothing when the name field is empty or
    holds white space only; otherwise it sends exactly one
    [createDocument], with the name as typed (not trimmed), and leaves
    the field and the location as they are until the backend answers. *)
Theorem handleCreate_blank_or_sent st :
  (Forall (λ c, isWhiteSpace c = true) (newDocName st) → handleCreate st = st) ∧
  (¬ Forall (λ c, isWhiteSpace c = true) (newDocName st) →
     issued (handleCreate st) = CreateDocument (newDocName st) :: issued st ∧
     inFlight (handleCreate st) !! length (issued st) = Some KCreated ∧
     newDocName (handleCreate st) = newDocName st ∧
     location (handleCreate st) = location st).
Proof.
  unfold handleCreate. split; intros Hb.
  - by rewrite bool_decide_true by by apply trim_nil.
  - rewrite bool_decide_false by by rewrite trim_nil.
    split; [done|]. split; [apply lookup_insert_eq|done].
Qed.

Lemma handleCreate_blank_or_sent_witness :
  let blank := mkHome [] [32; 9; 160]%N false None ∅ [] in
  let named := mkHome [] [32; 110; 32]%N false None ∅ [] in
  handleCreate blank = blank ∧
  issued (handleCreate named) = [CreateDocument [32; 110; 32]%N].
Proof.
  intros blank named.
  destruct (handleCreate_blank_or_sent blank) as [Hb _].
  destruct (handleCreate_blank_or_sent named) as [_ Hn].
  split.
  - apply Hb. repeat constructor.
  - apply Hn. intros [_ [Hc _]%Forall_cons]%Forall_cons. discriminate Hc.
Defined.

Lemma handleCreate_sent st :
  ¬ Forall (λ c, isWhiteSpace c = true) (newDocName st) →
  handleCreate st = homeInvoke (CreateDocument (newDocName st)) KCreated st.
Proof.
  intros Hb. unfold handleCreate. by rewrite bool_decide_false by by rewrite trim_nil.
Qed.

Lemma homeStep_reply id r k st :
  inFlight st !! id = Some k →
  homeStep (HReply id r) st =
    homeResume k r
      (mkHome (documents st) (newDocName st) (loading st) (location st)
         (delete id (inFlight st)) (issued st)).
Proof. intros Hk. cbn [homeStep]. by rewrite Hk. Qed.

(** X21: nothing stops a second submission while the first is in flight:
    pressing Create twice sends [createDocument] twice with the same name
    (the field is cleared only when an answer arrives), and when both
    calls are answered the page goes to the document of the answer that
    came last, whichever of the two requests it answers: answered in the
    order of issue the page ends on the second document, answered in the
    reverse order it ends on the first. *)
Theorem create_twice_sends_twice st u1 u2 :
  ¬ Forall (λ c, isWhiteSpace c = true) (newDocName st) →
  let n := length (issued st) in
  let st2 := homeStep HCreate (homeStep HCreate st) in
  let inOrder :=
    homeStep (HReply (S n) (HUuid u2)) (homeStep (HReply n (HUuid u1)) st2) in
  let reversed :=
    homeStep (HReply n (HUuid u1)) (homeStep (HReply (S n) (HUuid u2)) st2) in
  issued st2 = [CreateDocument (newDocName st); CreateDocument (newDocName st)]
                 ++ issued st ∧
  newDocName st2 = newDocName st ∧
  (issued inOrder = issued st2 ∧ newDocName inOrder = [] ∧
   location inOrder = Some ("/editor/" ++ u2)%string) ∧
  (issued reversed = issued st2 ∧ newDocName reversed = [] ∧
   location reversed = Some ("/editor/" ++ u1)%string).
Proof.
  intros Hb n st2 inOrder reversed.
  assert (E2 : st2 = mkHome (documents st) (newDocName st) (loading st) (location st)
                       (<[S n := KCreated]> (<[n := KCreated]> (inFlight st)))
                       (CreateDocument (newDocName st)
                          :: CreateDocument (newDocName st) :: issued st)).
  { unfold st2. cbn [homeStep]. rewrite (handleCreate_sent st Hb).
    by rewrite handleCreate_sent. }
  clearbody st2. subst st2. split; [done|]. split; [done|]. split.
  - unfold inOrder. clear inOrder reversed.
    rewrite (homeStep_reply n _ KCreated)
      by (simpl; rewrite lookup_insert_ne by lia; apply lookup_insert_eq).
    rewrite (homeStep_reply (S n) _ KCreated)
      by (simpl; rewrite lookup_delete_ne by lia; apply lookup_insert_eq).
    done.
  - unfold reversed. clear inOrder reversed.
    rewrite (homeStep_reply (S n) _ KCreated) by (simpl; apply lookup_insert_eq).
    rewrite (homeStep_reply n _ KCreated)
      by (simpl; rewrite lookup_delete_ne by lia;
          rewrite lookup_insert_ne by lia; apply lookup_insert_eq).
    done.
Qed.

Lemma create_twice_sends_twice_witness :
  let st := homeStep (HInput [110]%N) homeMount in
  let st2 := homeStep HCreate (homeStep HCreate st) in
  let inOrder := homeStep (HReply 2 (HUuid "b")) (homeStep (HReply 1 (HUuid "a")) st2) in
  let reversed := homeStep (HReply 1 (HUuid "a")) (homeStep (HReply 2 (HUuid "b")) st2) in
  issued st2 = [CreateDocument [110]%N; CreateDocument [110]%N; GetDocuments] ∧
  location inOrder = Some "/editor/b" ∧
  location reversed = Some "/editor/a".
Proof.
  intros st st2 inOrder reversed.
  destruct (create_twice_sends_twice st "a" "b")
    as (H2 & _ & (_ & _ & H4) & (_ & _ & H5)).
  - intros [Hc _]%Forall_cons. discriminate Hc.
  - split; [exact H2|]. split; [exact H4|exact H5].
Defined.

(** While the answer to [getDocuments] has not arrived, and for ever when
    it was a rejection, the page shows "Loading...". *)
Lemma loading_step e st :
  loading st = true → (∀ id, inFlight st !! id ≠ Some KDocuments) →
  loading (homeStep e st) = true ∧
  (∀ id, inFlight (homeStep e st) !! id ≠ Some KDocuments) ∧
  documents (homeStep e st) = documents st.
Proof.
  intros Hl Hno.
  assert (Hc : loading (handleCreate st) = true ∧
               (∀ id, inFlight (handleCreate st) !! id ≠ Some KDocuments) ∧
               documents (handleCreate st) = documents st).
  { unfold handleCreate. case_bool_decide; [done|]. split; [done|]. split; [|done].
    intros id. simpl. destruct (decide (id = length (issued st))) as [->|Hne].
    - by rewrite lookup_insert_eq.
    - rewrite lookup_insert_ne by done. apply Hno. }
  destruct e; cbn [homeStep]; try done.
  - by case_bool_decide.
  - unfold homeView. by rewrite Hl.
  - destruct (inFlight st !! id) as [k|] eqn:Hk; [|done].
    assert (Hno' : ∀ i, delete id (inFlight st) !! i ≠ Some KDocuments).
    { intros i [_ Hi]%lookup_delete_Some. by apply (Hno i). }
    destruct k; [by destruct (Hno id)|]. by destruct r.
Qed.

(** X22: onMount handles no error.  If [getDocuments] is rejected the
    page shows "Loading..." for ever, whatever is typed, created or
    answered later, and the list of documents stays empty. *)
Theorem rejected_list_keeps_loading es :
  let st := homeRun es (homeStep (HReply 0 HError) homeMount) in
  homeView st = Loading ∧ documents st = [].
Proof.
  intros st.
  enough (H : loading st = true ∧ (∀ id, inFlight st !! id ≠ Some KDocuments) ∧
              documents st = []).
  { destruct H as (Hl & _ & Hd). split; [|done]. unfold homeView. by rewrite Hl. }
  unfold st. clear st.
  induction es as [|e es IH] using rev_ind.
  - rewrite (homeStep_reply 0 _ KDocuments) by apply lookup_insert_eq.
    split; [done|]. split; [|done]. intros id. simpl.
    intros [Hne Hi]%lookup_delete_Some.
    apply lookup_insert_Some in Hi as [[? _]|[_ Hi]]; [done|].
    by rewrite lookup_empty in Hi.
  - unfold homeRun in *. rewrite foldl_app. cbn [foldl].
    destruct IH as (Hl & Hno & Hd).
    destruct (loading_step e _ Hl Hno) as (H1 & H2 & H3).
    split; [done|]. split; [done|congruence].
Qed.
